(** * WyrmWatch server: admission-controlled dispatch and shutdown

    A shallow embedding of [wyrmwatch_server.py]: the metrics counters, the
    todo tool with its keyword heuristics, the MQTT wrapper, and the server's
    coroutines ([handle_message], [process_task], [shutdown],
    [report_metrics]) as a labelled transition system in which every
    statement that touches shared state is one step.

    The transport's callbacks and the coroutines interleave freely,
    statement by statement. That covers the schedules of the event loop,
    where a coroutine runs undisturbed up to its next [await], and those of
    a callback that runs on the transport's thread. What the broker, the
    gateway, the database and the clock do is an input of each step.

    Three things are taken more generously than the program has them.
    - [create_task] is taken to find the running loop, as it does when the
      message callback runs in the thread of the loop. Called from the
      transport's own thread ([loop_start], line 325), which has no running
      loop, it raises [RuntimeError], on a task topic after
      [increment_received], and no coroutine comes to exist. What is proved
      of units of work is proved of the units that exist; what is proved of
      the triggers of a shutdown is proved of signals, whose handlers the
      loop runs.
    - The steps of the coroutines are offered in every state, also after
      [start] has returned, when [asyncio.run] only cancels what is
      suspended, and the callbacks are offered also after [disconnect] has
      stopped the transport's thread. A statement that a coroutine can run
      names the state of [start] or of the shutdown event.
    - [clock] counts the seconds that have passed, as [loop.time()] does;
      the readings of [time.time()] and [datetime.now()] are taken from it,
      so nothing is said of a wall clock that is set back. *)

From stdpp Require Import base list list_numbers strings.
From Stdlib Require Import Ascii String NArith ZArith Lia.
From Stdlib.Strings Require Import Byte.

Open Scope string_scope.
Open Scope list_scope.

(** ** Text

    A Python [str] is represented by its UTF-8 encoding, a Rocq [string];
    [bytes] are [list byte]. *)

Definition nl : string := String (ascii_of_nat 10) "".

(** [needle in haystack] for Python strings. On UTF-8 encodings the runs of
    bytes are the runs of characters. *)
Fixpoint contains (needle haystack : string) : bool :=
  String.prefix needle haystack ||
  match haystack with
  | EmptyString => false
  | String _ rest => contains needle rest
  end.

(** [s.startswith(p)] *)
Definition startswith (s p : string) : bool := String.prefix p s.

(** [s.split(sep)] for a one-character separator. *)
Fixpoint split (sep : ascii) (s : string) : list string :=
  match s with
  | EmptyString => [""]
  | String c rest =>
      if Ascii.eqb c sep then "" :: split sep rest
      else match split sep rest with
           | w :: ws => String c w :: ws
           | [] => [String c ""]
           end
  end.

(** [s.strip(chars)]: drop leading and trailing characters that are in [chars]. *)
Definition in_chars (chars : list ascii) (c : ascii) : bool :=
  existsb (Ascii.eqb c) chars.

Fixpoint lstrip_chars (chars : list ascii) (s : string) : string :=
  match s with
  | EmptyString => ""
  | String c rest => if in_chars chars c then lstrip_chars chars rest else s
  end.

Fixpoint rstrip_chars (chars : list ascii) (s : string) : string :=
  match s with
  | EmptyString => ""
  | String c rest =>
      match rstrip_chars chars rest with
      | EmptyString => if in_chars chars c then "" else String c ""
      | rest' => String c rest'
      end
  end.

Definition strip_chars (chars : list ascii) (s : string) : string :=
  rstrip_chars chars (lstrip_chars chars s).

(** *** [bytes.decode('utf-8')]

    The strict decoder accepts exactly the well-formed byte sequences of the
    Unicode standard (no overlong forms, no surrogates, nothing above
    U+10FFFF) and raises [UnicodeDecodeError] on anything else. *)

Definition between (lo hi : N) (b : byte) : bool :=
  (lo <=? Byte.to_N b)%N && (Byte.to_N b <=? hi)%N.

Definition continuation : byte -> bool := between 128 191.

(** The range allowed for the second byte of a three-byte sequence. *)
Definition second_of_three (b0 b1 : byte) : bool :=
  if between 224 224 b0 then between 160 191 b1
  else if between 237 237 b0 then between 128 159 b1
  else continuation b1.

(** The range allowed for the second byte of a four-byte sequence. *)
Definition second_of_four (b0 b1 : byte) : bool :=
  if between 240 240 b0 then between 144 191 b1
  else if between 244 244 b0 then between 128 143 b1
  else continuation b1.

Fixpoint utf8_wellformed (bs : list byte) : bool :=
  match bs with
  | [] => true
  | b0 :: r0 =>
      if between 0 127 b0 then utf8_wellformed r0
      else match r0 with
      | [] => false
      | b1 :: r1 =>
          if between 194 223 b0 then continuation b1 && utf8_wellformed r1
          else match r1 with
          | [] => false
          | b2 :: r2 =>
              if between 224 239 b0
              then second_of_three b0 b1 && continuation b2 && utf8_wellformed r2
              else match r2 with
              | [] => false
              | b3 :: r3 =>
                  between 240 244 b0 && second_of_four b0 b1 &&
                  continuation b2 && continuation b3 && utf8_wellformed r3
              end
          end
      end
  end.

Definition decode_utf8 (payload_bytes : list byte) : option string :=
  if utf8_wellformed payload_bytes
  then Some (string_of_list_byte payload_bytes)
  else None.

(** ** Python values

    What [json.loads] can return, which is also what a task description can
    be at run time. A [PyDict] lists its pairs in insertion order; a later
    pair for the same key overrides an earlier one. *)

#[local] Set Warnings "-register-all".

Inductive pyvalue :=
| PyNone
| PyBool (b : bool)
| PyNum (lexeme : string)
| PyStr (s : string)
| PyList (items : list pyvalue)
| PyDict (pairs : list (string * pyvalue)).

Fixpoint dict_get (key : string) (pairs : list (string * pyvalue)) : option pyvalue :=
  match pairs with
  | [] => None
  | (k, v) :: rest =>
      match dict_get key rest with
      | Some v' => Some v'
      | None => if String.eqb k key then Some v else None
      end
  end.

(** The three ways [json.loads] can end. *)
Inductive loads_result :=
| Loaded (v : pyvalue)
| JSONDecodeError
| LoadsRaised (e : string).

(** ** Library functions the server calls

    [json.loads] and the locale-free but Unicode-aware string methods are
    taken as an interface; every theorem below holds for any implementation
    of it. [AsciiRuntime] further down is an executable instance. *)

Class PyRuntime := {
  json_loads : string -> loads_result;
  str_lower : string -> string;       (* s.lower() *)
  str_strip : string -> string;       (* s.strip() *)
  str_split : string -> list string;  (* s.split() *)
}.

(** ** Enumerations and metrics *)

Inductive TaskPriority := CRITICAL | HIGH | MEDIUM | LOW.

Inductive TaskStatus := PENDING | IN_PROGRESS | COMPLETED | FAILED.

(** [MAX_CONCURRENT_TASKS], [MAX_CONCURRENT_AI], [METRICS_REPORTING_INTERVAL] *)
Definition MAX_CONCURRENT_TASKS : nat := 5.
Definition MAX_CONCURRENT_AI : nat := 2.
Definition METRICS_REPORTING_INTERVAL : nat := 30.

(** [TaskMetrics]; every method runs under [self._lock], so each is atomic. *)
Record TaskMetrics := {
  tasks_received : nat;
  tasks_processed : nat;
  tasks_failed : nat;
  start_time : nat;
}.

Definition TaskMetrics_init (now : nat) : TaskMetrics :=
  {| tasks_received := 0; tasks_processed := 0; tasks_failed := 0; start_time := now |}.

Definition increment_received (m : TaskMetrics) : TaskMetrics * nat :=
  let m' := {| tasks_received := tasks_received m + 1;
               tasks_processed := tasks_processed m;
               tasks_failed := tasks_failed m;
               start_time := start_time m |} in
  (m', tasks_received m').

Definition increment_processed (m : TaskMetrics) : TaskMetrics :=
  {| tasks_received := tasks_received m;
     tasks_processed := tasks_processed m + 1;
     tasks_failed := tasks_failed m;
     start_time := start_time m |}.

Definition increment_failed (m : TaskMetrics) : TaskMetrics :=
  {| tasks_received := tasks_received m;
     tasks_processed := tasks_processed m;
     tasks_failed := tasks_failed m + 1;
     start_time := start_time m |}.

(** The dictionary [as_json] returns. [uptime_seconds] is
    [int(now - self.start_time)], negative when [now] is before the start
    time. *)
Record snapshot := {
  snap_received : nat;
  snap_processed : nat;
  snap_failed : nat;
  uptime_seconds : Z;
  snap_timestamp : nat;
}.

Definition as_json (now : nat) (m : TaskMetrics) : snapshot :=
  {| snap_received := tasks_received m;
     snap_processed := tasks_processed m;
     snap_failed := tasks_failed m;
     uptime_seconds := Z.of_nat now - Z.of_nat (start_time m);
     snap_timestamp := now |}.

(** ** Enrichment: [enhance_todo_description]

    What the remote model does on one call is an input of the model: the
    gateway is absent ([HAS_OPENAI and OPENAI_API_KEY] is false), one of its
    three completions raises, or the three completions return their message
    contents. *)

Inductive gateway :=
| Absent
| Fails (e : string)
| Replies (enhanced priority project : string).

Definition quotes : list ascii := [ascii_of_nat 34; ascii_of_nat 39].

Definition high_words : list string := ["urgent"; "critical"; "immediately"; "asap"].
Definition low_words : list string := ["minor"; "cosmetic"; "eventually"; "when possible"].

Section Enrichment.
Context `{PyRuntime}.

(** Lines 257-278: the keyword heuristics used when the gateway is absent
    or has failed. *)
Definition simple_enhancement (description : string) : string * TaskPriority * string :=
  let words := str_split description in
  let enhanced :=
    if (5 <? List.length words)%nat
    then "Enhanced: " +:+ description +:+ nl +:+ nl +:+
         "This task involves working with the wyrmwatch system."
    else "Task: " +:+ description +:+ nl +:+ nl +:+
         "This requires attention to detail and careful implementation." in
  let priority :=
    if existsb (fun word => contains word (str_lower description)) high_words then HIGH
    else if existsb (fun word => contains word (str_lower description)) low_words then LOW
    else MEDIUM in
  let project :=
    if contains "slack" (str_lower description) then "slack-integration"
    else if contains "github" (str_lower description) then "github-tools"
    else "wyrmwatch" in
  (enhanced, priority, project).

(** The result is [inl e] when the call raises [e]. A description that is
    not a [str] has no [split] method, so the heuristic path raises
    [AttributeError] for it. *)
Definition enhance_todo_description (gw : gateway) (description : pyvalue)
  : string + (string * TaskPriority * string) :=
  match gw with
  | Replies content1 content2 content3 =>
      let enhanced_description := str_strip content1 in
      let priority_response := str_lower (str_strip content2) in
      let priority :=
        if String.eqb priority_response "critical" then CRITICAL
        else if String.eqb priority_response "high" then HIGH
        else if String.eqb priority_response "low" then LOW
        else MEDIUM in
      let project := str_strip content3 in
      let project := str_strip (strip_chars quotes (str_strip project)) in
      let project := if String.eqb project "" then "wyrmwatch" else project in
      inr (enhanced_description, priority, project)
  | Absent | Fails _ =>
      match description with
      | PyStr description => inr (simple_enhancement description)
      | _ => inl "AttributeError: object has no attribute 'split'"
      end
  end.
End Enrichment.

(** ** [TodoTool] *)

Record todo := {
  todo_description : pyvalue;
  todo_enhanced_description : pyvalue;
  todo_status : TaskStatus;
  todo_priority : TaskPriority;
  todo_created_at : nat;
  todo_updated_at : nat;
  todo_target_agent : string;
  todo_context : option string;
  todo_project : string;
}.

(** The id the driver gives a document that has no [_id], as the one built
    in [add_todo]: a [bson.ObjectId]. *)
Inductive ObjectId :=
| Oid (value : N).

(** [bool(inserted_id)]: [ObjectId] defines neither [__bool__] nor
    [__len__], so every id is true. *)
Definition truth (inserted_id : ObjectId) : bool := true.

(** What [collection.insert_one] does on one call: it returns a result with
    the id of the inserted document, or it raises. *)
Inductive insert_reply :=
| Inserted (inserted_id : ObjectId)
| InsertRaises (e : string).

(** An f-string with one hole, kept unformatted, or a plain text. *)
Inductive message :=
| FString (prefix : string) (arg : pyvalue)
| Text (s : string).

(** The dictionary [execute] returns. *)
Record result := {
  result_status : string;
  result_message : message;
  result_timestamp : option nat;
}.

(** The [params] dictionary; [None] is an absent key. *)
Record params := {
  params_command : option string;
  params_description : option pyvalue;
  params_context : option string;
  params_target_agent : option string;
  params_project : option string;
}.

(** [x or d] for an optional string. *)
Definition or_else (x : option string) (d : string) : string :=
  match x with
  | Some (String c rest) => String c rest
  | _ => d
  end.

Section TodoTool.
Context `{PyRuntime}.

(** [add_todo]: the document handed to [insert_one], and what the call
    returns ([inr]) or raises ([inl]). *)
Definition add_todo (now : nat) (gw : gateway) (db : insert_reply)
    (description : pyvalue) (context : option string)
    (target_agent : string) (project : option string)
  : todo * (string + result) :=
  let '(enhanced_description, priority, project_name) :=
    match enhance_todo_description gw description with
    | inr (enhanced, priority, project_name) => (PyStr enhanced, priority, project_name)
    | inl _ => (description, MEDIUM, or_else project "wyrmwatch")
    end in
  let todo :=
    {| todo_description := description;
       todo_enhanced_description := enhanced_description;
       todo_status := PENDING;
       todo_priority := priority;
       todo_created_at := now;
       todo_updated_at := now;
       todo_target_agent := target_agent;
       todo_context := context;
       todo_project := project_name |} in
  (todo,
   match db with
   | InsertRaises e => inl e
   | Inserted inserted_id =>
       if truth inserted_id
       then inr {| result_status := "success";
                   result_message := FString "Added new todo: " description;
                   result_timestamp := Some now |}
       else inr {| result_status := "error";
                   result_message := Text "Failed to add todo";
                   result_timestamp := None |}
   end).

(** [execute]: [None] for the document when [insert_one] is not reached. *)
Definition execute (now : nat) (gw : gateway) (db : insert_reply) (p : params)
  : option todo * (string + result) :=
  match params_command p with
  | Some "add" =>
      let '(todo, r) :=
        add_todo now gw db
          (default (PyStr "") (params_description p))
          (params_context p)
          (default "user" (params_target_agent p))
          (Some (default "wyrmwatch" (params_project p))) in
      (Some todo, r)
  | command =>
      (None,
       inr {| result_status := "error";
              result_message :=
                FString "Unknown command: "
                  (match command with Some c => PyStr c | None => PyNone end);
              result_timestamp := None |})
  end.
End TodoTool.

(** ** The server's state

    Every coroutine is a program counter: the statement it executes next,
    with the locals that statement needs. *)

(** [process_task]; the comments give the source lines of each statement. *)
Inductive pc :=
| AcquireTask                       (* 508: async with self.task_semaphore *)
| Parse                             (* 513-528: json.loads, params *)
| AcquireAI (p : params)            (* 531: async with self.ai_semaphore *)
| Execute (p : params)              (* 536: await self.todo_tool.execute(params) *)
| IncrementProcessed (r : result)   (* 538 *)
| PublishSuccess (r : result)       (* 541-548 *)
| IncrementFailed (e : string)      (* 550-552 *)
| PublishError (e : string)         (* 555-562 *)
| ReleaseAI                         (* leaving the block of 531 *)
| OuterIncrementFailed (e : string) (* 564-566 *)
| ReleaseTask                       (* leaving the block of 508 *)
| Finished
| Cancelled.

Record task := {
  task_payload : string;
  task_target_agent : string;
  task_pc : pc;
}.

(** [shutdown] *)
Inductive shutdown_pc :=
| ShutdownPublish                   (* 421-430 *)
| ShutdownDisconnect                (* 433 *)
| ShutdownSleep                     (* 436: await asyncio.sleep(1) *)
| ShutdownSleeping (until : nat)
| ShutdownSetEvent                  (* 439 *)
| ShutdownDone
| ShutdownCancelled (was : shutdown_pc).   (* cancelled while at [was] *)

(** [report_metrics] *)
Inductive report_pc :=
| ReportLoop                        (* 443-449 *)
| ReportWaiting (deadline : nat)    (* 453-456 *)
| ReportExited
| ReportCancelled.

(** Payloads handed to [MqttClient.publish]. *)
Inductive payload :=
| StatusPayload (timestamp : nat) (metrics : snapshot)          (* status: running *)
| ShutdownPayload (timestamp : nat) (final_metrics : snapshot)  (* status: shutdown *)
| MetricsPayload (metrics : snapshot)
| SuccessPayload (message : result) (timestamp : nat)           (* status: success *)
| ErrorPayload (error : string) (timestamp : nat).              (* status: error *)

(** Calls on the collaborators, in the order they were made. *)
Inductive effect :=
| Subscribe (topic : string)
| Publish (topic : string) (body : payload)   (* reached self.client.publish *)
| Refused (topic : string) (body : payload)   (* publish stopped at: not connected *)
| Disconnect                                  (* loop_stop(); client.disconnect() *)
| InsertOne (doc : todo) (reply : insert_reply)
| SetShutdownEvent.

Inductive origin :=
| ByCallback
| ByHandler
| ByTask (i : nat)
| ByShutdown (j : nat)
| ByReporter.

Record entry := { e_time : nat; e_origin : origin; e_effect : effect }.

Record server := {
  metrics : TaskMetrics;
  task_semaphore : nat;     (* the semaphore's free slots *)
  ai_semaphore : nat;
  shutdown_event : bool;
  is_connected : bool;      (* mqtt_client.is_connected *)
  clock : nat;              (* seconds passed; also read for time.time(), datetime.now() *)
  tasks : list task;        (* process_task coroutines, in creation order *)
  shutdowns : list shutdown_pc;
  reporter : report_pc;
  main_returned : bool;     (* start() returned: asyncio.run cancels what is left *)
  log : list entry;
}.

(** The state when [start] reaches its wait: [__init__] has run, [connect]
    was called and the reporting task was created. *)
Definition init : server :=
  {| metrics := TaskMetrics_init 0;
     task_semaphore := MAX_CONCURRENT_TASKS;
     ai_semaphore := MAX_CONCURRENT_AI;
     shutdown_event := false;
     is_connected := false;
     clock := 0;
     tasks := [];
     shutdowns := [];
     reporter := ReportLoop;
     main_returned := false;
     log := [] |}.

(** Field updates. *)
Definition set_metrics (m : TaskMetrics) (s : server) : server :=
  {| metrics := m; task_semaphore := task_semaphore s; ai_semaphore := ai_semaphore s;
     shutdown_event := shutdown_event s; is_connected := is_connected s; clock := clock s;
     tasks := tasks s; shutdowns := shutdowns s; reporter := reporter s;
     main_returned := main_returned s; log := log s |}.

Definition set_task_semaphore (n : nat) (s : server) : server :=
  {| metrics := metrics s; task_semaphore := n; ai_semaphore := ai_semaphore s;
     shutdown_event := shutdown_event s; is_connected := is_connected s; clock := clock s;
     tasks := tasks s; shutdowns := shutdowns s; reporter := reporter s;
     main_returned := main_returned s; log := log s |}.

Definition set_ai_semaphore (n : nat) (s : server) : server :=
  {| metrics := metrics s; task_semaphore := task_semaphore s; ai_semaphore := n;
     shutdown_event := shutdown_event s; is_connected := is_connected s; clock := clock s;
     tasks := tasks s; shutdowns := shutdowns s; reporter := reporter s;
     main_returned := main_returned s; log := log s |}.

Definition set_shutdown_event (b : bool) (s : server) : server :=
  {| metrics := metrics s; task_semaphore := task_semaphore s; ai_semaphore := ai_semaphore s;
     shutdown_event := b; is_connected := is_connected s; clock := clock s;
     tasks := tasks s; shutdowns := shutdowns s; reporter := reporter s;
     main_returned := main_returned s; log := log s |}.

Definition set_is_connected (b : bool) (s : server) : server :=
  {| metrics := metrics s; task_semaphore := task_semaphore s; ai_semaphore := ai_semaphore s;
     shutdown_event := shutdown_event s; is_connected := b; clock := clock s;
     tasks := tasks s; shutdowns := shutdowns s; reporter := reporter s;
     main_returned := main_returned s; log := log s |}.

Definition set_clock (n : nat) (s : server) : server :=
  {| metrics := metrics s; task_semaphore := task_semaphore s; ai_semaphore := ai_semaphore s;
     shutdown_event := shutdown_event s; is_connected := is_connected s; clock := n;
     tasks := tasks s; shutdowns := shutdowns s; reporter := reporter s;
     main_returned := main_returned s; log := log s |}.

Definition set_tasks (ts : list task) (s : server) : server :=
  {| metrics := metrics s; task_semaphore := task_semaphore s; ai_semaphore := ai_semaphore s;
     shutdown_event := shutdown_event s; is_connected := is_connected s; clock := clock s;
     tasks := ts; shutdowns := shutdowns s; reporter := reporter s;
     main_returned := main_returned s; log := log s |}.

Definition set_shutdowns (cs : list shutdown_pc) (s : server) : server :=
  {| metrics := metrics s; task_semaphore := task_semaphore s; ai_semaphore := ai_semaphore s;
     shutdown_event := shutdown_event s; is_connected := is_connected s; clock := clock s;
     tasks := tasks s; shutdowns := cs; reporter := reporter s;
     main_returned := main_returned s; log := log s |}.

Definition set_reporter (r : report_pc) (s : server) : server :=
  {| metrics := metrics s; task_semaphore := task_semaphore s; ai_semaphore := ai_semaphore s;
     shutdown_event := shutdown_event s; is_connected := is_connected s; clock := clock s;
     tasks := tasks s; shutdowns := shutdowns s; reporter := r;
     main_returned := main_returned s; log := log s |}.

Definition set_main_returned (b : bool) (s : server) : server :=
  {| metrics := metrics s; task_semaphore := task_semaphore s; ai_semaphore := ai_semaphore s;
     shutdown_event := shutdown_event s; is_connected := is_connected s; clock := clock s;
     tasks := tasks s; shutdowns := shutdowns s; reporter := reporter s;
     main_returned := b; log := log s |}.

(** Append one call to the log, stamped with the current time. *)
Definition record (o : origin) (e : effect) (s : server) : server :=
  {| metrics := metrics s; task_semaphore := task_semaphore s; ai_semaphore := ai_semaphore s;
     shutdown_event := shutdown_event s; is_connected := is_connected s; clock := clock s;
     tasks := tasks s; shutdowns := shutdowns s; reporter := reporter s;
     main_returned := main_returned s;
     log := log s ++ [{| e_time := clock s; e_origin := o; e_effect := e |}] |}.

Definition set_pc (i : nat) (p : pc) (s : server) : server :=
  match tasks s !! i with
  | Some t =>
      set_tasks (<[i := {| task_payload := task_payload t;
                           task_target_agent := task_target_agent t;
                           task_pc := p |}]> (tasks s)) s
  | None => s
  end.

Definition set_shutdown_pc (j : nat) (p : shutdown_pc) (s : server) : server :=
  set_shutdowns (<[j := p]> (shutdowns s)) s.

(** ** [MqttClient]

    [publish] returns [False] without calling the client when the wrapper
    is not connected; no caller uses its return value. Only the
    [_on_connect] and [_on_disconnect] callbacks write [is_connected]. *)

Definition publish (o : origin) (topic : string) (body : payload) (s : server) : server :=
  if is_connected s then record o (Publish topic body) s
  else record o (Refused topic body) s.

Definition disconnect (o : origin) (s : server) : server :=
  record o Disconnect s.

Definition on_connect (rc : Z) (s : server) : server :=
  if (rc =? 0)%Z
  then record ByCallback (Subscribe "mcp_server/control")
         (record ByCallback (Subscribe "mcp/+") (set_is_connected true s))
  else s.

Definition on_disconnect (s : server) : server := set_is_connected false s.

(** ** [WyrmWatchServer] *)

(** [asyncio.create_task(self.shutdown(...))] *)
Definition spawn_shutdown (s : server) : server :=
  set_shutdowns (shutdowns s ++ [ShutdownPublish]) s.

(** [asyncio.create_task(self.process_task(payload, target_agent))] *)
Definition spawn_task (payload target_agent : string) (s : server) : server :=
  set_tasks (tasks s ++ [{| task_payload := payload;
                            task_target_agent := target_agent;
                            task_pc := AcquireTask |}]) s.

(** How the control block of [handle_message] ends. *)
Inductive control_outcome :=
| Returned (s : server)
| FellThrough
| ControlRaised (e : string).

Section Server.
Context `{PyRuntime}.

(** Lines 467-491, with [create_task] (474) finding the running loop. *)
Definition handle_control (s : server) (payload : string) : control_outcome :=
  match json_loads payload with
  | Loaded (PyDict control_json) =>
      match dict_get "command" control_json with
      | Some (PyStr "shutdown") => Returned (spawn_shutdown s)
      | Some (PyStr "status") =>
          Returned (publish ByHandler "response/mcp_server/status"
                      (StatusPayload (clock s) (as_json (clock s) (metrics s))) s)
      | _ => FellThrough
      end
  | Loaded _ => ControlRaised "AttributeError: object has no attribute 'get'"
  | JSONDecodeError => FellThrough
  | LoadsRaised e => ControlRaised e
  end.

(** Lines 494-503, with [create_task] (503) finding the running loop. *)
Definition handle_task (s : server) (topic payload : string) : server :=
  if startswith topic "mcp/" then
    let '(m, task_count) := increment_received (metrics s) in
    let target_agent :=
      match split "/" topic with
      | _ :: agent :: _ => agent
      | _ => "user"
      end in
    spawn_task payload target_agent (set_metrics m s)
  else s.

(** [handle_message]: [inl e] when the callback raises [e]. *)
Definition handle_message (s : server) (topic : string) (payload_bytes : list byte)
  : string + server :=
  match decode_utf8 payload_bytes with
  | None => inl "UnicodeDecodeError"
  | Some payload =>
      match (if String.eqb topic "mcp_server/control"
             then handle_control s payload else FellThrough) with
      | Returned s' => inr s'
      | ControlRaised e => inl e
      | FellThrough => inr (handle_task s topic payload)
      end
  end.

(** Lines 513-528: the description and the [params] dictionary, or the
    exception that leaves the inner [try]. *)
Definition parse_payload (payload target_agent : string) : string + params :=
  let build description :=
    inr {| params_command := Some "add";
           params_description := Some description;
           params_context := Some "wyrmwatch_server";
           params_target_agent := Some target_agent;
           params_project := None |} in
  match json_loads payload with
  | Loaded (PyDict payload_json) =>
      match dict_get "description" payload_json with
      | Some description => build description
      | None => build (PyStr payload)
      end
  | Loaded _ => build (PyStr payload)
  | JSONDecodeError => build (PyStr payload)
  | LoadsRaised e => inl e
  end.

(** One statement of [process_task] for task [i]. The call of [execute]
    takes what the gateway and the database do; no other statement takes
    a reply. [None]: the statement cannot run now (a full semaphore), or
    the reply does not fit the statement. *)
Definition process_task (i : nat) (reply : option (gateway * insert_reply)) (s : server)
  : option server :=
  match tasks s !! i with
  | None => None
  | Some t =>
      match task_pc t, reply with
      | AcquireTask, None =>
          if (0 <? task_semaphore s)%nat
          then Some (set_pc i Parse (set_task_semaphore (task_semaphore s - 1) s))
          else None
      | Parse, None =>
          match parse_payload (task_payload t) (task_target_agent t) with
          | inr p => Some (set_pc i (AcquireAI p) s)
          | inl e => Some (set_pc i (OuterIncrementFailed e) s)
          end
      | AcquireAI p, None =>
          if (0 <? ai_semaphore s)%nat
          then Some (set_pc i (Execute p) (set_ai_semaphore (ai_semaphore s - 1) s))
          else None
      | Execute p, Some (gw, db) =>
          let '(doc, r) := execute (clock s) gw db p in
          let s' := match doc with
                    | Some doc => record (ByTask i) (InsertOne doc db) s
                    | None => s
                    end in
          match r with
          | inr r => Some (set_pc i (IncrementProcessed r) s')
          | inl e => Some (set_pc i (IncrementFailed e) s')
          end
      | IncrementProcessed r, None =>
          Some (set_pc i (PublishSuccess r) (set_metrics (increment_processed (metrics s)) s))
      | PublishSuccess r, None =>
          Some (set_pc i ReleaseAI
                  (publish (ByTask i) ("response/" +:+ task_target_agent t +:+ "/todo")
                     (SuccessPayload r (clock s)) s))
      | IncrementFailed e, None =>
          Some (set_pc i (PublishError e) (set_metrics (increment_failed (metrics s)) s))
      | PublishError e, None =>
          Some (set_pc i ReleaseAI
                  (publish (ByTask i) ("response/" +:+ task_target_agent t +:+ "/error")
                     (ErrorPayload e (clock s)) s))
      | ReleaseAI, None =>
          Some (set_pc i ReleaseTask (set_ai_semaphore (ai_semaphore s + 1) s))
      | OuterIncrementFailed e, None =>
          Some (set_pc i ReleaseTask (set_metrics (increment_failed (metrics s)) s))
      | ReleaseTask, None =>
          Some (set_pc i Finished (set_task_semaphore (task_semaphore s + 1) s))
      | _, _ => None
      end
  end.
End Server.

(** One statement of the [shutdown] coroutine [j]; [None] while it sleeps. *)
Definition shutdown (j : nat) (s : server) : option server :=
  match shutdowns s !! j with
  | Some ShutdownPublish =>
      Some (set_shutdown_pc j ShutdownDisconnect
              (publish (ByShutdown j) "response/mcp_server/status"
                 (ShutdownPayload (clock s) (as_json (clock s) (metrics s))) s))
  | Some ShutdownDisconnect =>
      Some (set_shutdown_pc j ShutdownSleep (disconnect (ByShutdown j) s))
  | Some ShutdownSleep =>
      Some (set_shutdown_pc j (ShutdownSleeping (clock s + 1)) s)
  | Some (ShutdownSleeping until) =>
      if (until <=? clock s)%nat then Some (set_shutdown_pc j ShutdownSetEvent s) else None
  | Some ShutdownSetEvent =>
      Some (set_shutdown_pc j ShutdownDone
              (record (ByShutdown j) SetShutdownEvent (set_shutdown_event true s)))
  | _ => None
  end.

(** One statement of [report_metrics]; [None] while it waits. *)
Definition report_metrics (s : server) : option server :=
  match reporter s with
  | ReportLoop =>
      if shutdown_event s then Some (set_reporter ReportExited s)
      else Some (set_reporter (ReportWaiting (clock s + METRICS_REPORTING_INTERVAL))
                   (publish ByReporter "metrics/response/mcp_todo_server"
                      (MetricsPayload (as_json (clock s) (metrics s))) s))
  | ReportWaiting deadline =>
      if shutdown_event s || (deadline <=? clock s)%nat
      then Some (set_reporter ReportLoop s) else None
  | _ => None
  end.

(** [asyncio.run] cancels the coroutines that are still suspended when
    [main] returns. [CancelledError] is not an [Exception], so no [except]
    clause of [process_task] sees it; the [async with] blocks it leaves
    release their semaphores. A task is suspended in an [acquire] or in the
    [await] of [execute]. *)
Definition cancel_task (i : nat) (s : server) : option server :=
  if main_returned s then
    match task_pc <$> tasks s !! i with
    | Some AcquireTask => Some (set_pc i Cancelled s)
    | Some (AcquireAI _) =>
        Some (set_pc i Cancelled (set_task_semaphore (task_semaphore s + 1) s))
    | Some (Execute _) =>
        Some (set_pc i Cancelled
                (set_task_semaphore (task_semaphore s + 1)
                   (set_ai_semaphore (ai_semaphore s + 1) s)))
    | _ => None
    end
  else None.

Definition cancel_shutdown (j : nat) (s : server) : option server :=
  if main_returned s then
    match shutdowns s !! j with
    | Some ShutdownPublish =>
        Some (set_shutdown_pc j (ShutdownCancelled ShutdownPublish) s)
    | Some (ShutdownSleeping until) =>
        Some (set_shutdown_pc j (ShutdownCancelled (ShutdownSleeping until)) s)
    | _ => None
    end
  else None.

Definition cancel_reporter (s : server) : option server :=
  if main_returned s then
    match reporter s with
    | ReportWaiting _ => Some (set_reporter ReportCancelled s)
    | _ => None
    end
  else None.

(** ** The transition system *)

Inductive label :=
| Message (topic : string) (payload_bytes : list byte) (* the broker delivers a message *)
| Connected (rc : Z)                                   (* _on_connect *)
| ConnectionLost                                       (* _on_disconnect *)
| Signal                                               (* SIGINT or SIGTERM *)
| Tick                                                 (* a second passes *)
| Run (i : nat)                                        (* task i runs a statement *)
| RunExecute (i : nat) (gw : gateway) (db : insert_reply)
| RunShutdown (j : nat)
| RunReporter
| MainReturns                                          (* start() leaves its wait *)
| CancelTask (i : nat)
| CancelShutdown (j : nat)
| CancelReporter.

Section Transitions.
Context `{PyRuntime}.

(** A callback that raises leaves the server as it was. The statements of
    the coroutines carry no test of [main_returned], and the callbacks none
    of an earlier [disconnect]. *)
Definition step (l : label) (s : server) : option server :=
  match l with
  | Message topic payload_bytes =>
      if main_returned s then None
      else match handle_message s topic payload_bytes with
           | inr s' => Some s'
           | inl _ => Some s
           end
  | Connected rc => Some (on_connect rc s)
  | ConnectionLost => Some (on_disconnect s)
  | Signal => if main_returned s then None else Some (spawn_shutdown s)
  | Tick => Some (set_clock (clock s + 1) s)
  | Run i => process_task i None s
  | RunExecute i gw db => process_task i (Some (gw, db)) s
  | RunShutdown j => shutdown j s
  | RunReporter => report_metrics s
  | MainReturns =>
      if shutdown_event s && negb (main_returned s)
      then Some (set_main_returned true s) else None
  | CancelTask i => cancel_task i s
  | CancelShutdown j => cancel_shutdown j s
  | CancelReporter => cancel_reporter s
  end.

Fixpoint run (ls : list label) (s : server) : option server :=
  match ls with
  | [] => Some s
  | l :: ls => match step l s with Some s' => run ls s' | None => None end
  end.

Inductive reachable : server -> Prop :=
| reachable_init : reachable init
| reachable_step l s s' : reachable s -> step l s = Some s' -> reachable s'.
End Transitions.

(** ** An executable runtime

    The string methods on ASCII text (characters outside ASCII are left as
    they are) and a decoder for the JSON grammar. It runs the scenarios
    below; no general theorem depends on it. *)

Module AsciiRuntime.

Definition code (c : ascii) : N := N_of_ascii c.

Definition lower_char (c : ascii) : ascii :=
  if (65 <=? code c)%N && (code c <=? 90)%N then ascii_of_N (code c + 32) else c.

Fixpoint lower (s : string) : string :=
  match s with
  | EmptyString => ""
  | String c rest => String (lower_char c) (lower rest)
  end.

(** The ASCII characters for which [str.isspace] holds. *)
Definition is_space (c : ascii) : bool :=
  (code c =? 32)%N || ((9 <=? code c)%N && (code c <=? 13)%N) ||
  ((28 <=? code c)%N && (code c <=? 31)%N).

Definition whitespace : list ascii :=
  map ascii_of_nat [9; 10; 11; 12; 13; 28; 29; 30; 31; 32]%nat.

Definition strip : string -> string := strip_chars whitespace.

(** The word being read and the words after it. *)
Fixpoint split_go (s : string) : string * list string :=
  match s with
  | EmptyString => ("", [])
  | String c rest =>
      let '(w, ws) := split_go rest in
      if is_space c
      then ("", match w with EmptyString => ws | _ => w :: ws end)
      else (String c w, ws)
  end.

Definition split_whitespace (s : string) : list string :=
  let '(w, ws) := split_go s in
  match w with EmptyString => ws | _ => w :: ws end.

(** *** JSON *)

Definition char_is (c : ascii) (n : N) : bool := (code c =? n)%N.

Definition json_space (c : ascii) : bool := char_is c 32 || char_is c 9 || char_is c 10 || char_is c 13.

Fixpoint skip (s : string) : string :=
  match s with
  | String c rest => if json_space c then skip rest else s
  | EmptyString => ""
  end.

Definition is_digit (c : ascii) : bool := (48 <=? code c)%N && (code c <=? 57)%N.

Fixpoint digits (s : string) : string * string :=
  match s with
  | String c rest =>
      if is_digit c then let '(ds, r) := digits rest in (String c ds, r) else ("", s)
  | EmptyString => ("", "")
  end.

(** An optional minus sign, an integer part without leading zeros, an
    optional fraction and an optional exponent: the longest match. *)
Definition scan_number (s : string) : option (string * string) :=
  let '(sign, s1) :=
    match s with
    | String c r => if char_is c 45 then ("-", r) else ("", s)
    | EmptyString => ("", s)
    end in
  let integer :=
    match s1 with
    | String c r =>
        if char_is c 48 then Some ("0", r)
        else if is_digit c then let '(ds, r') := digits r in Some (String c ds, r')
        else None
    | EmptyString => None
    end in
  match integer with
  | None => None
  | Some (int, s2) =>
      let '(frac, s3) :=
        match s2 with
        | String c r =>
            if char_is c 46 then
              match digits r with
              | (EmptyString, _) => ("", s2)
              | (ds, r') => (String c ds, r')
              end
            else ("", s2)
        | EmptyString => ("", s2)
        end in
      let '(exp, s4) :=
        match s3 with
        | String c r =>
            if char_is c 101 || char_is c 69 then
              let '(sg, r1) :=
                match r with
                | String d r' => if char_is d 43 || char_is d 45 then (String d "", r') else ("", r)
                | EmptyString => ("", r)
                end in
              match digits r1 with
              | (EmptyString, _) => ("", s3)
              | (ds, r') => (String c (sg +:+ ds), r')
              end
            else ("", s3)
        | EmptyString => ("", s3)
        end in
      Some (sign +:+ int +:+ frac +:+ exp, s4)
  end.

Definition hex (c : ascii) : option N :=
  if is_digit c then Some (code c - 48)%N
  else if (97 <=? code c)%N && (code c <=? 102)%N then Some (code c - 87)%N
  else if (65 <=? code c)%N && (code c <=? 70)%N then Some (code c - 55)%N
  else None.

Definition hex4 (s : string) : option (N * string) :=
  match s with
  | String a (String b (String c (String d rest))) =>
      match hex a, hex b, hex c, hex d with
      | Some a, Some b, Some c, Some d => Some (a * 4096 + b * 256 + c * 16 + d, rest)%N
      | _, _, _, _ => None
      end
  | _ => None
  end.

(** The UTF-8 encoding of a code point that is not a surrogate. *)
Definition encode (n : N) : string :=
  let byte (k : N) := ascii_of_N k in
  (if n <? 128 then String (byte n) ""
   else if n <? 2048 then
     String (byte (192 + n / 64)) (String (byte (128 + n mod 64)) "")
   else if n <? 65536 then
     String (byte (224 + n / 4096))
       (String (byte (128 + (n / 64) mod 64)) (String (byte (128 + n mod 64)) ""))
   else
     String (byte (240 + n / 262144))
       (String (byte (128 + (n / 4096) mod 64))
          (String (byte (128 + (n / 64) mod 64)) (String (byte (128 + n mod 64)) ""))))%N.

(** The characters of a string literal after its opening quote, up to the
    closing one. An escaped surrogate that is not half of a pair denotes a
    [str] with no UTF-8 encoding; the decoder reports it as [None] here. *)
Fixpoint scan_string (fuel : nat) (s : string) : option (string * string) :=
  match fuel, s with
  | S fuel, String c rest =>
      if char_is c 34 then Some ("", rest)
      else if char_is c 92 then
        match rest with
        | String e rest' =>
            let literal (ch : N) :=
              match scan_string fuel rest' with
              | Some (cs, r) => Some (String (ascii_of_N ch) cs, r)
              | None => None
              end in
            if char_is e 34 then literal 34%N
            else if char_is e 92 then literal 92%N
            else if char_is e 47 then literal 47%N
            else if char_is e 98 then literal 8%N
            else if char_is e 102 then literal 12%N
            else if char_is e 110 then literal 10%N
            else if char_is e 114 then literal 13%N
            else if char_is e 116 then literal 9%N
            else if char_is e 117 then
              match hex4 rest' with
              | Some (uni, r1) =>
                  let '(point, r2) :=
                    match r1 with
                    | String b (String u r1') =>
                        if (55296 <=? uni)%N && (uni <=? 56319)%N &&
                           char_is b 92 && char_is u 117
                        then match hex4 r1' with
                             | Some (uni2, r2) =>
                                 if (56320 <=? uni2)%N && (uni2 <=? 57343)%N
                                 then (65536 + (uni - 55296) * 1024 + (uni2 - 56320), r2)%N
                                 else (uni, r1)
                             | None => (uni, r1)
                             end
                        else (uni, r1)
                    | _ => (uni, r1)
                    end in
                  if (55296 <=? point)%N && (point <=? 57343)%N then None
                  else match scan_string fuel r2 with
                       | Some (cs, r) => Some (encode point +:+ cs, r)
                       | None => None
                       end
              | None => None
              end
            else None
        | EmptyString => None
        end
      else if (code c <? 32)%N then None
      else match scan_string fuel rest with
           | Some (cs, r) => Some (String c cs, r)
           | None => None
           end
  | _, _ => None
  end.

(** A value, the elements of an array after its bracket, and the members
    of an object after its brace. *)
Fixpoint scan_value (fuel : nat) (s : string) : option (pyvalue * string) :=
  match fuel, s with
  | S fuel, String c rest =>
      if char_is c 34 then
        match scan_string (String.length rest) rest with
        | Some (str, r) => Some (PyStr str, r)
        | None => None
        end
      else if char_is c 123 then
        match skip rest with
        | String d r =>
            if char_is d 125 then Some (PyDict [], r)
            else match scan_members fuel (String d r) with
                 | Some (pairs, r') => Some (PyDict pairs, r')
                 | None => None
                 end
        | EmptyString => None
        end
      else if char_is c 91 then
        match skip rest with
        | String d r =>
            if char_is d 93 then Some (PyList [], r)
            else match scan_elements fuel (String d r) with
                 | Some (items, r') => Some (PyList items, r')
                 | None => None
                 end
        | EmptyString => None
        end
      else if String.prefix "null" s then Some (PyNone, String.substring 4 (String.length s) s)
      else if String.prefix "true" s then Some (PyBool true, String.substring 4 (String.length s) s)
      else if String.prefix "false" s
      then Some (PyBool false, String.substring 5 (String.length s) s)
      else match scan_number s with
           | Some (lexeme, r) => Some (PyNum lexeme, r)
           | None =>
               if String.prefix "NaN" s
               then Some (PyNum "NaN", String.substring 3 (String.length s) s)
               else if String.prefix "Infinity" s
               then Some (PyNum "Infinity", String.substring 8 (String.length s) s)
               else if String.prefix "-Infinity" s
               then Some (PyNum "-Infinity", String.substring 9 (String.length s) s)
               else None
           end
  | _, _ => None
  end
with scan_elements (fuel : nat) (s : string) : option (list pyvalue * string) :=
  match fuel with
  | S fuel =>
      match scan_value fuel s with
      | Some (v, r) =>
          match skip r with
          | String d r' =>
              if char_is d 44 then
                match scan_elements fuel (skip r') with
                | Some (vs, r'') => Some (v :: vs, r'')
                | None => None
                end
              else if char_is d 93 then Some ([v], r')
              else None
          | EmptyString => None
          end
      | None => None
      end
  | O => None
  end
with scan_members (fuel : nat) (s : string) : option (list (string * pyvalue) * string) :=
  match fuel, s with
  | S fuel, String q rest =>
      if char_is q 34 then
        match scan_string (String.length rest) rest with
        | Some (key, r) =>
            match skip r with
            | String d r1 =>
                if char_is d 58 then
                  match scan_value fuel (skip r1) with
                  | Some (v, r2) =>
                      match skip r2 with
                      | String e r3 =>
                          if char_is e 44 then
                            match scan_members fuel (skip r3) with
                            | Some (pairs, r4) => Some ((key, v) :: pairs, r4)
                            | None => None
                            end
                          else if char_is e 125 then Some ([(key, v)], r3)
                          else None
                      | EmptyString => None
                      end
                  | None => None
                  end
                else None
            | EmptyString => None
            end
        | None => None
        end
      else None
  | _, _ => None
  end.

(** [json.loads]: one value between optional white space, and nothing else. *)
Definition loads (s : string) : loads_result :=
  match scan_value (2 * String.length s + 2) (skip s) with
  | Some (v, rest) =>
      match skip rest with
      | EmptyString => Loaded v
      | _ => JSONDecodeError
      end
  | None => JSONDecodeError
  end.

End AsciiRuntime.

#[export] Instance ascii_runtime : PyRuntime :=
  {| json_loads := AsciiRuntime.loads;
     str_lower := AsciiRuntime.lower;
     str_strip := AsciiRuntime.strip;
     str_split := AsciiRuntime.split_whitespace |}.

Definition to_bytes (s : string) : list byte := list_byte_of_string s.

(** * Specification

    The predicates the properties are stated with, and the runs they are
    evaluated on. *)

(** ** Text *)

(** [w] occurs in [s] as a contiguous run of characters. *)
Definition occurs_in (w s : string) : Prop :=
  exists before after, s = before +:+ w +:+ after.

(** Some word of [words] occurs in the lower-cased description. *)
Definition mentions `{PyRuntime} (words : list string) (description : string) : Prop :=
  exists word, In word words /\ occurs_in word (str_lower description).

(** ** The heuristic fallback *)

(** The priority the enrichment step assigns to a text description. *)
Definition assigned_priority `{PyRuntime} (gw : gateway) (description : string)
  : option TaskPriority :=
  match enhance_todo_description gw (PyStr description) with
  | inr (_, priority, _) => Some priority
  | inl _ => None
  end.

(** ** Counting tasks *)

(** Which statements run inside the block of [task_semaphore], inside the
    block of [ai_semaphore], and after the task's increment of [processed]
    or [failed]. *)
Definition holds_task_permit (p : pc) : bool :=
  match p with
  | AcquireTask | Finished | Cancelled => false
  | _ => true
  end.

Definition holds_ai_permit (p : pc) : bool :=
  match p with
  | Execute _ | IncrementProcessed _ | PublishSuccess _
  | IncrementFailed _ | PublishError _ | ReleaseAI => true
  | _ => false
  end.

Definition counted (p : pc) : bool :=
  match p with
  | PublishSuccess _ | PublishError _ | ReleaseAI | ReleaseTask | Finished => true
  | _ => false
  end.

Definition weight (f : pc -> bool) (t : task) : nat := if f (task_pc t) then 1 else 0.

(** The number of tasks whose next statement satisfies [f]. *)
Definition number (f : pc -> bool) (ts : list task) : nat := sum_list_with (weight f) ts.

(** ** Accounting: semaphores and counters against the tasks *)

Record accounting (s : server) : Prop := {
  acc_task :
    task_semaphore s + number holds_task_permit (tasks s) = MAX_CONCURRENT_TASKS;
  acc_ai :
    ai_semaphore s + number holds_ai_permit (tasks s) = MAX_CONCURRENT_AI;
  acc_received :
    tasks_received (metrics s) = List.length (tasks s);
  acc_outcomes :
    tasks_processed (metrics s) + tasks_failed (metrics s) = number counted (tasks s);
}.

(** ** Observations of the metrics *)

Definition snapshot_ok (m : snapshot) : Prop :=
  snap_processed m + snap_failed m <= snap_received m.

(** The snapshot a log entry carries, if it carries one. *)
Definition observed (e : entry) : option snapshot :=
  match e_effect e with
  | Publish _ body | Refused _ body =>
      match body with
      | StatusPayload _ m | ShutdownPayload _ m | MetricsPayload m => Some m
      | _ => None
      end
  | _ => None
  end.

Definition observations_ok (s : server) : Prop :=
  Forall (fun e => forall m, observed e = Some m -> snapshot_ok m) (log s).

(** ** Scenarios *)

Definition quote : string := String (ascii_of_nat 34) "".

(** The payload [{"description":"Fix urgent bug in login"}]. *)
Definition urgent_payload : string :=
  "{" +:+ quote +:+ "description" +:+ quote +:+ ":" +:+
  quote +:+ "Fix urgent bug in login" +:+ quote +:+ "}".

Definition from_alice : label := Message "mcp/alice" (to_bytes urgent_payload).

(** Six tasks arrive. Two take both permits and wait for the gateway, three
    take a task permit and wait for the enrichment gate, one waits for the
    task gate. *)
Definition busy_labels : list label :=
  [Connected 0; from_alice; from_alice; from_alice; from_alice; from_alice; from_alice;
   Run 0; Run 0; Run 0; Run 1; Run 1; Run 1; Run 2; Run 2; Run 3; Run 3; Run 4; Run 4].

(** The state a run ends in ([init] if the run is stuck). *)
Definition after (ls : list label) : server := default init (run ls init).

Definition busy : server := after busy_labels.

(** ** One increment for each task *)

Definition outcomes (s : server) : nat :=
  tasks_processed (metrics s) + tasks_failed (metrics s).

(** What a step does to the counters of outcomes. *)
Definition counts_once (l : label) (s s' : server) : Prop :=
  (forall k u u',
     tasks s !! k = Some u -> tasks s' !! k = Some u' ->
     counted (task_pc u) = true -> counted (task_pc u') = true) /\
  (outcomes s' = outcomes s \/
   exists i t t',
     l = Run i /\ tasks s !! i = Some t /\ tasks s' !! i = Some t' /\
     counted (task_pc t) = false /\ counted (task_pc t') = true /\
     outcomes s' = outcomes s + 1).

(** ** What a step can change *)

(** Who makes the calls a step appends to the log. *)
Definition actor (l : label) : origin :=
  match l with
  | Message _ _ => ByHandler
  | Run i | RunExecute i _ _ => ByTask i
  | RunShutdown j => ByShutdown j
  | RunReporter => ByReporter
  | _ => ByCallback
  end.

(** The calls only [shutdown] makes. *)
Definition shutdown_effect (e : effect) : bool :=
  match e with
  | Disconnect | SetShutdownEvent => true
  | Publish _ (ShutdownPayload _ _) | Refused _ (ShutdownPayload _ _) => true
  | _ => false
  end.

Definition runs_shutdown (l : label) : bool :=
  match l with RunShutdown _ => true | _ => false end.

Definition appended_by (l : label) (s : server) (e : entry) : Prop :=
  e_origin e = actor l /\ e_time e = clock s /\
  (runs_shutdown l = false -> shutdown_effect (e_effect e) = false).

(** ** Shutdown: how often *)

Definition is_disconnect (e : effect) : bool :=
  match e with Disconnect => true | _ => false end.

(** A call of [publish] with the shutdown payload, connected or not. *)
Definition is_final_publish (e : effect) : bool :=
  match e with
  | Publish _ (ShutdownPayload _ _) | Refused _ (ShutdownPayload _ _) => true
  | _ => false
  end.

Definition count_log (f : effect -> bool) (l : list entry) : nat :=
  sum_list_with (fun e => if f (e_effect e) then 1 else 0) l.

(** The coroutine has executed its [publish], its [disconnect]. *)
Fixpoint passed_publish (p : shutdown_pc) : bool :=
  match p with
  | ShutdownPublish => false
  | ShutdownCancelled was => passed_publish was
  | _ => true
  end.

Fixpoint passed_disconnect (p : shutdown_pc) : bool :=
  match p with
  | ShutdownPublish | ShutdownDisconnect => false
  | ShutdownCancelled was => passed_disconnect was
  | _ => true
  end.

Definition count_pcs (f : shutdown_pc -> bool) (cs : list shutdown_pc) : nat :=
  sum_list_with (fun p => if f p then 1 else 0) cs.

Definition shutdown_counts (s : server) : Prop :=
  count_log is_final_publish (log s) = count_pcs passed_publish (shutdowns s) /\
  count_log is_disconnect (log s) = count_pcs passed_disconnect (shutdowns s).

(** A signal triggers the shutdown; while it sleeps, a second signal
    triggers it again; both coroutines run to their end. *)
Definition twice_labels : list label :=
  [Connected 0; Signal;
   RunShutdown 0; RunShutdown 0; RunShutdown 0;
   Signal;
   RunShutdown 1; RunShutdown 1; RunShutdown 1;
   Tick; RunShutdown 0; RunShutdown 0; RunShutdown 1; RunShutdown 1].

Definition twice : server := after twice_labels.

(** A shutdown payload that reached the client. *)
Definition is_final_sent (e : effect) : bool :=
  match e with Publish _ (ShutdownPayload _ _) => true | _ => false end.

(** ** Shutdown: in which order *)

#[export] Instance origin_eq_dec : EqDecision origin.
Proof. solve_decision. Defined.

(** The calls of shutdown coroutine [j], each with the time it was made. *)
Definition trace_of (j : nat) (l : list entry) : list (nat * effect) :=
  (fun e => (e_time e, e_effect e)) <$> filter (fun e => e_origin e = ByShutdown j) l.

(** The final-metrics publish made at time [t]: the shutdown payload with
    the snapshot taken at [t], sent or refused. *)
Definition final_publish (t : nat) (e : effect) : Prop :=
  exists m, snap_timestamp m = t /\
    (e = Publish "response/mcp_server/status" (ShutdownPayload t m) \/
     e = Refused "response/mcp_server/status" (ShutdownPayload t m)).

(** What a coroutine at a given statement has done so far, at time [now]. *)
Inductive shutdown_trace (now : nat) : shutdown_pc -> list (nat * effect) -> Prop :=
| trace_publish :
    shutdown_trace now ShutdownPublish []
| trace_disconnect t0 e0 :
    final_publish t0 e0 -> t0 <= now ->
    shutdown_trace now ShutdownDisconnect [(t0, e0)]
| trace_sleep t0 e0 t1 :
    final_publish t0 e0 -> t0 <= t1 -> t1 <= now ->
    shutdown_trace now ShutdownSleep [(t0, e0); (t1, Disconnect)]
| trace_sleeping t0 e0 t1 until :
    final_publish t0 e0 -> t0 <= t1 -> t1 <= now -> t1 + 1 <= until ->
    shutdown_trace now (ShutdownSleeping until) [(t0, e0); (t1, Disconnect)]
| trace_set_event t0 e0 t1 :
    final_publish t0 e0 -> t0 <= t1 -> t1 + 1 <= now ->
    shutdown_trace now ShutdownSetEvent [(t0, e0); (t1, Disconnect)]
| trace_done t0 e0 t1 t2 :
    final_publish t0 e0 -> t0 <= t1 -> t1 + 1 <= t2 -> t2 <= now ->
    shutdown_trace now ShutdownDone
      [(t0, e0); (t1, Disconnect); (t2, SetShutdownEvent)]
| trace_cancelled was tr :
    shutdown_trace now was tr -> shutdown_trace now (ShutdownCancelled was) tr.

Record shutdown_order (s : server) : Prop := {
  order_traces :
    forall j p, shutdowns s !! j = Some p ->
                shutdown_trace (clock s) p (trace_of j (log s));
  order_fresh :
    forall j, List.length (shutdowns s) <= j -> trace_of j (log s) = [];
  order_event :
    shutdown_event s = true -> exists j, shutdowns s !! j = Some ShutdownDone;
}.

(** A readable summary of a log entry. *)
Definition summary (e : entry) : nat * string :=
  (e_time e,
   match e_effect e with
   | Subscribe topic => "subscribe " +:+ topic
   | Publish topic _ => "publish " +:+ topic
   | Refused topic _ => "refused " +:+ topic
   | Disconnect => "disconnect"
   | InsertOne _ _ => "insert_one"
   | SetShutdownEvent => "shutdown_event.set"
   end).

(** A task is waiting for the gateway when a signal arrives; the shutdown
    coroutine publishes and disconnects. *)
Definition in_flight_labels : list label :=
  [Connected 0; from_alice; Run 0; Run 0; Run 0;
   Signal; RunShutdown 0; RunShutdown 0].

(** The coroutine sleeps for its second and sets the event; the task's
    gateway call fails, it falls back to the heuristics and finishes. *)
Definition drained_labels : list label :=
  in_flight_labels ++
  [RunShutdown 0; Tick; RunShutdown 0; RunShutdown 0;
   RunExecute 0 (Fails "timeout") (Inserted (Oid 1)); Run 0; Run 0; Run 0; Run 0].

Definition in_flight : server := after in_flight_labels.
Definition drained : server := after drained_labels.

(** ** Acquisition and cancellation *)

(** Three tasks arrive; two wait for the gateway with both permits, the
    third waits for the enrichment gate. A signal starts the shutdown,
    which publishes, disconnects and goes to sleep. *)
Definition blocked_labels : list label :=
  [Connected 0; from_alice; from_alice; from_alice;
   Run 0; Run 0; Run 0; Run 1; Run 1; Run 1; Run 2; Run 2;
   Signal; RunShutdown 0; RunShutdown 0; RunShutdown 0].

(** During the sleep the gateway answers the first task, which finishes its
    block; the third task then takes the free slot and is processed. *)
Definition admitted_labels : list label :=
  blocked_labels ++
  [RunExecute 0 (Replies "Fix the login bug now" "high" "wyrmwatch") (Inserted (Oid 1));
   Run 0; Run 0; Run 0;
   Run 2; RunExecute 2 Absent (Inserted (Oid 2)); Run 2].

Definition blocked : server := after blocked_labels.
Definition admitted : server := after admitted_labels.

(** ** Nesting of the permits *)

(** One task arrives and reaches the call of [execute]; then the gateway is
    absent and the insert succeeds. *)
Definition executing_labels : list label :=
  [Connected 0; from_alice; Run 0; Run 0; Run 0].

Definition persisted_labels : list label :=
  executing_labels ++ [RunExecute 0 Absent (Inserted (Oid 1))].

Definition executing : server := after executing_labels.
Definition persisted : server := after persisted_labels.

(** ** Decoding the payload *)

(** The description a parse produced, if it produced one. *)
Definition parsed_description (r : string + params) : option pyvalue :=
  match r with
  | inr p => params_description p
  | inl _ => None
  end.

(** The payload [{"description":null}]. *)
Definition null_payload : string :=
  "{" +:+ quote +:+ "description" +:+ quote +:+ ":null}".

(** ** The fallback's project *)

(** The project the keyword heuristics detect in a text. *)
Definition detected_project `{PyRuntime} (description project : string) : Prop :=
  (occurs_in "slack" (str_lower description) -> project = "slack-integration") /\
  (~ occurs_in "slack" (str_lower description) ->
   occurs_in "github" (str_lower description) -> project = "github-tools") /\
  (~ occurs_in "slack" (str_lower description) ->
   ~ occurs_in "github" (str_lower description) -> project = "wyrmwatch").

(** The records handed to [insert_one]. *)
Definition inserted (s : server) : list todo :=
  omap (fun e => match e_effect e with InsertOne doc _ => Some doc | _ => None end) (log s).

(** A plain-text task; the gateway is absent, or it fails. *)
Definition text_task (text : string) (gw : gateway) : server :=
  after [Connected 0; Message "mcp/alice" (to_bytes text); Run 0; Run 0; Run 0;
         RunExecute 0 gw (Inserted (Oid 1)); Run 0; Run 0; Run 0; Run 0].

(** ** Runs *)

(** A task has ended: it finished or was cancelled. *)
Definition ended (p : pc) : bool :=
  match p with
  | Finished | Cancelled => true
  | _ => false
  end.

(** The task [t] at statement [p]. *)
Definition moved (t : task) (p : pc) : task :=
  {| task_payload := task_payload t;
     task_target_agent := task_target_agent t;
     task_pc := p |}.

(** What a step can do to the list of tasks: nothing, append a new task in
    front of the task gate, or move one task that has not ended. *)
Definition tasks_change (s s' : server) : Prop :=
  tasks s' = tasks s \/
  (exists payload target_agent,
     tasks s' = tasks s ++ [{| task_payload := payload;
                               task_target_agent := target_agent;
                               task_pc := AcquireTask |}]) \/
  (exists i t p,
     tasks s !! i = Some t /\ ended (task_pc t) = false /\
     tasks s' = <[i := moved t p]> (tasks s)).

(** No counter of the metrics decreases and the start time stays. *)
Definition metrics_grow (s s' : server) : Prop :=
  tasks_received (metrics s) <= tasks_received (metrics s') /\
  tasks_processed (metrics s) <= tasks_processed (metrics s') /\
  tasks_failed (metrics s) <= tasks_failed (metrics s') /\
  start_time (metrics s') = start_time (metrics s).

(** Every task is still there, with its payload and its target agent, and
    a task that had ended is unchanged. *)
Definition tasks_persist (s s' : server) : Prop :=
  forall i t, tasks s !! i = Some t ->
    exists t', tasks s' !! i = Some t' /\
               task_payload t' = task_payload t /\
               task_target_agent t' = task_target_agent t /\
               (ended (task_pc t) = true -> t' = t).

(** The shutdown event and the return of [start] are not undone. *)
Definition shutdown_latched (s s' : server) : Prop :=
  (shutdown_event s = true -> shutdown_event s' = true) /\
  (main_returned s = true -> main_returned s' = true).

(** The same, and the seconds the loop has counted do not decrease. *)
Definition shutdown_advances (s s' : server) : Prop :=
  (shutdown_event s = true -> shutdown_event s' = true) /\
  (main_returned s = true -> main_returned s' = true) /\
  clock s <= clock s'.

Definition is_cancelled (p : pc) : bool :=
  match p with Cancelled => true | _ => false end.

Definition is_finished (p : pc) : bool :=
  match p with Finished => true | _ => false end.

(** Every task has ended. *)
Definition quiescent (s : server) : Prop :=
  Forall (fun t => ended (task_pc t) = true) (tasks s).

(** The statements of [persisted_labels] after [executing], and the rest of
    the task's work. *)
Definition finishing_labels : list label :=
  [RunExecute 0 Absent (Inserted (Oid 1)); Run 0; Run 0; Run 0; Run 0].

Definition finished : server := default executing (run finishing_labels executing).

(** ** Progress *)

(** The largest number of statements a task at [p] still has to execute. *)
Definition remaining (p : pc) : nat :=
  match p with
  | AcquireTask => 8
  | Parse => 7
  | AcquireAI _ => 6
  | Execute _ => 5
  | IncrementProcessed _ | IncrementFailed _ => 4
  | PublishSuccess _ | PublishError _ => 3
  | ReleaseAI | OuterIncrementFailed _ => 2
  | ReleaseTask => 1
  | Finished | Cancelled => 0
  end.

Definition work (s : server) : nat :=
  sum_list_with (fun t => remaining (task_pc t)) (tasks s).

(** The task waits for nothing: it is past its gates and has not ended. *)
Definition runnable (p : pc) : bool :=
  match p with
  | AcquireTask | AcquireAI _ | Finished | Cancelled => false
  | _ => true
  end.

Definition at_ai_gate (p : pc) : bool :=
  match p with AcquireAI _ => true | _ => false end.

Definition is_task_label (l : label) : bool :=
  match l with Run _ | RunExecute _ _ _ => true | _ => false end.

(** Task [i] can execute its next statement, whatever the gateway and the
    database answer where it is their turn, and is then closer to its end. *)
Definition can_run `{PyRuntime} (s : server) (i : nat) : Prop :=
  (exists s', step (Run i) s = Some s' /\ work s' < work s) \/
  (forall gw db, exists s', step (RunExecute i gw db) s = Some s' /\ work s' < work s).

(** ** What a statement hands to the collaborators *)

Definition is_sent (e : effect) : bool :=
  match e with Publish _ _ => true | _ => false end.

Definition is_subscription (e : effect) : bool :=
  match e with Subscribe _ => true | _ => false end.

Definition is_set_event (e : effect) : bool :=
  match e with SetShutdownEvent => true | _ => false end.

Definition by_reporter (e : entry) : bool :=
  match e_origin e with ByReporter => true | _ => false end.

(** A call of [publish] with the success payload, with the error payload. *)
Definition is_success_response (e : effect) : bool :=
  match e with
  | Publish _ (SuccessPayload _ _) | Refused _ (SuccessPayload _ _) => true
  | _ => false
  end.

Definition is_error_response (e : effect) : bool :=
  match e with
  | Publish _ (ErrorPayload _ _) | Refused _ (ErrorPayload _ _) => true
  | _ => false
  end.

(** The entry is one that label [l] appends when it takes [s] to [s']. *)
Definition emitted (l : label) (s s' : server) (e : entry) : Prop :=
  e_origin e = actor l /\ e_time e = clock s /\
  (is_sent (e_effect e) = true -> is_connected s = true) /\
  (is_subscription (e_effect e) = true -> l = Connected 0) /\
  (is_set_event (e_effect e) = true -> shutdown_event s' = true) /\
  (l = RunReporter -> shutdown_event s = false) /\
  (forall m, observed e = Some m -> m = as_json (clock s) (metrics s)) /\
  (is_task_label l = false ->
   is_success_response (e_effect e) = false /\ is_error_response (e_effect e) = false).



(** No report of the metrics comes after the shutdown event was set. *)
Definition reports_precede_event (lg : list entry) : Prop :=
  forall k e k' e',
    lg !! k = Some e -> is_set_event (e_effect e) = true ->
    lg !! k' = Some e' -> by_reporter e' = true ->
    k' < k.

Definition event_recorded (s : server) : Prop :=
  (forall k e, log s !! k = Some e -> is_set_event (e_effect e) = true ->
               shutdown_event s = true) /\
  reports_precede_event (log s).

(** Two reports of the metrics are at least the interval apart. *)
Definition reports_spaced (lg : list entry) : Prop :=
  forall k e k' e',
    lg !! k = Some e -> by_reporter e = true ->
    lg !! k' = Some e' -> by_reporter e' = true ->
    k < k' ->
    e_time e + METRICS_REPORTING_INTERVAL <= e_time e'.

(** All reports so far are at least the interval before [bound]. *)
Definition reports_before (bound : nat) (lg : list entry) : Prop :=
  forall k e, lg !! k = Some e -> by_reporter e = true ->
              e_time e + METRICS_REPORTING_INTERVAL <= bound.

Definition reporter_ok (s : server) : Prop :=
  reports_spaced (log s) /\
  match reporter s with
  | ReportLoop => shutdown_event s = true \/ reports_before (clock s) (log s)
  | ReportWaiting deadline => reports_before deadline (log s)
  | _ => True
  end.

(** ** Scenarios of the reporter *)

(** The reporter publishes, waits for its interval and publishes again. *)
Definition reporting_labels : list label :=
  [Connected 0; RunReporter] ++ replicate 30 Tick ++ [RunReporter; RunReporter].

Definition reporting : server := after reporting_labels.

(** The reporter makes its first report; a signal then runs the shutdown
    to its end. *)
Definition reported_labels : list label :=
  [RunReporter; Signal; RunShutdown 0; RunShutdown 0; RunShutdown 0;
   Tick; RunShutdown 0; RunShutdown 0].

Definition reported : server := after reported_labels.

(** ** What a task has handed to the collaborators *)

(** The calls of task [i], in the order it made them. *)
Definition calls_of (i : nat) (lg : list entry) : list effect :=
  e_effect <$> filter (fun e => e_origin e = ByTask i) lg.

(** A call of [publish] with the response for [outcome], on the topic of
    [agent]; the call reached the client or was refused. *)
Definition response_to (agent : string) (outcome : string + result) (e : effect) : Prop :=
  exists now,
    match outcome with
    | inr r =>
        e = Publish ("response/" +:+ agent +:+ "/todo") (SuccessPayload r now) \/
        e = Refused ("response/" +:+ agent +:+ "/todo") (SuccessPayload r now)
    | inl err =>
        e = Publish ("response/" +:+ agent +:+ "/error") (ErrorPayload err now) \/
        e = Refused ("response/" +:+ agent +:+ "/error") (ErrorPayload err now)
    end.

Section TaskCalls.
Context `{PyRuntime}.

(** The payload of [t] parsed to [p], and [execute] on [p] handed [doc] to
    [insert_one], which answered [db]; the call ended in [outcome]. *)
Definition wrote (t : task) (outcome : string + result) (doc : todo) (db : insert_reply)
  : Prop :=
  exists p now gw,
    parse_payload (task_payload t) (task_target_agent t) = inr p /\
    execute now gw db p = (Some doc, outcome).

Definition written (t : task) (outcome : string + result) (calls : list effect) : Prop :=
  exists doc db, wrote t outcome doc db /\ calls = [InsertOne doc db].

Definition answered (t : task) (calls : list effect) : Prop :=
  exists outcome doc db e,
    wrote t outcome doc db /\
    response_to (task_target_agent t) outcome e /\
    calls = [InsertOne doc db; e].

(** The parse of the payload raised: the task has called nothing. *)
Definition unparsed (t : task) (calls : list effect) : Prop :=
  calls = [] /\
  exists e, parse_payload (task_payload t) (task_target_agent t) = inl e.

(** What a task at a given statement has called so far. *)
Definition task_calls (t : task) (calls : list effect) : Prop :=
  match task_pc t with
  | AcquireTask | Parse | Cancelled => calls = []
  | AcquireAI p | Execute p =>
      calls = [] /\ parse_payload (task_payload t) (task_target_agent t) = inr p
  | OuterIncrementFailed e =>
      calls = [] /\ parse_payload (task_payload t) (task_target_agent t) = inl e
  | IncrementProcessed r | PublishSuccess r => written t (inr r) calls
  | IncrementFailed e | PublishError e => written t (inl e) calls
  | ReleaseAI => answered t calls
  | ReleaseTask | Finished => unparsed t calls \/ answered t calls
  end.

Definition task_log_ok (s : server) : Prop :=
  (forall i t, tasks s !! i = Some t -> task_calls t (calls_of i (log s))) /\
  (forall i, List.length (tasks s) <= i -> calls_of i (log s) = []).
End TaskCalls.

(** ** Responses against the counters *)

Definition at_publish_success (p : pc) : bool :=
  match p with PublishSuccess _ => true | _ => false end.

Definition at_publish_error (p : pc) : bool :=
  match p with PublishError _ => true | _ => false end.

(** Every increment of [processed] is followed by one success response, and
    every error response follows an increment of [failed]. *)
Definition responses_counted (s : server) : Prop :=
  count_log is_success_response (log s) + number at_publish_success (tasks s)
    = tasks_processed (metrics s) /\
  count_log is_error_response (log s) + number at_publish_error (tasks s)
    <= tasks_failed (metrics s).

(** ** The snapshots in the order they were published *)

(** The three counters of a snapshot. Its uptime and its timestamp are
    readings of the wall clock and are not compared. *)
Definition counters_le (m m' : snapshot) : Prop :=
  snap_received m <= snap_received m' /\
  snap_processed m <= snap_processed m' /\
  snap_failed m <= snap_failed m'.

(** The call was made by a coroutine, that is, in the thread of the event
    loop, where [as_json] and the [publish] after it run without a
    suspension in between. The status reply is made by the message callback
    and is not one of them. *)
Definition by_coroutine (e : entry) : bool :=
  match e_origin e with
  | ByTask _ | ByShutdown _ | ByReporter => true
  | ByCallback | ByHandler => false
  end.

Definition snapshots_grow (lg : list entry) : Prop :=
  forall k e m k' e' m',
    lg !! k = Some e -> by_coroutine e = true -> observed e = Some m ->
    lg !! k' = Some e' -> by_coroutine e' = true -> observed e' = Some m' ->
    k <= k' -> counters_le m m'.

Definition snapshots_ok (s : server) : Prop :=
  snapshots_grow (log s) /\
  forall k e m, log s !! k = Some e -> by_coroutine e = true -> observed e = Some m ->
                counters_le m (as_json (clock s) (metrics s)).

(** ** Runs before the shutdown event is set *)

Section Waiting.
Context `{PyRuntime}.

(** A run each step of which is taken while the shutdown event is not set:
    [start] is then in its wait and the event loop runs the coroutines. *)
Fixpoint run_waiting (ls : list label) (s : server) : option server :=
  match ls with
  | [] => Some s
  | l :: ls =>
      if shutdown_event s then None
      else match step l s with Some s' => run_waiting ls s' | None => None end
  end.
End Waiting.

(** ** The shutdown runs to its end *)

(** The coroutine has neither ended nor been cancelled. *)
Definition pending (p : shutdown_pc) : bool :=
  match p with ShutdownDone | ShutdownCancelled _ => false | _ => true end.

(** A statement of coroutine [j], or a second that passes. *)
Definition is_shutdown_label (j : nat) (l : label) : bool :=
  match l with
  | RunShutdown j' => (j' =? j)%nat
  | Tick => true
  | _ => false
  end.

(** The payload [{"command":"status"}]. *)
Definition status_command : string :=
  "{" +:+ quote +:+ "command" +:+ quote +:+ ":" +:+ quote +:+ "status" +:+ quote +:+ "}".

(** The shutdown signalled in [executing], while its task is in flight. *)
Definition signalled : server := default executing (run [Signal] executing).

(** ** The outcome of persistence *)

(** The call [mqtt_client.publish(topic, body)] made while the wrapper's
    flag is [connected]: it reaches the client, or it is refused. *)
Definition published (connected : bool) (topic : string) (body : payload) : effect :=
  if connected then Publish topic body else Refused topic body.

(** The dictionary [add_todo] returns after the insert. *)
Definition added (description : pyvalue) (now : nat) : result :=
  {| result_status := "success";
     result_message := FString "Added new todo: " description;
     result_timestamp := Some now |}.

(** From the return of [insert_one] to its end [process_task] has no
    [await]: the call of [execute] is followed at once by the increment, the
    response and the two releases. *)
Definition persistence_run (i : nat) (gw : gateway) (db : insert_reply) : list label :=
  [RunExecute i gw db; Run i; Run i; Run i; Run i].

(** The response a unit publishes for the answer [db] of [insert_one]. *)
Definition persistence_response (db : insert_reply) (connected : bool)
    (target_agent : string) (description : pyvalue) (now : nat) : effect :=
  match db with
  | Inserted _ =>
      published connected ("response/" +:+ target_agent +:+ "/todo")
        (SuccessPayload (added description now) now)
  | InsertRaises e =>
      published connected ("response/" +:+ target_agent +:+ "/error")
        (ErrorPayload e now)
  end.

Definition insert_succeeded (db : insert_reply) : nat :=
  match db with Inserted _ => 1 | InsertRaises _ => 0 end.

Definition insert_failed (db : insert_reply) : nat :=
  match db with Inserted _ => 0 | InsertRaises _ => 1 end.

(** * Properties *)

(** ** Reachability *)

Lemma run_reachable `{PyRuntime} ls : forall s s', reachable s -> run ls s = Some s' -> reachable s'.
Proof.
  induction ls as [|l ls IH]; simpl; intros s s' Hs Hrun.
  - by inversion Hrun; subst.
  - destruct (step l s) as [s1|] eqn:Hstep; [|done].
    eapply IH; [|exact Hrun]. by eapply reachable_step.
Qed.

(** ** Text *)

Lemma append_cons (c : ascii) (s t : string) : String c s +:+ t = String c (s +:+ t).
Proof. reflexivity. Qed.

Lemma prefix_iff_append (p s : string) :
  String.prefix p s = true <-> exists after, s = p +:+ after.
Proof.
  revert s. induction p as [|a p IH]; intros s.
  - split; [intros _; by exists s | intros _; by destruct s].
  - destruct s as [|b s]; simpl.
    + split; [done | intros [after Heq]; discriminate].
    + destruct (ascii_dec a b) as [->|Hne].
      * rewrite IH. split; intros [after Heq]; exists after.
        -- by rewrite append_cons, Heq.
        -- rewrite append_cons in Heq. by injection Heq.
      * split; [done | intros [after Heq]].
        rewrite append_cons in Heq. congruence.
Qed.

Lemma contains_iff_occurs (w s : string) :
  contains w s = true <-> occurs_in w s.
Proof.
  induction s as [|c s IH].
  - change (contains w "") with (String.prefix w "" || false).
    rewrite orb_false_r, prefix_iff_append. split.
    + intros [after Heq]. by exists "", after.
    + intros [[|b before] [after Heq]]; [by exists after | discriminate].
  - change (contains w (String c s)) with (String.prefix w (String c s) || contains w s).
    rewrite orb_true_iff, prefix_iff_append, IH. split.
    + intros [[after Heq] | (before & after & Heq)].
      * by exists "", after.
      * exists (String c before), after. by rewrite append_cons, Heq.
    + intros ([|b before] & after & Heq).
      * left. by exists after.
      * right. exists before, after. rewrite append_cons in Heq. congruence.
Qed.

Lemma any_word_iff_mentions `{PyRuntime} words description :
  existsb (fun word => contains word (str_lower description)) words = true
  <-> mentions words description.
Proof.
  rewrite existsb_exists. unfold mentions.
  split; intros (w & Hin & Hw); exists w; split; auto; by apply contains_iff_occurs.
Qed.

(** ** The heuristic fallback *)

Lemma assigned_priority_absent `{PyRuntime} (description : string) :
  assigned_priority Absent description =
  Some (if existsb (fun word => contains word (str_lower description)) high_words then HIGH
        else if existsb (fun word => contains word (str_lower description)) low_words then LOW
        else MEDIUM).
Proof. reflexivity. Qed.

(** C9. With the gateway absent or failing, a description is classified
    [HIGH] exactly when its lower-cased form contains one of "urgent",
    "critical", "immediately", "asap"; otherwise [LOW] exactly when it
    contains one of "minor", "cosmetic", "eventually", "when possible";
    otherwise [MEDIUM]. The three sample descriptions get high, low and
    medium. *)
Theorem heuristic_priority :
  (forall (R : PyRuntime) (description : string),
      (forall e, assigned_priority (Fails e) description
                 = assigned_priority Absent description) /\
      exists priority,
        assigned_priority Absent description = Some priority /\
        (priority = HIGH <-> mentions high_words description) /\
        (priority = LOW <->
           ~ mentions high_words description /\ mentions low_words description) /\
        (priority = MEDIUM <->
           ~ mentions high_words description /\ ~ mentions low_words description)) /\
  high_words = ["urgent"; "critical"; "immediately"; "asap"] /\
  low_words = ["minor"; "cosmetic"; "eventually"; "when possible"] /\
  @assigned_priority ascii_runtime Absent "Fix urgent bug in login" = Some HIGH /\
  @assigned_priority ascii_runtime Absent "minor cosmetic cleanup" = Some LOW /\
  @assigned_priority ascii_runtime Absent "update docs" = Some MEDIUM.
Proof.
  split; [|by vm_compute].
  intros R description. split; [done|].
  rewrite assigned_priority_absent.
  pose proof (any_word_iff_mentions high_words description) as Hh.
  pose proof (any_word_iff_mentions low_words description) as Hl.
  destruct (existsb _ high_words) eqn:Hhigh;
    [|destruct (existsb _ low_words) eqn:Hlow];
    eexists; (split; [reflexivity|]); intuition (auto; congruence).
Qed.

(** ** Counting tasks *)

Lemma number_app f ts t : number f (ts ++ [t]) = number f ts + weight f t.
Proof. unfold number. rewrite sum_list_with_app. simpl. lia. Qed.

Lemma number_insert f (ts : list task) i t t' :
  ts !! i = Some t ->
  number f (<[i := t']> ts) + weight f t = number f ts + weight f t'.
Proof.
  unfold number. revert i. induction ts as [|u ts IH]; intros [|i] Hi; simpl in *; try done.
  - inversion Hi; subst. lia.
  - specialize (IH i Hi). lia.
Qed.

Lemma number_le_length f ts : (number f ts <= List.length ts)%nat.
Proof.
  unfold number. induction ts as [|u ts IH]; simpl; [lia|].
  unfold weight at 1. destruct (f (task_pc u)); lia.
Qed.

Lemma set_pc_tasks i p s t :
  tasks s !! i = Some t ->
  tasks (set_pc i p s) =
  <[i := {| task_payload := task_payload t;
            task_target_agent := task_target_agent t;
            task_pc := p |}]> (tasks s).
Proof. intros Hi. unfold set_pc. by rewrite Hi. Qed.

Lemma number_set_pc f i p s t :
  tasks s !! i = Some t ->
  number f (tasks (set_pc i p s)) + (if f (task_pc t) then 1 else 0)
  = number f (tasks s) + (if f p then 1 else 0).
Proof.
  intros Hi. rewrite (set_pc_tasks _ _ _ _ Hi).
  by rewrite (number_insert f _ _ _ _ Hi).
Qed.

Lemma length_set_pc i p s : List.length (tasks (set_pc i p s)) = List.length (tasks s).
Proof.
  unfold set_pc. destruct (tasks s !! i); [|done]. simpl. by rewrite length_insert.
Qed.

(** [set_pc] touches nothing but the list of tasks. *)
Lemma set_pc_frame i p s :
  metrics (set_pc i p s) = metrics s /\
  task_semaphore (set_pc i p s) = task_semaphore s /\
  ai_semaphore (set_pc i p s) = ai_semaphore s /\
  shutdown_event (set_pc i p s) = shutdown_event s /\
  is_connected (set_pc i p s) = is_connected s /\
  clock (set_pc i p s) = clock s /\
  shutdowns (set_pc i p s) = shutdowns s /\
  reporter (set_pc i p s) = reporter s /\
  main_returned (set_pc i p s) = main_returned s /\
  log (set_pc i p s) = log s.
Proof. unfold set_pc. destruct (tasks s !! i); repeat split. Qed.

(** [publish] touches nothing but the log. *)
Lemma publish_frame o topic body s :
  metrics (publish o topic body s) = metrics s /\
  task_semaphore (publish o topic body s) = task_semaphore s /\
  ai_semaphore (publish o topic body s) = ai_semaphore s /\
  shutdown_event (publish o topic body s) = shutdown_event s /\
  is_connected (publish o topic body s) = is_connected s /\
  clock (publish o topic body s) = clock s /\
  tasks (publish o topic body s) = tasks s /\
  shutdowns (publish o topic body s) = shutdowns s /\
  reporter (publish o topic body s) = reporter s /\
  main_returned (publish o topic body s) = main_returned s.
Proof. unfold publish. destruct (is_connected s) eqn:E; repeat split; done. Qed.

(** ** Accounting: semaphores and counters against the tasks *)

Lemma accounting_init : accounting init.
Proof. by split. Qed.

(** A statement of task [i] that moves it from [task_pc t] to [p] and maps
    the rest of the state from [s] to [s0]. *)
Lemma accounting_set_pc i p s s0 t :
  tasks s !! i = Some t ->
  tasks s0 = tasks s ->
  accounting s ->
  task_semaphore s0 + (if holds_task_permit p then 1 else 0)
    = task_semaphore s + weight holds_task_permit t ->
  ai_semaphore s0 + (if holds_ai_permit p then 1 else 0)
    = ai_semaphore s + weight holds_ai_permit t ->
  tasks_received (metrics s0) = tasks_received (metrics s) ->
  tasks_processed (metrics s0) + tasks_failed (metrics s0) + weight counted t
    = tasks_processed (metrics s) + tasks_failed (metrics s)
      + (if counted p then 1 else 0) ->
  accounting (set_pc i p s0).
Proof.
  intros Hi Hts [Ht Ha Hr Ho] Htask Hai Hrecv Hout.
  assert (Hi0 : tasks s0 !! i = Some t) by by rewrite Hts.
  pose proof (number_set_pc holds_task_permit i p s0 t Hi0) as Nt.
  pose proof (number_set_pc holds_ai_permit i p s0 t Hi0) as Na.
  pose proof (number_set_pc counted i p s0 t Hi0) as Nc.
  destruct (set_pc_frame i p s0) as (Em & Et & Ea & _).
  rewrite Hts in Nt, Na, Nc. unfold weight in *.
  split; rewrite ?Em, ?Et, ?Ea, ?length_set_pc, ?Hts; try lia.
Qed.

(** A command that is neither "shutdown" nor "status" is ignored. *)
Lemma control_other_command s command :
  command <> "shutdown" -> command <> "status" ->
  match command with
  | "shutdown" => Returned (spawn_shutdown s)
  | "status" =>
      Returned (publish ByHandler "response/mcp_server/status"
                  (StatusPayload (clock s) (as_json (clock s) (metrics s))) s)
  | _ => FellThrough
  end = FellThrough.
Proof.
  intros E1 E2.
  repeat (match goal with
          | |- context [match ?x with _ => _ end] => destruct x; try done
          end).
Qed.

Section Invariants.
Context `{PyRuntime}.

Lemma process_task_accounting i reply s s' :
  accounting s -> process_task i reply s = Some s' -> accounting s'.
Proof.
  intros Hacc. unfold process_task.
  destruct (tasks s !! i) as [t|] eqn:Hi; [|done].
  destruct (task_pc t) eqn:Hpc, reply as [[gw db]|]; try done.
  - destruct (0 <? task_semaphore s)%nat eqn:Hfree; [|done].
    apply Nat.ltb_lt in Hfree. intros [= <-].
    eapply accounting_set_pc; eauto; unfold weight; rewrite ?Hpc; simpl; lia.
  - destruct (parse_payload _ _); intros [= <-];
      eapply accounting_set_pc; eauto; unfold weight; rewrite ?Hpc; simpl; lia.
  - destruct (0 <? ai_semaphore s)%nat eqn:Hfree; [|done].
    apply Nat.ltb_lt in Hfree. intros [= <-].
    eapply accounting_set_pc; eauto; unfold weight; rewrite ?Hpc; simpl; lia.
  - destruct (execute _ _ _ _) as [[doc|] [e|r]]; intros [= <-];
      eapply accounting_set_pc; eauto; unfold weight; rewrite ?Hpc; simpl; lia.
  - intros [= <-].
    eapply accounting_set_pc; eauto; unfold weight; rewrite ?Hpc; simpl; lia.
  - intros [= <-]. destruct (publish_frame (ByTask i)
      ("response/" +:+ task_target_agent t +:+ "/todo") (SuccessPayload r (clock s)) s)
      as (Em & Et & Ea & _ & _ & _ & Ets & _).
    eapply accounting_set_pc; eauto; unfold weight; rewrite ?Hpc, ?Em, ?Et, ?Ea; simpl; lia.
  - intros [= <-].
    eapply accounting_set_pc; eauto; unfold weight; rewrite ?Hpc; simpl; lia.
  - intros [= <-]. destruct (publish_frame (ByTask i)
      ("response/" +:+ task_target_agent t +:+ "/error") (ErrorPayload e (clock s)) s)
      as (Em & Et & Ea & _ & _ & _ & Ets & _).
    eapply accounting_set_pc; eauto; unfold weight; rewrite ?Hpc, ?Em, ?Et, ?Ea; simpl; lia.
  - intros [= <-].
    eapply accounting_set_pc; eauto; unfold weight; rewrite ?Hpc; simpl; lia.
  - intros [= <-].
    eapply accounting_set_pc; eauto; unfold weight; rewrite ?Hpc; simpl; lia.
  - intros [= <-].
    eapply accounting_set_pc; eauto; unfold weight; rewrite ?Hpc; simpl; lia.
Qed.

Lemma handle_message_accounting s topic payload_bytes s' :
  accounting s -> handle_message s topic payload_bytes = inr s' -> accounting s'.
Proof.
  intros Hacc. unfold handle_message.
  destruct (decode_utf8 payload_bytes) as [payload|]; [|done].
  assert (Htask : accounting (handle_task s topic payload)).
  { unfold handle_task. destruct (startswith topic "mcp/"); [|done].
    destruct Hacc as [Ht Ha Hr Ho]. unfold spawn_task.
    split; simpl; rewrite ?number_app, ?length_app; unfold weight; simpl; lia. }
  destruct (String.eqb topic "mcp_server/control"); [|by intros [= <-]].
  unfold handle_control.
  destruct (json_loads payload) as [[| | | | |control_json]| |]; try done;
    try by intros [= <-].
  destruct (dict_get "command" control_json) as [[| | |command| |]|];
    try by intros [= <-].
  destruct (String.eqb command "shutdown") eqn:E1.
  { apply String.eqb_eq in E1 as ->. intros [= <-]. by destruct Hacc. }
  destruct (String.eqb command "status") eqn:E2.
  { apply String.eqb_eq in E2 as ->. intros [= <-].
    destruct (publish_frame ByHandler "response/mcp_server/status"
      (StatusPayload (clock s) (as_json (clock s) (metrics s))) s)
      as (Em & Et & Ea & _ & _ & _ & Ets & _).
    destruct Hacc. split; by rewrite ?Em, ?Et, ?Ea, ?Ets. }
  rewrite (control_other_command s command) by by apply String.eqb_neq.
  by intros [= <-].
Qed.

Lemma step_accounting l s s' : accounting s -> step l s = Some s' -> accounting s'.
Proof.
  intros Hacc. destruct l; simpl.
  - destruct (main_returned s); [done|].
    destruct (handle_message s topic payload_bytes) as [e|s1] eqn:Hm; intros [= <-]; [done|].
    by eapply handle_message_accounting.
  - intros [= <-]. unfold on_connect. destruct (rc =? 0)%Z; by destruct Hacc.
  - intros [= <-]. by destruct Hacc.
  - destruct (main_returned s); [done|]. intros [= <-]. by destruct Hacc.
  - intros [= <-]. by destruct Hacc.
  - by apply process_task_accounting.
  - by apply process_task_accounting.
  - unfold shutdown. destruct (shutdowns s !! j) as [[| | |until| | |was]|]; try done;
      try (intros [= <-]; by destruct Hacc).
    + intros [= <-]. destruct (publish_frame (ByShutdown j) "response/mcp_server/status"
        (ShutdownPayload (clock s) (as_json (clock s) (metrics s))) s)
        as (Em & Et & Ea & _ & _ & _ & Ets & _).
      destruct Hacc. split; simpl; by rewrite ?Em, ?Et, ?Ea, ?Ets.
    + destruct (until <=? clock s)%nat; [|done]. intros [= <-]. by destruct Hacc.
  - unfold report_metrics. destruct (reporter s) as [|deadline| |]; try done.
    + destruct (shutdown_event s); intros [= <-]; [by destruct Hacc|].
      destruct (publish_frame ByReporter "metrics/response/mcp_todo_server"
        (MetricsPayload (as_json (clock s) (metrics s))) s)
        as (Em & Et & Ea & _ & _ & _ & Ets & _).
      destruct Hacc. split; simpl; by rewrite ?Em, ?Et, ?Ea, ?Ets.
    + destruct (shutdown_event s || (deadline <=? clock s)%nat); [|done].
      intros [= <-]. by destruct Hacc.
  - destruct (shutdown_event s && negb (main_returned s)); [|done].
    intros [= <-]. by destruct Hacc.
  - unfold cancel_task. destruct (main_returned s); [|done].
    destruct (tasks s !! i) as [t|] eqn:Hi; [|done]. simpl.
    destruct (task_pc t) eqn:Hpc; try done; intros [= <-];
      eapply accounting_set_pc; eauto; unfold weight; rewrite ?Hpc; simpl; lia.
  - unfold cancel_shutdown. destruct (main_returned s); [|done].
    destruct (shutdowns s !! j) as [[| | |until| | |was]|]; try done;
      intros [= <-]; by destruct Hacc.
  - unfold cancel_reporter. destruct (main_returned s); [|done].
    destruct (reporter s); try done. intros [= <-]. by destruct Hacc.
Qed.

Lemma reachable_accounting s : reachable s -> accounting s.
Proof.
  induction 1 as [|l s s' _ IH Hstep]; [apply accounting_init|].
  by eapply step_accounting.
Qed.
End Invariants.

(** ** What a step appends to the log *)

Lemma publish_log o topic body s :
  log (publish o topic body s) =
  log s ++ [{| e_time := clock s; e_origin := o;
               e_effect := if is_connected s then Publish topic body
                           else Refused topic body |}].
Proof. unfold publish. by destruct (is_connected s). Qed.

Lemma log_set_pc i p s : log (set_pc i p s) = log s.
Proof. unfold set_pc. by destruct (tasks s !! i). Qed.

Lemma shutdowns_set_pc i p s : shutdowns (set_pc i p s) = shutdowns s.
Proof. unfold set_pc. by destruct (tasks s !! i). Qed.

Lemma clock_set_pc i p s : clock (set_pc i p s) = clock s.
Proof. unfold set_pc. by destruct (tasks s !! i). Qed.

Lemma shutdowns_publish o topic body s : shutdowns (publish o topic body s) = shutdowns s.
Proof. unfold publish. by destruct (is_connected s). Qed.

Lemma clock_publish o topic body s : clock (publish o topic body s) = clock s.
Proof. unfold publish. by destruct (is_connected s). Qed.

Lemma tasks_publish o topic body s : tasks (publish o topic body s) = tasks s.
Proof. unfold publish. by destruct (is_connected s). Qed.

Lemma metrics_publish o topic body s : metrics (publish o topic body s) = metrics s.
Proof. unfold publish. by destruct (is_connected s). Qed.

Lemma metrics_set_pc i p s : metrics (set_pc i p s) = metrics s.
Proof. unfold set_pc. by destruct (tasks s !! i). Qed.

Lemma shutdown_event_set_pc i p s : shutdown_event (set_pc i p s) = shutdown_event s.
Proof. unfold set_pc. by destruct (tasks s !! i). Qed.

Lemma shutdown_event_publish o topic body s :
  shutdown_event (publish o topic body s) = shutdown_event s.
Proof. unfold publish. by destruct (is_connected s). Qed.

Lemma main_returned_set_pc i p s : main_returned (set_pc i p s) = main_returned s.
Proof. unfold set_pc. by destruct (tasks s !! i). Qed.

Lemma main_returned_publish o topic body s :
  main_returned (publish o topic body s) = main_returned s.
Proof. unfold publish. by destruct (is_connected s). Qed.

Lemma task_semaphore_set_pc i p s : task_semaphore (set_pc i p s) = task_semaphore s.
Proof. unfold set_pc. by destruct (tasks s !! i). Qed.

Lemma ai_semaphore_set_pc i p s : ai_semaphore (set_pc i p s) = ai_semaphore s.
Proof. unfold set_pc. by destruct (tasks s !! i). Qed.

Lemma task_semaphore_publish o topic body s :
  task_semaphore (publish o topic body s) = task_semaphore s.
Proof. unfold publish. by destruct (is_connected s). Qed.

Lemma ai_semaphore_publish o topic body s :
  ai_semaphore (publish o topic body s) = ai_semaphore s.
Proof. unfold publish. by destruct (is_connected s). Qed.

Create Rewrite HintDb fields.
#[export] Hint Rewrite task_semaphore_set_pc ai_semaphore_set_pc
  task_semaphore_publish ai_semaphore_publish : fields.
#[export] Hint Rewrite publish_log log_set_pc shutdowns_set_pc clock_set_pc
  shutdowns_publish clock_publish tasks_publish metrics_publish metrics_set_pc
  shutdown_event_set_pc shutdown_event_publish main_returned_set_pc
  main_returned_publish : fields.

(** The ways [handle_message] can return. *)
Lemma handle_message_returns `{PyRuntime} s topic payload_bytes s' :
  handle_message s topic payload_bytes = inr s' ->
  s' = spawn_shutdown s \/
  s' = publish ByHandler "response/mcp_server/status"
         (StatusPayload (clock s) (as_json (clock s) (metrics s))) s \/
  exists payload, decode_utf8 payload_bytes = Some payload /\
                  s' = handle_task s topic payload.
Proof.
  unfold handle_message.
  destruct (decode_utf8 payload_bytes) as [payload|]; [|done].
  destruct (String.eqb topic "mcp_server/control");
    [|intros [= <-]; right; right; by exists payload].
  unfold handle_control.
  destruct (json_loads payload) as [[| | | | |control_json]| |]; try done;
    try (intros [= <-]; right; right; by exists payload).
  destruct (dict_get "command" control_json) as [[| | |command| |]|];
    try (intros [= <-]; right; right; by exists payload).
  destruct (String.eqb command "shutdown") eqn:E1.
  { apply String.eqb_eq in E1 as ->. intros [= <-]. by left. }
  destruct (String.eqb command "status") eqn:E2.
  { apply String.eqb_eq in E2 as ->. intros [= <-]. right. by left. }
  rewrite (control_other_command s command) by by apply String.eqb_neq.
  intros [= <-]. right. right. by exists payload.
Qed.

(** Take a step apart: one goal for each way it can go. *)
Ltac step_cases Hstep :=
  unfold step, process_task, shutdown, report_metrics,
    cancel_task, cancel_shutdown, cancel_reporter in Hstep;
  repeat case_match; simplify_eq.

(** ** Observations of the metrics *)

Lemma as_json_ok now s : accounting s -> snapshot_ok (as_json now (metrics s)).
Proof.
  intros [_ _ Hr Ho]. unfold snapshot_ok. simpl.
  pose proof (number_le_length counted (tasks s)). lia.
Qed.

Lemma observations_snoc s s' o topic body :
  observations_ok s ->
  log s' = log s ++ [{| e_time := clock s; e_origin := o;
                        e_effect := if is_connected s then Publish topic body
                                    else Refused topic body |}] ->
  (forall m, match body with
             | StatusPayload _ m' | ShutdownPayload _ m' | MetricsPayload m' => Some m'
             | _ => None
             end = Some m -> snapshot_ok m) ->
  observations_ok s'.
Proof.
  unfold observations_ok. intros Hs -> Hbody.
  apply Forall_app. split; [done|]. constructor; [|done].
  intros m. unfold observed. simpl. destruct (is_connected s); apply Hbody.
Qed.

Lemma observations_same s s' : observations_ok s -> log s' = log s -> observations_ok s'.
Proof. unfold observations_ok. by intros Hs ->. Qed.

Section Observations.
Context `{PyRuntime}.

Lemma step_observations l s s' :
  accounting s -> observations_ok s -> step l s = Some s' -> observations_ok s'.
Proof.
  intros Hacc Hobs Hstep.
  pose proof (as_json_ok (clock s) s Hacc) as Hnow.
  destruct l; simpl in Hstep.
  - destruct (main_returned s); [done|].
    destruct (handle_message s topic payload_bytes) as [e|s1] eqn:Hm;
      injection Hstep as <-; [done|].
    apply handle_message_returns in Hm as [-> | [-> | (payload & _ & ->)]].
    + by eapply observations_same.
    + eapply observations_snoc; [done|apply publish_log|]. by intros m [= <-].
    + eapply observations_same; [done|]. unfold handle_task.
      by destruct (startswith topic "mcp/").
  - injection Hstep as <-. unfold on_connect. destruct (rc =? 0)%Z; [|done].
    unfold observations_ok in *. simpl. rewrite <- !app_assoc.
    apply Forall_app. split; [done|]. by repeat constructor.
  - injection Hstep as <-. by eapply observations_same.
  - destruct (main_returned s); [done|]. injection Hstep as <-.
    by eapply observations_same.
  - injection Hstep as <-. by eapply observations_same.
  - step_cases Hstep;
      first [ by (eapply observations_same; [done|]; autorewrite with fields)
            | eapply observations_snoc;
              [done | autorewrite with fields; reflexivity | done] ].
  - step_cases Hstep;
      try by (eapply observations_same; [done|]; autorewrite with fields).
    all: unfold observations_ok in *; autorewrite with fields; simpl;
      apply Forall_app; split; [done|]; by repeat constructor.
  - step_cases Hstep;
      try by (eapply observations_same; [done|]; autorewrite with fields).
    + eapply observations_snoc; [done | simpl; by autorewrite with fields |].
      by intros m [= <-].
    + unfold observations_ok in *. simpl. apply Forall_app. split; [done|].
      by repeat constructor.
    + unfold observations_ok in *. simpl. apply Forall_app. split; [done|].
      by repeat constructor.
  - step_cases Hstep;
      try by (eapply observations_same; [done|]; autorewrite with fields).
    eapply observations_snoc; [done | simpl; by autorewrite with fields |].
    by intros m [= <-].
  - step_cases Hstep. by eapply observations_same.
  - step_cases Hstep; by (eapply observations_same; [done|]; autorewrite with fields).
  - step_cases Hstep; by eapply observations_same.
  - step_cases Hstep; by eapply observations_same.
Qed.

Lemma reachable_observations s : reachable s -> observations_ok s.
Proof.
  induction 1 as [|l s s' Hs IH Hstep]; [by constructor|].
  eapply step_observations; eauto. by apply reachable_accounting.
Qed.
End Observations.

(** ** Scenarios *)

(** Every run below is a run of the server: no label in it is stuck. *)
Example scenarios_run :
  Forall (fun ls => run ls init = Some (after ls))
    [busy_labels; twice_labels; in_flight_labels; drained_labels;
     blocked_labels; admitted_labels; executing_labels; persisted_labels].
Proof.
  repeat (apply Forall_cons_2; [by vm_compute|]); apply Forall_nil_2.
Qed.

Lemma busy_reachable : reachable busy.
Proof. apply (run_reachable busy_labels init); [constructor | by vm_compute]. Qed.

(** ** One increment for each task *)

Lemma counted_set_pc s s0 i t p :
  tasks s !! i = Some t ->
  tasks s0 = tasks s ->
  (counted (task_pc t) = true -> counted p = true) ->
  forall k u u',
    tasks s !! k = Some u -> tasks (set_pc i p s0) !! k = Some u' ->
    counted (task_pc u) = true -> counted (task_pc u') = true.
Proof.
  intros Hi Hts Hp k u u' Hk Hk' Hu.
  rewrite (set_pc_tasks _ _ _ t) in Hk' by by rewrite Hts.
  rewrite Hts in Hk'. destruct (decide (k = i)) as [->|Hne].
  - rewrite list_lookup_insert_eq in Hk' by by eapply lookup_lt_Some.
    simplify_eq. simpl. auto.
  - rewrite list_lookup_insert_ne in Hk' by done. by simplify_eq.
Qed.

Section Outcomes.
Context `{PyRuntime}.

Lemma step_counts_once l s s' : step l s = Some s' -> counts_once l s s'.
Proof.
  intros Hstep. unfold counts_once, outcomes.
  assert (Hsame : forall ts, tasks s' = tasks s ++ ts -> metrics s' = metrics s ->
    (forall k u u', tasks s !! k = Some u -> tasks s' !! k = Some u' ->
       counted (task_pc u) = true -> counted (task_pc u') = true) /\
    (tasks_processed (metrics s') + tasks_failed (metrics s')
     = tasks_processed (metrics s) + tasks_failed (metrics s) \/
     exists i t t',
       l = Run i /\ tasks s !! i = Some t /\ tasks s' !! i = Some t' /\
       counted (task_pc t) = false /\ counted (task_pc t') = true /\
       tasks_processed (metrics s') + tasks_failed (metrics s')
       = tasks_processed (metrics s) + tasks_failed (metrics s) + 1)).
  { intros ts Hts Hm. split; [|left; by rewrite Hm].
    intros k u u' Hk Hk' Hu. rewrite Hts in Hk'.
    rewrite (lookup_app_l_Some _ _ _ _ Hk) in Hk'. by simplify_eq. }
  destruct l; simpl in Hstep.
  - destruct (main_returned s); [done|].
    destruct (handle_message s topic payload_bytes) as [e|s1] eqn:Hm;
      injection Hstep as <-; [by apply (Hsame []); rewrite ?app_nil_r|].
    apply handle_message_returns in Hm as [-> | [-> | (payload & _ & ->)]].
    + by apply (Hsame []); rewrite ?app_nil_r.
    + apply (Hsame []); autorewrite with fields; by rewrite ?app_nil_r.
    + destruct (startswith topic "mcp/") eqn:Htopic.
      * clear Hsame. unfold handle_task. rewrite Htopic.
        split; [|by left]. intros k u u' Hk Hk' Hu. simpl in Hk'.
        rewrite (lookup_app_l_Some _ _ _ _ Hk) in Hk'. by simplify_eq.
      * apply (Hsame []); unfold handle_task; rewrite Htopic; by rewrite ?app_nil_r.
  - injection Hstep as <-.
    apply (Hsame []); unfold on_connect; destruct (rc =? 0)%Z; by rewrite ?app_nil_r.
  - injection Hstep as <-. by apply (Hsame []); rewrite ?app_nil_r.
  - destruct (main_returned s); [done|]. injection Hstep as <-.
    by apply (Hsame []); rewrite ?app_nil_r.
  - injection Hstep as <-. by apply (Hsame []); rewrite ?app_nil_r.
  - unfold process_task in Hstep. destruct (tasks s !! i) as [t|] eqn:Hi; [|done].
    destruct (task_pc t) eqn:Hpc; try done; repeat case_match; simplify_eq;
      (split;
       [ apply (counted_set_pc s _ i t _ Hi);
         [by autorewrite with fields | by rewrite Hpc]
       | first
           [ left; by autorewrite with fields
           | right; eexists i, t, _; split; [done|]; split; [done|];
             split; [rewrite (set_pc_tasks _ _ _ t) by done;
                     apply list_lookup_insert_eq; by eapply lookup_lt_Some|];
             rewrite Hpc; autorewrite with fields; simpl; repeat split; lia ] ]).
  - unfold process_task in Hstep. destruct (tasks s !! i) as [t|] eqn:Hi; [|done].
    destruct (task_pc t) eqn:Hpc; try done; repeat case_match; simplify_eq;
      (split;
       [ apply (counted_set_pc s _ i t _ Hi); [done | by rewrite Hpc]
       | left; by autorewrite with fields ]).
  - step_cases Hstep; apply (Hsame []); simpl; autorewrite with fields;
      by rewrite ?app_nil_r.
  - step_cases Hstep; apply (Hsame []); simpl; autorewrite with fields;
      by rewrite ?app_nil_r.
  - step_cases Hstep. by apply (Hsame []); rewrite ?app_nil_r.
  - unfold cancel_task in Hstep. destruct (main_returned s); [|done].
    destruct (tasks s !! i) as [t|] eqn:Hi; [|done]. simpl in Hstep.
    destruct (task_pc t) eqn:Hpc; try done; simplify_eq;
      (split;
       [ apply (counted_set_pc s _ i t _ Hi); [done | by rewrite Hpc]
       | left; by autorewrite with fields ]).
  - step_cases Hstep; apply (Hsame []); simpl; by rewrite ?app_nil_r.
  - step_cases Hstep; apply (Hsame []); simpl; by rewrite ?app_nil_r.
Qed.
End Outcomes.

(** ** The metrics invariant *)

Lemma task_topic_not_control topic :
  startswith topic "mcp/" = true -> String.eqb topic "mcp_server/control" = false.
Proof.
  intros Hp. destruct (String.eqb_spec topic "mcp_server/control") as [->|]; [|done].
  by vm_compute in Hp.
Qed.

(** C1, as the code has it. In every reachable state
    [processed + failed <= received], and so it is in every snapshot that
    was ever handed to [publish]. [received] counts the tasks created and
    [processed + failed] counts the tasks that have passed their one
    increment: a step raises [processed + failed] by at most one, only
    when a task executes its increment, and a task that has passed it
    never executes one again. A message on a task topic whose payload is
    valid UTF-8 increments [received] by one and creates its task in front
    of the task gate, holding no permit. *)
Theorem metrics_invariant `{PyRuntime} (s : server) :
  reachable s ->
  tasks_processed (metrics s) + tasks_failed (metrics s) <= tasks_received (metrics s) /\
  tasks_received (metrics s) = List.length (tasks s) /\
  tasks_processed (metrics s) + tasks_failed (metrics s) = number counted (tasks s) /\
  observations_ok s /\
  (forall l s', step l s = Some s' -> counts_once l s s') /\
  forall topic payload_bytes payload,
    startswith topic "mcp/" = true ->
    decode_utf8 payload_bytes = Some payload ->
    exists s' target_agent,
      handle_message s topic payload_bytes = inr s' /\
      tasks_received (metrics s') = tasks_received (metrics s) + 1 /\
      tasks_processed (metrics s') = tasks_processed (metrics s) /\
      tasks_failed (metrics s') = tasks_failed (metrics s) /\
      tasks s' = tasks s ++ [{| task_payload := payload;
                                task_target_agent := target_agent;
                                task_pc := AcquireTask |}] /\
      holds_task_permit AcquireTask = false /\
      task_semaphore s' = task_semaphore s /\
      ai_semaphore s' = ai_semaphore s.
Proof.
  intros Hs. pose proof (reachable_accounting s Hs) as [Ht Ha Hr Ho].
  pose proof (number_le_length counted (tasks s)) as Hle.
  split; [lia|]. split; [done|]. split; [done|].
  split; [by apply reachable_observations|].
  split; [intros l s'; apply step_counts_once|].
  intros topic payload_bytes payload Htopic Hdecode. unfold handle_message.
  rewrite Hdecode, (task_topic_not_control topic Htopic).
  unfold handle_task. rewrite Htopic. by eexists _, _.
Qed.

Lemma metrics_invariant_witness :
  reachable busy /\
  tasks_processed (metrics busy) + tasks_failed (metrics busy)
    <= tasks_received (metrics busy) /\
  tasks_received (metrics busy) = 6.
Proof.
  split; [exact busy_reachable|].
  destruct (metrics_invariant busy busy_reachable) as (Hle & _).
  split; [exact Hle | reflexivity].
Defined.

(** C1 as stated fails: a message on the task topic [mcp/alice] whose
    payload is the single byte 0xFF is a task-topic event, yet the handler
    raises on [decode] and [received] stays 0. *)
Lemma undecodable_task_event_not_received :
  startswith "mcp/alice" "mcp/" = true /\
  handle_message init "mcp/alice" [xff] = inl "UnicodeDecodeError" /\
  (tasks_received ∘ metrics) <$> step (Message "mcp/alice" [xff]) init = Some 0.
Proof. by vm_compute. Qed.

(** ** Admission bounds *)

(** C10. In every reachable state at most five tasks are inside the block
    of the task semaphore and at most two inside the block of the
    enrichment semaphore; the free slots and the holders always add up to
    the capacities 5 and 2, and 2 <= 5. *)
Theorem admission_bounds `{PyRuntime} (s : server) :
  reachable s ->
  number holds_task_permit (tasks s) <= 5 /\
  number holds_ai_permit (tasks s) <= 2 /\
  task_semaphore s + number holds_task_permit (tasks s) = MAX_CONCURRENT_TASKS /\
  ai_semaphore s + number holds_ai_permit (tasks s) = MAX_CONCURRENT_AI /\
  MAX_CONCURRENT_TASKS = 5 /\ MAX_CONCURRENT_AI = 2 /\
  MAX_CONCURRENT_AI <= MAX_CONCURRENT_TASKS.
Proof.
  intros Hs. destruct (reachable_accounting s Hs) as [Ht Ha _ _].
  unfold MAX_CONCURRENT_TASKS, MAX_CONCURRENT_AI in *. repeat split; lia.
Qed.

Lemma admission_bounds_witness :
  reachable busy /\
  number holds_task_permit (tasks busy) <= 5 /\
  number holds_ai_permit (tasks busy) <= 2.
Proof.
  split; [exact busy_reachable|].
  destruct (admission_bounds busy busy_reachable) as (Htask & Hai & _).
  by split.
Defined.

(** Both bounds are reached: in [busy] five tasks hold a task permit and two
    of them hold an enrichment permit, while a sixth waits. *)
Example busy_is_full :
  number holds_task_permit (tasks busy) = 5 /\
  number holds_ai_permit (tasks busy) = 2 /\
  task_semaphore busy = 0 /\ ai_semaphore busy = 0 /\
  task_pc <$> tasks busy !! 5 = Some AcquireTask /\
  run [Run 5] busy = None /\ run [Run 2] busy = None.
Proof. by vm_compute. Qed.

(** ** What a step can change *)

Section Frames.
Context `{PyRuntime}.

Lemma step_appends l s s' :
  step l s = Some s' ->
  exists new, log s' = log s ++ new /\ Forall (appended_by l s) new.
Proof.
  intros Hstep. destruct l; simpl in Hstep.
  - destruct (main_returned s); [done|].
    destruct (handle_message s topic payload_bytes) as [e|s1] eqn:Hm;
      injection Hstep as <-; [exists []; by rewrite app_nil_r|].
    apply handle_message_returns in Hm as [-> | [-> | (payload & _ & ->)]].
    + exists []. by rewrite app_nil_r.
    + eexists. split; [apply publish_log|].
      repeat constructor. by destruct (is_connected s).
    + exists []. rewrite app_nil_r. split; [|done]. unfold handle_task.
      by destruct (startswith topic "mcp/").
  - injection Hstep as <-. unfold on_connect. destruct (rc =? 0)%Z.
    + eexists. simpl. rewrite <- app_assoc. split; [done|]. by repeat constructor.
    + exists []. by rewrite app_nil_r.
  - injection Hstep as <-. exists []. by rewrite app_nil_r.
  - destruct (main_returned s); [done|]. injection Hstep as <-.
    exists []. by rewrite app_nil_r.
  - injection Hstep as <-. exists []. by rewrite app_nil_r.
  - step_cases Hstep; autorewrite with fields; simpl;
      first [ by (exists []; rewrite app_nil_r)
            | eexists; split; [done|]; repeat constructor;
              by destruct (is_connected s) ].
  - step_cases Hstep; autorewrite with fields; simpl;
      first [ by (exists []; rewrite app_nil_r)
            | eexists; split; [done|]; by repeat constructor ].
  - step_cases Hstep; simpl; autorewrite with fields; simpl;
      first [ by (exists []; rewrite app_nil_r)
            | eexists; split; [done|]; by repeat constructor ].
  - step_cases Hstep; simpl; autorewrite with fields; simpl;
      first [ by (exists []; rewrite app_nil_r)
            | eexists; split; [done|]; repeat constructor;
              by destruct (is_connected s) ].
  - step_cases Hstep. exists []. by rewrite app_nil_r.
  - step_cases Hstep; autorewrite with fields; simpl; exists []; by rewrite app_nil_r.
  - step_cases Hstep; simpl; exists []; by rewrite app_nil_r.
  - step_cases Hstep; simpl; exists []; by rewrite app_nil_r.
Qed.

Lemma step_clock l s s' : step l s = Some s' -> clock s <= clock s'.
Proof.
  intros Hstep. destruct l; simpl in Hstep.
  - destruct (main_returned s); [done|].
    destruct (handle_message s topic payload_bytes) as [e|s1] eqn:Hm;
      injection Hstep as <-; [done|].
    apply handle_message_returns in Hm as [-> | [-> | (payload & _ & ->)]];
      autorewrite with fields; simpl; try done.
    unfold handle_task. by destruct (startswith topic "mcp/").
  - injection Hstep as <-. unfold on_connect. by destruct (rc =? 0)%Z.
  - by injection Hstep as <-.
  - destruct (main_returned s); [done|]. by injection Hstep as <-.
  - injection Hstep as <-. simpl. lia.
  - step_cases Hstep; by autorewrite with fields.
  - step_cases Hstep; by autorewrite with fields.
  - step_cases Hstep; simpl; by autorewrite with fields.
  - step_cases Hstep; simpl; by autorewrite with fields.
  - by step_cases Hstep.
  - step_cases Hstep; by autorewrite with fields.
  - by step_cases Hstep.
  - by step_cases Hstep.
Qed.

(** Apart from the shutdown coroutines' own statements, a step leaves the
    list of shutdown coroutines alone or creates one more. *)
Lemma step_shutdowns l s s' :
  step l s = Some s' ->
  match l with
  | RunShutdown _ | CancelShutdown _ => True
  | _ => (shutdowns s' = shutdowns s \/ shutdowns s' = shutdowns s ++ [ShutdownPublish])
         /\ shutdown_event s' = shutdown_event s
  end.
Proof.
  intros Hstep. destruct l; simpl in Hstep; try done.
  - destruct (main_returned s); [done|].
    destruct (handle_message s topic payload_bytes) as [e|s1] eqn:Hm;
      injection Hstep as <-; [by split; [left|]|].
    apply handle_message_returns in Hm as [-> | [-> | (payload & _ & ->)]];
      autorewrite with fields; simpl; try by (split; [by (left + right)|]).
    unfold handle_task. destruct (startswith topic "mcp/"); by split; [left|].
  - injection Hstep as <-. unfold on_connect. destruct (rc =? 0)%Z; by split; [left|].
  - injection Hstep as <-. by split; [left|].
  - destruct (main_returned s); [done|]. injection Hstep as <-. by split; [right|].
  - injection Hstep as <-. by split; [left|].
  - step_cases Hstep; autorewrite with fields; by split; [left|].
  - step_cases Hstep; autorewrite with fields; by split; [left|].
  - step_cases Hstep; simpl; autorewrite with fields; by split; [left|].
  - step_cases Hstep. by split; [left|].
  - step_cases Hstep; autorewrite with fields; by split; [left|].
  - step_cases Hstep; simpl; by split; [left|].
Qed.
End Frames.

(** ** Shutdown: how often *)

Lemma sum_list_with_insert {A} (w : A -> nat) (l : list A) i x y :
  l !! i = Some x ->
  sum_list_with w (<[i := y]> l) + w x = sum_list_with w l + w y.
Proof.
  revert i. induction l as [|a l IH]; intros [|i] Hi; simpl in *; try done.
  - inversion Hi; subst. lia.
  - specialize (IH i Hi). lia.
Qed.

Lemma count_log_app f l1 l2 : count_log f (l1 ++ l2) = count_log f l1 + count_log f l2.
Proof. apply sum_list_with_app. Qed.

Lemma count_log_none f new :
  Forall (fun e => f (e_effect e) = false) new -> count_log f new = 0.
Proof.
  induction 1 as [|e new He _ IH]; [done|].
  unfold count_log in *. simpl. by rewrite He, IH.
Qed.

Lemma shutdown_effect_covers e :
  shutdown_effect e = false -> is_final_publish e = false /\ is_disconnect e = false.
Proof. destruct e as [| ? [] | ? [] | | |]; simpl; by intros. Qed.

Section ShutdownCounts.
Context `{PyRuntime}.

Lemma step_shutdown_counts l s s' :
  shutdown_counts s -> step l s = Some s' -> shutdown_counts s'.
Proof.
  intros [Hp Hd] Hstep. unfold shutdown_counts.
  destruct (runs_shutdown l) eqn:Hl; [destruct l; try done; simpl in Hstep|].
  - (* a statement of shutdown coroutine [j] *)
    unfold shutdown in Hstep.
    destruct (shutdowns s !! j) as [p|] eqn:Hj; [|done].
    pose proof (sum_list_with_insert
      (fun p => if passed_publish p then 1 else 0) (shutdowns s) j p) as Ip.
    pose proof (sum_list_with_insert
      (fun p => if passed_disconnect p then 1 else 0) (shutdowns s) j p) as Id.
    unfold count_pcs.
    destruct p; try done; repeat case_match; simplify_eq; simpl;
      autorewrite with fields; rewrite ?count_log_app; simpl;
      try destruct (is_connected s); simpl;
      match goal with
      | |- context [<[j := ?q]> _] =>
          specialize (Ip q Hj); specialize (Id q Hj); simpl in *
      end; unfold count_pcs in *; lia.
  - (* any other step *)
    destruct (step_appends l s s' Hstep) as (new & -> & Hnew).
    assert (count_log is_final_publish new = 0 /\ count_log is_disconnect new = 0)
      as [Np Nd].
    { split; apply count_log_none; eapply Forall_impl; try exact Hnew;
        intros e (_ & _ & He); by apply shutdown_effect_covers, He. }
    rewrite !count_log_app, Np, Nd, !Nat.add_0_r.
    destruct l; try done;
      lazymatch type of Hstep with
      | step (CancelShutdown _) _ = _ => idtac
      | _ => destruct (step_shutdowns _ s s' Hstep) as [[-> | ->] _];
             unfold count_pcs in *; rewrite ?sum_list_with_app; simpl; lia
      end.
    (* a shutdown coroutine is cancelled *)
    simpl in Hstep. unfold cancel_shutdown in Hstep.
    destruct (main_returned s); [|done].
    destruct (shutdowns s !! j) as [p|] eqn:Hj; [|done].
    pose proof (sum_list_with_insert
      (fun p => if passed_publish p then 1 else 0) (shutdowns s) j p) as Ip.
    pose proof (sum_list_with_insert
      (fun p => if passed_disconnect p then 1 else 0) (shutdowns s) j p) as Id.
    destruct p; try done; simplify_eq; simpl;
      match goal with
      | |- context [<[j := ?q]> _] =>
          specialize (Ip q Hj); specialize (Id q Hj); simpl in *
      end; unfold count_pcs in *; lia.
Qed.

Lemma reachable_shutdown_counts s : reachable s -> shutdown_counts s.
Proof.
  induction 1 as [|l s s' _ IH Hstep]; [done|]. by eapply step_shutdown_counts.
Qed.
End ShutdownCounts.

Lemma count_pcs_all f cs :
  Forall (fun p => f p = true) cs -> count_pcs f cs = List.length cs.
Proof.
  induction 1 as [|p cs Hp _ IH]; [done|].
  unfold count_pcs in *. simpl. rewrite Hp, IH. lia.
Qed.

Lemma twice_reachable : reachable twice.
Proof. apply (run_reachable twice_labels init); [constructor | by vm_compute]. Qed.

(** C2, as the code has it. [shutdown] has no guard: every signal creates
    a coroutine that runs the whole sequence. In every reachable state the
    log holds one final-metrics [publish] call for each coroutine that has
    passed its [publish] and one [disconnect] for each that has passed its
    [disconnect]. While [start] has not returned, a signal is accepted in
    every state, whatever shutdowns are in progress or have finished, and a
    coroutine at its [publish] or its [disconnect] executes it. When all
    coroutines have finished, both counts equal their number: one
    final-metrics publish and one disconnect for each coroutine that was
    started. *)
Theorem shutdown_calls_per_trigger `{PyRuntime} (s : server) :
  reachable s ->
  count_log is_final_publish (log s) = count_pcs passed_publish (shutdowns s) /\
  count_log is_disconnect (log s) = count_pcs passed_disconnect (shutdowns s) /\
  (main_returned s = false ->
   exists s', step Signal s = Some s' /\
              shutdowns s' = shutdowns s ++ [ShutdownPublish]) /\
  (main_returned s = false ->
   forall j, shutdowns s !! j = Some ShutdownPublish ->
     exists s', step (RunShutdown j) s = Some s' /\
                count_log is_final_publish (log s')
                = count_log is_final_publish (log s) + 1) /\
  (main_returned s = false ->
   forall j, shutdowns s !! j = Some ShutdownDisconnect ->
     exists s', step (RunShutdown j) s = Some s' /\
                count_log is_disconnect (log s') = count_log is_disconnect (log s) + 1) /\
  (Forall (fun p => p = ShutdownDone) (shutdowns s) ->
   count_log is_final_publish (log s) = List.length (shutdowns s) /\
   count_log is_disconnect (log s) = List.length (shutdowns s)).
Proof.
  intros Hs. destruct (reachable_shutdown_counts s Hs) as [Hp Hd].
  repeat split; try done.
  - intros Hmain. simpl. rewrite Hmain. by eexists.
  - intros _ j Hj. simpl. unfold shutdown. rewrite Hj. eexists. split; [done|].
    simpl. autorewrite with fields. rewrite count_log_app.
    unfold count_log at 2. simpl. destruct (is_connected s); simpl; lia.
  - intros _ j Hj. simpl. unfold shutdown. rewrite Hj. eexists. split; [done|].
    simpl. by rewrite count_log_app.
  - rewrite Hp. apply count_pcs_all. eapply Forall_impl; [done|]. by intros p ->.
  - rewrite Hd. apply count_pcs_all. eapply Forall_impl; [done|]. by intros p ->.
Qed.

Lemma shutdown_calls_per_trigger_witness :
  reachable twice /\
  count_log is_final_publish (log twice) = count_pcs passed_publish (shutdowns twice) /\
  count_log is_disconnect (log twice) = count_pcs passed_disconnect (shutdowns twice).
Proof.
  split; [exact twice_reachable|].
  destruct (shutdown_calls_per_trigger twice twice_reachable) as (Hp & Hd & _).
  by split.
Defined.

(** C2 as stated fails: the shutdown is triggered by a signal and, while it
    is in its grace sleep, again by a second signal. Both coroutines run to
    their end; the client was handed the shutdown payload twice and
    [disconnect] was called twice. *)
Lemma second_trigger_repeats_shutdown :
  shutdowns twice = [ShutdownDone; ShutdownDone] /\
  count_log is_disconnect (log twice) = 2 /\
  count_log is_final_publish (log twice) = 2 /\
  (e_origin <$> filter (fun e => is_disconnect (e_effect e) = true) (log twice))
  = [ByShutdown 0; ByShutdown 1] /\
  (e_origin <$> filter (fun e => is_final_sent (e_effect e) = true) (log twice))
  = [ByShutdown 0; ByShutdown 1].
Proof. by vm_compute. Qed.

(** ** Shutdown: in which order *)

Lemma shutdown_trace_later now now' p tr :
  now <= now' -> shutdown_trace now p tr -> shutdown_trace now' p tr.
Proof. intros Hle. induction 1; econstructor; eauto; lia. Qed.

Lemma trace_of_app j l1 l2 : trace_of j (l1 ++ l2) = trace_of j l1 ++ trace_of j l2.
Proof. unfold trace_of. by rewrite filter_app, fmap_app. Qed.

Lemma trace_of_others j new :
  Forall (fun e => e_origin e <> ByShutdown j) new -> trace_of j new = [].
Proof.
  induction 1 as [|e new He _ IH]; [done|].
  unfold trace_of in *. rewrite filter_cons. by destruct (decide _).
Qed.

Lemma trace_of_own j t e :
  trace_of j [{| e_time := t; e_origin := ByShutdown j; e_effect := e |}] = [(t, e)].
Proof.
  unfold trace_of. rewrite filter_cons. simpl. by destruct (decide _).
Qed.

(** A step that is not a shutdown coroutine's own. *)
Lemma shutdown_order_frame s s' new :
  shutdown_order s ->
  clock s <= clock s' ->
  log s' = log s ++ new ->
  Forall (fun e => forall j, e_origin e <> ByShutdown j) new ->
  shutdowns s' = shutdowns s \/ shutdowns s' = shutdowns s ++ [ShutdownPublish] ->
  shutdown_event s' = shutdown_event s ->
  shutdown_order s'.
Proof.
  intros [Htr Hfresh Hev] Hclock Hlog Hnew Hsh Hevent.
  assert (Hsame : forall j, trace_of j (log s') = trace_of j (log s)).
  { intros j. rewrite Hlog, trace_of_app, (trace_of_others j new), app_nil_r; [done|].
    eapply Forall_impl; [exact Hnew|]. by intros e He. }
  split.
  - intros j p Hj. rewrite Hsame. destruct Hsh as [Hsh | Hsh]; rewrite Hsh in Hj.
    + eapply shutdown_trace_later; [exact Hclock|]. by apply Htr.
    + apply lookup_app_Some in Hj as [Hj | [Hlen Hj]].
      * eapply shutdown_trace_later; [exact Hclock|]. by apply Htr.
      * rewrite (Hfresh j Hlen).
        destruct (j - List.length (shutdowns s)) as [|k]; simpl in Hj; [|done].
        injection Hj as <-. constructor.
  - intros j Hj. rewrite Hsame. apply Hfresh.
    destruct Hsh as [Hsh | Hsh]; rewrite Hsh in Hj; [done|].
    rewrite length_app in Hj. simpl in Hj. lia.
  - rewrite Hevent. intros He. destruct (Hev He) as [j Hj]. exists j.
    destruct Hsh as [-> | ->]; [done|]. by apply lookup_app_l_Some.
Qed.

(** A statement of shutdown coroutine [j], or its cancellation. *)
Lemma shutdown_order_advance s s' j p p' new :
  shutdown_order s ->
  shutdowns s !! j = Some p ->
  shutdowns s' = <[j := p']> (shutdowns s) ->
  clock s' = clock s ->
  log s' = log s ++ new ->
  Forall (fun e => e_origin e = ByShutdown j) new ->
  (forall tr, shutdown_trace (clock s) p tr ->
              shutdown_trace (clock s) p' (tr ++ trace_of j new)) ->
  p <> ShutdownDone ->
  shutdown_event s' = shutdown_event s \/ p' = ShutdownDone ->
  shutdown_order s'.
Proof.
  intros [Htr Hfresh Hev] Hj Hsh Hclock Hlog Hnew Hadv Hp Hevent.
  pose proof (lookup_lt_Some _ _ _ Hj) as Hlt.
  split.
  - intros k q Hk. rewrite Hsh in Hk. rewrite Hlog, trace_of_app, Hclock.
    destruct (decide (k = j)) as [->|Hne].
    + rewrite list_lookup_insert_eq in Hk by done. injection Hk as <-.
      apply Hadv. by apply Htr.
    + rewrite list_lookup_insert_ne in Hk by done.
      rewrite (trace_of_others k new), app_nil_r; [by apply Htr|].
      eapply Forall_impl; [exact Hnew|]. intros e -> [=]. done.
  - intros k Hk. rewrite Hsh, length_insert in Hk.
    rewrite Hlog, trace_of_app, (Hfresh k Hk), (trace_of_others k new); [done|].
    eapply Forall_impl; [exact Hnew|]. intros e -> [=]. lia.
  - intros He. destruct Hevent as [Hevent | ->].
    + rewrite Hevent in He. destruct (Hev He) as [k Hk]. exists k. rewrite Hsh.
      rewrite list_lookup_insert_ne; [done|]. intros ->. congruence.
    + exists j. rewrite Hsh. by rewrite list_lookup_insert_eq.
Qed.

Lemma shutdown_order_init : shutdown_order init.
Proof. split; [by intros [|j] p | done | done]. Qed.

Section ShutdownOrder.
Context `{PyRuntime}.

Lemma step_shutdown_order l s s' :
  shutdown_order s -> step l s = Some s' -> shutdown_order s'.
Proof.
  intros Hord Hstep.
  destruct l;
    lazymatch type of Hstep with
    | step (RunShutdown _) _ = _ => idtac
    | step (CancelShutdown _) _ = _ => idtac
    | _ =>
        destruct (step_appends _ s s' Hstep) as (new & Hlog & Hnew);
        destruct (step_shutdowns _ s s' Hstep) as [Hsh Hev];
        eapply shutdown_order_frame; eauto using step_clock;
        eapply Forall_impl; [exact Hnew|]; by intros e (-> & _) j
    end; simpl in Hstep.
  - (* a statement of coroutine [j] *)
    unfold shutdown in Hstep.
    destruct (shutdowns s !! j) as [p|] eqn:Hj; [|done].
    destruct p; try done.
    + injection Hstep as <-.
      apply (shutdown_order_advance s _ j ShutdownPublish ShutdownDisconnect
               [{| e_time := clock s; e_origin := ByShutdown j;
                   e_effect := if is_connected s
                               then Publish "response/mcp_server/status"
                                      (ShutdownPayload (clock s) (as_json (clock s) (metrics s)))
                               else Refused "response/mcp_server/status"
                                      (ShutdownPayload (clock s) (as_json (clock s) (metrics s)))
                |}] Hord Hj); simpl; autorewrite with fields;
        [done | done | done | by repeat constructor | | done | by left].
      intros tr Htr. inversion Htr; subst. rewrite trace_of_own. simpl.
      constructor; [|done]. exists (as_json (clock s) (metrics s)). split; [done|].
      destruct (is_connected s); [by left | by right].
    + injection Hstep as <-.
      apply (shutdown_order_advance s _ j ShutdownDisconnect ShutdownSleep
               [{| e_time := clock s; e_origin := ByShutdown j; e_effect := Disconnect |}]
               Hord Hj); simpl;
        [done | done | done | by repeat constructor | | done | by left].
      intros tr Htr. inversion Htr; subst. rewrite trace_of_own. simpl.
      by constructor.
    + injection Hstep as <-.
      apply (shutdown_order_advance s _ j ShutdownSleep (ShutdownSleeping (clock s + 1)) []
               Hord Hj); simpl;
        [done | done | by rewrite app_nil_r | done | | done | by left].
      intros tr Htr. inversion Htr; subst. simpl. constructor; auto; lia.
    + destruct (until <=? clock s)%nat eqn:Hwake; [|done].
      apply Nat.leb_le in Hwake. injection Hstep as <-.
      apply (shutdown_order_advance s _ j (ShutdownSleeping until) ShutdownSetEvent []
               Hord Hj); simpl;
        [done | done | by rewrite app_nil_r | done | | done | by left].
      intros tr Htr. inversion Htr; subst. simpl. constructor; auto; lia.
    + injection Hstep as <-.
      apply (shutdown_order_advance s _ j ShutdownSetEvent ShutdownDone
               [{| e_time := clock s; e_origin := ByShutdown j;
                   e_effect := SetShutdownEvent |}] Hord Hj); simpl;
        [done | done | done | by repeat constructor | | done | by right].
      intros tr Htr. inversion Htr; subst. rewrite trace_of_own. simpl.
      constructor; auto; lia.
  - (* coroutine [j] is cancelled *)
    unfold cancel_shutdown in Hstep. destruct (main_returned s); [|done].
    destruct (shutdowns s !! j) as [p|] eqn:Hj; [|done].
    destruct p; try done; injection Hstep as <-.
    + apply (shutdown_order_advance s _ j ShutdownPublish
               (ShutdownCancelled ShutdownPublish) [] Hord Hj); simpl;
        [done | done | by rewrite app_nil_r | done | | done | by left].
      intros tr Htr. rewrite app_nil_r. by constructor.
    + apply (shutdown_order_advance s _ j (ShutdownSleeping until)
               (ShutdownCancelled (ShutdownSleeping until)) [] Hord Hj); simpl;
        [done | done | by rewrite app_nil_r | done | | done | by left].
      intros tr Htr. rewrite app_nil_r. by constructor.
Qed.

Lemma reachable_shutdown_order s : reachable s -> shutdown_order s.
Proof.
  induction 1 as [|l s s' _ IH Hstep]; [apply shutdown_order_init|].
  by eapply step_shutdown_order.
Qed.
End ShutdownOrder.

Lemma shutdown_trace_shape now p tr :
  shutdown_trace now p tr ->
  exists t0 e0 t1 t2 k,
    tr = take k [(t0, e0); (t1, Disconnect); (t2, SetShutdownEvent)] /\
    (0 < k -> final_publish t0 e0) /\
    (p = ShutdownDone -> k = 3) /\
    (k = 3 -> t0 + 1 <= t2 /\ t2 <= now).
Proof.
  induction 1 as [|t0 e0|t0 e0 t1|t0 e0 t1 until|t0 e0 t1|t0 e0 t1 t2|was tr _ IH].
  - exists 0, Disconnect, 0, 0, 0. repeat split; (done || lia).
  - exists t0, e0, 0, 0, 1. repeat split; (done || lia).
  - exists t0, e0, t1, 0, 2. repeat split; (done || lia).
  - exists t0, e0, t1, 0, 2. repeat split; (done || lia).
  - exists t0, e0, t1, 0, 2. repeat split; (done || lia).
  - exists t0, e0, t1, t2, 3. repeat split; (done || lia).
  - destruct IH as (t0 & e0 & t1 & t2 & k & Htr & Hpub & _ & Hlast).
    exists t0, e0, t1, t2, k. repeat split; (done || by apply Hlast).
Qed.

Lemma drained_reachable : reachable drained.
Proof. apply (run_reachable drained_labels init); [constructor | by vm_compute]. Qed.

(** C3, as the code has it. The calls of one shutdown coroutine are a
    prefix of: the final-metrics publish with the shutdown payload, then
    [disconnect], then setting the shutdown event. A finished coroutine has
    made all three, and it set the event at least one second after its
    publish. The event, which is what stops the reporting loop and releases
    the wait of [start], is set by nothing else. *)
Theorem shutdown_sequence `{PyRuntime} (s : server) (j : nat) (p : shutdown_pc) :
  reachable s ->
  shutdowns s !! j = Some p ->
  (exists t0 e0 t1 t2 k,
     trace_of j (log s) = take k [(t0, e0); (t1, Disconnect); (t2, SetShutdownEvent)] /\
     (0 < k -> final_publish t0 e0) /\
     (p = ShutdownDone -> k = 3) /\
     (k = 3 -> t0 + 1 <= t2 /\ t2 <= clock s)) /\
  (shutdown_event s = true -> exists j', shutdowns s !! j' = Some ShutdownDone).
Proof.
  intros Hs Hj. destruct (reachable_shutdown_order s Hs) as [Htr _ Hev].
  split; [|done]. eapply shutdown_trace_shape. by apply Htr.
Qed.

Lemma shutdown_sequence_witness :
  reachable drained /\ shutdowns drained !! 0 = Some ShutdownDone /\
  exists t0 e0 t1 t2 k,
    trace_of 0 (log drained)
    = take k [(t0, e0); (t1, Disconnect); (t2, SetShutdownEvent)] /\
    (0 < k -> final_publish t0 e0) /\
    (ShutdownDone = ShutdownDone -> k = 3) /\
    (k = 3 -> t0 + 1 <= t2 /\ t2 <= clock drained).
Proof.
  split; [exact drained_reachable|]. split; [reflexivity|].
  exact (proj1 (shutdown_sequence drained 0 ShutdownDone drained_reachable eq_refl)).
Defined.

(** C3 as stated fails. With one task waiting for the gateway, a signal
    starts the shutdown. Right after the coroutine's second statement the
    client has been disconnected, although no time has passed, the
    shutdown event is not set and the task is still inside [execute]. The
    event is set a second later; the task finishes after that. *)
Lemma disconnect_precedes_grace_sleep :
  summary <$> log in_flight =
    [(0, "subscribe mcp/+"); (0, "subscribe mcp_server/control");
     (0, "publish response/mcp_server/status"); (0, "disconnect")] /\
  clock in_flight = 0 /\
  shutdown_event in_flight = false /\
  shutdowns in_flight = [ShutdownSleep] /\
  (holds_ai_permit ∘ task_pc) <$> tasks in_flight = [true] /\
  summary <$> log drained =
    [(0, "subscribe mcp/+"); (0, "subscribe mcp_server/control");
     (0, "publish response/mcp_server/status"); (0, "disconnect");
     (1, "shutdown_event.set"); (1, "insert_one");
     (1, "publish response/alice/todo")] /\
  task_pc <$> tasks drained = [Finished].
Proof. by vm_compute. Qed.

(** ** Acquisition and cancellation *)

Lemma pc_set_pc i p s t :
  tasks s !! i = Some t -> task_pc <$> tasks (set_pc i p s) !! i = Some p.
Proof.
  intros Hi. rewrite (set_pc_tasks _ _ _ _ Hi).
  rewrite list_lookup_insert_eq; [done|]. by eapply lookup_lt_Some.
Qed.

Section Teardown.
Context `{PyRuntime}.

(** [start] returns only after the shutdown event was set. *)
Lemma reachable_main_returned s :
  reachable s -> main_returned s = true -> shutdown_event s = true.
Proof.
  induction 1 as [|l s s' _ IH Hstep]; [done|].
  destruct l; simpl in Hstep.
  - destruct (main_returned s) eqn:Hm; [done|].
    destruct (handle_message s topic payload_bytes) as [e|s1] eqn:Hh;
      injection Hstep as <-; [congruence|].
    apply handle_message_returns in Hh as [-> | [-> | (payload & _ & ->)]];
      autorewrite with fields; simpl; try congruence.
    unfold handle_task. destruct (startswith topic "mcp/"); simpl; congruence.
  - injection Hstep as <-. unfold on_connect. by destruct (rc =? 0)%Z.
  - by injection Hstep as <-.
  - destruct (main_returned s) eqn:Hm; [done|]. injection Hstep as <-. simpl. congruence.
  - by injection Hstep as <-.
  - step_cases Hstep; autorewrite with fields; simpl; autorewrite with fields; auto.
  - step_cases Hstep; autorewrite with fields; simpl; autorewrite with fields; auto.
  - step_cases Hstep; simpl; autorewrite with fields; auto.
  - step_cases Hstep; simpl; autorewrite with fields; auto;
      intros Hm; specialize (IH Hm); congruence.
  - destruct (shutdown_event s) eqn:He; [|done]. step_cases Hstep. by simpl.
  - step_cases Hstep; autorewrite with fields; simpl; auto.
  - step_cases Hstep; simpl; auto.
  - step_cases Hstep; simpl; auto.
Qed.
End Teardown.

Lemma blocked_reachable : reachable blocked.
Proof. apply (run_reachable blocked_labels init); [constructor | by vm_compute]. Qed.

(** C4, as the code has it. The two [acquire] statements look at nothing
    but their semaphore: with a free slot the task gets its permit, in any
    state of the shutdown, and with none it waits. A task is cancelled only
    when [start] has returned, which is after the shutdown event was set;
    a task cancelled in an [acquire] changes no counter and ends. *)
Theorem acquire_ignores_shutdown `{PyRuntime} (s : server) (i : nat) (t : task) :
  reachable s ->
  tasks s !! i = Some t ->
  (task_pc t = AcquireTask ->
     (task_semaphore s = 0 -> step (Run i) s = None) /\
     (0 < task_semaphore s ->
      exists s', step (Run i) s = Some s' /\
                 task_pc <$> tasks s' !! i = Some Parse /\
                 task_semaphore s' + 1 = task_semaphore s /\
                 metrics s' = metrics s)) /\
  (forall p, task_pc t = AcquireAI p ->
     (ai_semaphore s = 0 -> step (Run i) s = None) /\
     (0 < ai_semaphore s ->
      exists s', step (Run i) s = Some s' /\
                 task_pc <$> tasks s' !! i = Some (Execute p) /\
                 ai_semaphore s' + 1 = ai_semaphore s /\
                 metrics s' = metrics s)) /\
  (main_returned s = false -> step (CancelTask i) s = None) /\
  (forall s', step (CancelTask i) s = Some s' ->
     main_returned s = true /\ shutdown_event s = true /\
     metrics s' = metrics s /\
     task_pc <$> tasks s' !! i = Some Cancelled).
Proof.
  intros Hs Hi. split; [|split; [|split]].
  - intros Hpc. split.
    + intros Hfull. simpl. unfold process_task. by rewrite Hi, Hpc, Hfull.
    + intros Hfree. simpl. unfold process_task. rewrite Hi, Hpc.
      destruct (task_semaphore s) as [|n] eqn:Hn; [lia|]. simpl.
      eexists. split; [done|]. rewrite (pc_set_pc _ _ _ t) by done.
      autorewrite with fields. simpl. repeat split; (done || lia).
  - intros p Hpc. split.
    + intros Hfull. simpl. unfold process_task. by rewrite Hi, Hpc, Hfull.
    + intros Hfree. simpl. unfold process_task. rewrite Hi, Hpc.
      destruct (ai_semaphore s) as [|n] eqn:Hn; [lia|]. simpl.
      eexists. split; [done|]. rewrite (pc_set_pc _ _ _ t) by done.
      autorewrite with fields. simpl. repeat split; (done || lia).
  - intros Hmain. simpl. unfold cancel_task. by rewrite Hmain.
  - intros s' Hcancel. simpl in Hcancel. unfold cancel_task in Hcancel.
    destruct (main_returned s) eqn:Hmain; [|done].
    split; [done|]. split; [by apply (reachable_main_returned s Hs)|].
    rewrite Hi in Hcancel. simpl in Hcancel.
    destruct (task_pc t); try done; injection Hcancel as <-;
      (split; [by autorewrite with fields | by eapply pc_set_pc]).
Qed.

Lemma acquire_ignores_shutdown_witness :
  reachable blocked /\
  (exists t, tasks blocked !! 2 = Some t) /\
  step (CancelTask 2) blocked = None.
Proof.
  split; [exact blocked_reachable|].
  destruct (tasks blocked !! 2) as [t|] eqn:Ht; [|by vm_compute in Ht].
  split; [by exists t|].
  destruct (acquire_ignores_shutdown blocked 2 t blocked_reachable Ht) as (_ & _ & Hno & _).
  by apply Hno.
Defined.

(** C4 as stated fails. In [blocked] the shutdown has published and
    disconnected and is in its sleep, and the third task is blocked in
    front of the enrichment gate: it keeps waiting, and nothing can cancel
    it. When the first task leaves the gate, the third one gets the permit
    although the shutdown is still in progress, and goes on to increment
    [processed]. *)
Lemma blocked_acquire_admitted_during_shutdown :
  shutdowns blocked = [ShutdownSleeping 1] /\
  summary <$> log blocked =
    [(0, "subscribe mcp/+"); (0, "subscribe mcp_server/control");
     (0, "publish response/mcp_server/status"); (0, "disconnect")] /\
  (holds_task_permit ∘ task_pc) <$> tasks blocked = [true; true; true] /\
  (holds_ai_permit ∘ task_pc) <$> tasks blocked = [true; true; false] /\
  ai_semaphore blocked = 0 /\
  step (Run 2) blocked = None /\
  step (CancelTask 2) blocked = None /\
  run (drop (List.length blocked_labels) admitted_labels) blocked = Some admitted /\
  shutdowns admitted = [ShutdownSleeping 1] /\
  shutdown_event admitted = false /\
  (counted ∘ task_pc) <$> tasks admitted = [true; false; true] /\
  tasks_processed (metrics admitted) = 2 /\
  tasks_failed (metrics admitted) = 0.
Proof. by vm_compute. Qed.

(** ** Nesting of the permits *)

Lemma number_positive f (ts : list task) i t :
  ts !! i = Some t -> f (task_pc t) = true -> 1 <= number f ts.
Proof.
  unfold number. revert i. induction ts as [|u ts IH]; intros [|i] Hi Hf; simpl in *; try done.
  - injection Hi as ->. unfold weight. rewrite Hf. lia.
  - specialize (IH i Hi Hf). lia.
Qed.

Lemma executing_reachable : reachable executing.
Proof. apply (run_reachable executing_labels init); [constructor | by vm_compute]. Qed.

(** C5, as the code has it. A task inside the enrichment block is inside
    the task block. A statement that takes an enrichment slot is executed
    with the task permit held, and a statement that frees a task slot is
    executed with no enrichment permit held. The call of [execute], which
    enriches, builds the record and inserts it, starts and ends inside the
    enrichment block, with a slot of that gate taken; so does every
    statement that publishes a response. *)
Theorem permits_nested `{PyRuntime} (s : server) (i : nat) (t : task) :
  reachable s ->
  tasks s !! i = Some t ->
  (holds_ai_permit (task_pc t) = true -> holds_task_permit (task_pc t) = true) /\
  (forall s', step (Run i) s = Some s' ->
     (ai_semaphore s' + 1 = ai_semaphore s ->
      holds_task_permit (task_pc t) = true /\ task_semaphore s' = task_semaphore s) /\
     (task_semaphore s' = task_semaphore s + 1 ->
      holds_ai_permit (task_pc t) = false /\ ai_semaphore s' = ai_semaphore s) /\
     (log s' <> log s -> holds_ai_permit (task_pc t) = true)) /\
  (forall gw db s', step (RunExecute i gw db) s = Some s' ->
     holds_ai_permit (task_pc t) = true /\
     holds_task_permit (task_pc t) = true /\
     ai_semaphore s' = ai_semaphore s /\
     ai_semaphore s < MAX_CONCURRENT_AI /\
     (exists t', tasks s' !! i = Some t' /\ holds_ai_permit (task_pc t') = true) /\
     (forall p, task_pc t = Execute p -> params_command p = Some "add" ->
        exists doc, log s' = log s ++ [{| e_time := clock s; e_origin := ByTask i;
                                          e_effect := InsertOne doc db |}])).
Proof.
  intros Hs Hi. split; [by destruct (task_pc t)|]. split.
  - intros s' Hstep. simpl in Hstep. unfold process_task in Hstep. rewrite Hi in Hstep.
    destruct (task_pc t) eqn:Hpc; try done; repeat case_match; simplify_eq;
      autorewrite with fields; simpl; autorewrite with fields;
      repeat split; intros; try done; lia.
  - intros gw db s' Hstep. simpl in Hstep. unfold process_task in Hstep.
    rewrite Hi in Hstep.
    destruct (task_pc t) eqn:Hpc; try done.
    destruct (reachable_accounting s Hs) as [_ Hai _ _].
    pose proof (number_positive holds_ai_permit (tasks s) i t Hi) as Hpos.
    rewrite Hpc in Hpos. specialize (Hpos eq_refl).
    repeat split; try done.
    + destruct (execute _ _ _ _) as [[doc|] [e|r]]; simplify_eq;
        by autorewrite with fields.
    + lia.
    + destruct (execute _ _ _ _) as [[doc|] [e|r]]; simplify_eq;
        (eexists; split;
         [rewrite (set_pc_tasks _ _ _ t) by done; apply list_lookup_insert_eq;
          by eapply lookup_lt_Some | done]).
    + intros p' [= <-] Hadd. unfold execute in Hstep. rewrite Hadd in Hstep.
      destruct (add_todo _ _ _ _ _ _ _) as [doc [e|r]]; simplify_eq;
        exists doc; by autorewrite with fields.
Qed.

Lemma permits_nested_witness :
  reachable executing /\
  (exists t, tasks executing !! 0 = Some t /\
             (holds_ai_permit (task_pc t) = true -> holds_task_permit (task_pc t) = true)).
Proof.
  split; [exact executing_reachable|].
  destruct (tasks executing !! 0) as [t|] eqn:Ht; [|by vm_compute in Ht].
  exists t. split; [done|].
  exact (proj1 (permits_nested executing 0 t executing_reachable Ht)).
Defined.

(** C5 as stated fails: [insert_one] is called inside the enrichment block.
    In [executing] the task has taken one of the two enrichment slots;
    [execute] then inserts the record, and the slot is still taken when the
    insert has happened. It is freed two statements later, after the
    response was published. *)
Lemma insert_holds_enrichment_permit :
  ai_semaphore executing = 1 /\
  (holds_ai_permit ∘ task_pc) <$> tasks executing = [true] /\
  summary <$> log executing =
    [(0, "subscribe mcp/+"); (0, "subscribe mcp_server/control")] /\
  step (RunExecute 0 Absent (Inserted (Oid 1))) executing = Some persisted /\
  summary <$> log persisted =
    [(0, "subscribe mcp/+"); (0, "subscribe mcp_server/control"); (0, "insert_one")] /\
  ai_semaphore persisted = 1 /\
  (holds_ai_permit ∘ task_pc) <$> tasks persisted = [true] /\
  ai_semaphore <$> run [Run 0; Run 0] persisted = Some 1 /\
  ai_semaphore <$> run [Run 0; Run 0; Run 0] persisted = Some 2.
Proof. by vm_compute. Qed.

(** ** Decoding the payload *)

(** C6, as the code has it. For a payload that is valid UTF-8 and on which
    [json.loads] returns or raises [JSONDecodeError], the handler does not
    raise on a task topic, and parsing yields a description: the value of
    the description field when the text is a JSON object that has one,
    and the whole payload text otherwise. Whatever the description is,
    [execute] builds a record that carries it. *)
Theorem payload_decoding `{PyRuntime}
    (payload_bytes : list byte) (payload target_agent : string) :
  decode_utf8 payload_bytes = Some payload ->
  (forall e, json_loads payload <> LoadsRaised e) ->
  payload = string_of_list_byte payload_bytes /\
  (forall s topic, startswith topic "mcp/" = true ->
     exists s', handle_message s topic payload_bytes = inr s') /\
  exists description,
    parse_payload payload target_agent =
      inr {| params_command := Some "add";
             params_description := Some description;
             params_context := Some "wyrmwatch_server";
             params_target_agent := Some target_agent;
             params_project := None |} /\
    (forall pairs value,
       json_loads payload = Loaded (PyDict pairs) ->
       dict_get "description" pairs = Some value -> description = value) /\
    ((forall pairs, json_loads payload = Loaded (PyDict pairs) ->
                    dict_get "description" pairs = None) ->
     description = PyStr payload) /\
    forall now gw db p,
      parse_payload payload target_agent = inr p ->
      exists doc, (execute now gw db p).1 = Some doc /\
                  todo_description doc = description /\
                  todo_target_agent doc = target_agent /\
                  todo_status doc = PENDING.
Proof.
  intros Hdecode Hloads. split.
  { unfold decode_utf8 in Hdecode. destruct (utf8_wellformed _); by simplify_eq. }
  split.
  { intros s topic Htopic. unfold handle_message.
    rewrite Hdecode, (task_topic_not_control topic Htopic). by eexists. }
  assert (Hbuilt : forall description now gw db,
    exists doc,
      (execute now gw db
         {| params_command := Some "add";
            params_description := Some description;
            params_context := Some "wyrmwatch_server";
            params_target_agent := Some target_agent;
            params_project := None |}).1 = Some doc /\
      todo_description doc = description /\
      todo_target_agent doc = target_agent /\
      todo_status doc = PENDING).
  { intros description now gw db. unfold execute, add_todo. simpl.
    destruct (enhance_todo_description gw description) as [e|[[enh pri] proj]];
      by eexists. }
  unfold parse_payload.
  destruct (json_loads payload) as [[| | | | |pairs]| |e] eqn:Hl;
    try (by destruct (Hloads e));
    try (exists (PyStr payload); repeat split; try done;
         intros now gw db p [= <-]; apply Hbuilt).
  destruct (dict_get "description" pairs) as [value|] eqn:Hget.
  - exists value. repeat split.
    + intros pairs' value' [= <-]. congruence.
    + intros Hnone. specialize (Hnone pairs eq_refl). congruence.
    + intros now gw db p [= <-]. apply Hbuilt.
  - exists (PyStr payload). repeat split.
    + intros pairs' value [= <-]. congruence.
    + intros now gw db p [= <-]. apply Hbuilt.
Qed.

Lemma payload_decoding_witness :
  decode_utf8 (to_bytes urgent_payload) = Some urgent_payload /\
  (forall e, json_loads urgent_payload <> LoadsRaised e) /\
  exists description,
    parsed_description (parse_payload urgent_payload "alice") = Some description /\
    description = PyStr "Fix urgent bug in login".
Proof.
  assert (Hd : decode_utf8 (to_bytes urgent_payload) = Some urgent_payload)
    by by vm_compute.
  assert (Hl : forall e, json_loads urgent_payload <> LoadsRaised e)
    by by vm_compute.
  split; [exact Hd|]. split; [exact Hl|].
  destruct (payload_decoding (to_bytes urgent_payload) urgent_payload "alice" Hd Hl)
    as (_ & _ & description & Hp & Hfield & _).
  exists description. split; [by rewrite Hp|].
  by apply (Hfield [("description", PyStr "Fix urgent bug in login")]).
Defined.

(** C6 as stated fails. The byte 0xFF is not valid UTF-8: the handler
    raises and no task exists afterwards. The empty payload is not JSON
    and becomes the empty description. A description field that holds
    [null] becomes a description that is no text at all. *)
Lemma decoding_fails_or_yields_nothing :
  decode_utf8 [xff] = None /\
  handle_message init "mcp/alice" [xff] = inl "UnicodeDecodeError" /\
  tasks <$> step (Message "mcp/alice" [xff]) init = Some [] /\
  decode_utf8 [] = Some "" /\
  parsed_description (parse_payload "" "alice") = Some (PyStr "") /\
  decode_utf8 (to_bytes null_payload) = Some null_payload /\
  parsed_description (parse_payload null_payload "alice") = Some PyNone.
Proof. by vm_compute. Qed.

(** ** The fallback's project *)

(** C8, as the code has it. With the gateway absent or failing, [add_todo]
    raises only what [insert_one] raises, so a task whose insert returns
    goes on to increment [processed]. The record's project is detected from
    the text: "slack-integration" when the lower-cased description contains
    "slack", else "github-tools" when it contains "github", else
    "wyrmwatch". Only for a description that is not a text is it the
    caller's project, or "wyrmwatch" when the caller gave none. *)
Theorem fallback_project `{PyRuntime}
    (now : nat) (gw : gateway) (db : insert_reply) (description : pyvalue)
    (context : option string) (target_agent : string) (project : option string) :
  (gw = Absent \/ exists e, gw = Fails e) ->
  (forall e, (add_todo now gw db description context target_agent project).2 = inl e
             <-> db = InsertRaises e) /\
  match description with
  | PyStr text =>
      detected_project text
        (todo_project (add_todo now gw db description context target_agent project).1)
  | _ =>
      todo_project (add_todo now gw db description context target_agent project).1
      = or_else project "wyrmwatch"
  end /\
  forall s i t p inserted_id,
    tasks s !! i = Some t -> task_pc t = Execute p -> params_command p = Some "add" ->
    exists s' r,
      step (RunExecute i gw (Inserted inserted_id)) s = Some s' /\
      task_pc <$> tasks s' !! i = Some (IncrementProcessed r) /\
      metrics s' = metrics s.
Proof.
  intros Hgw. split; [|split].
  - intros e. unfold add_todo.
    destruct (enhance_todo_description gw description) as [?|[[? ?] ?]];
      destruct db as [id|e']; simpl; split; intros; by simplify_eq.
  - assert (Hsimple : forall text,
      enhance_todo_description gw (PyStr text) = inr (simple_enhancement text)).
    { intros text. by destruct Hgw as [-> | [e ->]]. }
    assert (Hraise : forall v, (forall text, v <> PyStr text) ->
      exists e, enhance_todo_description gw v = inl e).
    { intros v Hv. destruct Hgw as [-> | [e ->]]; destruct v; simpl; eauto;
        by destruct (Hv s). }
    destruct description as [| | |text| |]; unfold add_todo;
      try (edestruct Hraise as [e ->]; [by intros text|]; done).
    rewrite Hsimple. unfold simple_enhancement, detected_project. simpl.
    rewrite <- !contains_iff_occurs.
    destruct (contains "slack" _), (contains "github" _); repeat split; intros; done.
  - intros s i t p inserted_id Hi Hpc Hadd. simpl. unfold process_task.
    rewrite Hi, Hpc. unfold execute. rewrite Hadd.
    destruct (add_todo _ _ _ _ _ _ _) as [doc r] eqn:Hdoc.
    assert (Hr : exists r', r = inr r').
    { unfold add_todo in Hdoc.
      destruct (enhance_todo_description _ _) as [?|[[? ?] ?]];
        destruct inserted_id; simplify_eq; by eexists. }
    destruct Hr as [r' ->]. eexists _, r'. split; [done|].
    split; [by eapply pc_set_pc | by autorewrite with fields].
Qed.

Lemma fallback_project_witness :
  (Absent = Absent \/ exists e, Absent = Fails e) /\
  detected_project "Update the slack bot"
    (todo_project
       (add_todo 0 Absent (Inserted (Oid 1)) (PyStr "Update the slack bot")
          (Some "wyrmwatch_server") "alice" (Some "wyrmwatch")).1).
Proof.
  assert (Hgw : Absent = Absent \/ exists e, Absent = Fails e) by by left.
  split; [exact Hgw|].
  exact (proj1 (proj2 (fallback_project 0 Absent (Inserted (Oid 1))
                         (PyStr "Update the slack bot") (Some "wyrmwatch_server")
                         "alice" (Some "wyrmwatch") Hgw))).
Defined.

(** C8 as stated fails. The task "Update the slack bot" supplies no
    project, the gateway is absent, and the record is filed under
    "slack-integration", which is neither a caller's project nor the
    fallback name "wyrmwatch"; with a failing gateway "Fix GitHub webhook"
    is filed under "github-tools". Both tasks are processed. *)
Lemma fallback_detects_other_projects :
  todo_project <$> inserted (text_task "Update the slack bot" Absent)
    = ["slack-integration"] /\
  todo_project <$> inserted (text_task "Fix GitHub webhook" (Fails "RateLimitError"))
    = ["github-tools"] /\
  (parse_payload "Update the slack bot" "alice"
   = inr {| params_command := Some "add";
            params_description := Some (PyStr "Update the slack bot");
            params_context := Some "wyrmwatch_server";
            params_target_agent := Some "alice";
            params_project := None |}) /\
  tasks_processed (metrics (text_task "Update the slack bot" Absent)) = 1 /\
  tasks_failed (metrics (text_task "Update the slack bot" Absent)) = 0 /\
  task_pc <$> tasks (text_task "Update the slack bot" Absent) = [Finished].
Proof. by vm_compute. Qed.

(** * Further properties of the code *)

(** ** Runs *)

Section Runs.
Context `{PyRuntime}.

(** A relation that holds along every step holds along every run. *)
Lemma run_relation (R : server -> server -> Prop) :
  (forall s, R s s) ->
  (forall a b c, R a b -> R b c -> R a c) ->
  (forall l s s', step l s = Some s' -> R s s') ->
  forall ls s s', run ls s = Some s' -> R s s'.
Proof.
  intros Hrefl Htrans Hstep ls. induction ls as [|l ls IH]; simpl; intros s s' Hrun.
  - by simplify_eq.
  - destruct (step l s) as [s1|] eqn:Hl; [|done]. eauto.
Qed.

Lemma step_tasks_change l s s' : step l s = Some s' -> tasks_change s s'.
Proof.
  intros Hstep. unfold tasks_change. destruct l; simpl in Hstep.
  - destruct (main_returned s); [done|].
    destruct (handle_message s topic payload_bytes) as [e|s1] eqn:Hm;
      injection Hstep as <-; [by left|].
    apply handle_message_returns in Hm as [-> | [-> | (payload & _ & ->)]].
    + by left.
    + left. by autorewrite with fields.
    + unfold handle_task. destruct (startswith topic "mcp/"); [|by left].
      right. left. by eexists _, _.
  - injection Hstep as <-. left. unfold on_connect. by destruct (rc =? 0)%Z.
  - injection Hstep as <-. by left.
  - destruct (main_returned s); [done|]. injection Hstep as <-. by left.
  - injection Hstep as <-. by left.
  - unfold process_task in Hstep. destruct (tasks s !! i) as [t|] eqn:Hi; [|done].
    destruct (task_pc t) eqn:Hpc; try done; repeat case_match; simplify_eq;
      right; right; eexists i, t, _; rewrite Hpc;
      (split; [done|]); (split; [done|]);
      rewrite (set_pc_tasks _ _ _ t) by (by autorewrite with fields);
      by autorewrite with fields.
  - unfold process_task in Hstep. destruct (tasks s !! i) as [t|] eqn:Hi; [|done].
    destruct (task_pc t) eqn:Hpc; try done; repeat case_match; simplify_eq;
      right; right; eexists i, t, _; rewrite Hpc;
      (split; [done|]); (split; [done|]);
      by rewrite (set_pc_tasks _ _ _ t) by done.
  - step_cases Hstep; left; simpl; by autorewrite with fields.
  - step_cases Hstep; left; simpl; by autorewrite with fields.
  - step_cases Hstep. by left.
  - unfold cancel_task in Hstep. destruct (main_returned s); [|done].
    destruct (tasks s !! i) as [t|] eqn:Hi; [|done]. simpl in Hstep.
    destruct (task_pc t) eqn:Hpc; try done; simplify_eq;
      right; right; eexists i, t, _; rewrite Hpc;
      (split; [done|]); (split; [done|]);
      by rewrite (set_pc_tasks _ _ _ t) by done.
  - step_cases Hstep; by left.
  - step_cases Hstep; by left.
Qed.
End Runs.

Lemma tasks_change_persist s s' : tasks_change s s' -> tasks_persist s s'.
Proof.
  intros [Heq | [(payload & agent & Heq) | (i & t & p & Hi & Hend & Heq)]] k u Hk;
    rewrite Heq.
  - by exists u.
  - exists u. by rewrite (lookup_app_l_Some _ _ _ _ Hk).
  - destruct (decide (k = i)) as [->|Hne].
    + rewrite list_lookup_insert_eq by by eapply lookup_lt_Some.
      simplify_eq. eexists. split; [done|]. repeat split. congruence.
    + rewrite list_lookup_insert_ne by done. by exists u.
Qed.

Section RunProperties.
Context `{PyRuntime}.

Lemma step_metrics_grow l s s' : step l s = Some s' -> metrics_grow s s'.
Proof.
  intros Hstep. unfold metrics_grow. destruct l; simpl in Hstep.
  - destruct (main_returned s); [done|].
    destruct (handle_message s topic payload_bytes) as [e|s1] eqn:Hm;
      injection Hstep as <-; [done|].
    apply handle_message_returns in Hm as [-> | [-> | (payload & _ & ->)]];
      autorewrite with fields; simpl; try done.
    unfold handle_task. destruct (startswith topic "mcp/"); simpl; repeat split; lia.
  - injection Hstep as <-. unfold on_connect. by destruct (rc =? 0)%Z.
  - by injection Hstep as <-.
  - destruct (main_returned s); [done|]. by injection Hstep as <-.
  - by injection Hstep as <-.
  - step_cases Hstep; autorewrite with fields; simpl; autorewrite with fields;
      repeat split; lia.
  - step_cases Hstep; autorewrite with fields; simpl; repeat split; lia.
  - step_cases Hstep; simpl; by autorewrite with fields.
  - step_cases Hstep; simpl; by autorewrite with fields.
  - by step_cases Hstep.
  - step_cases Hstep; by autorewrite with fields.
  - by step_cases Hstep.
  - by step_cases Hstep.
Qed.

Lemma step_shutdown_advances l s s' : step l s = Some s' -> shutdown_advances s s'.
Proof.
  intros Hstep. split; [|split; [|by eapply step_clock]].
  - destruct l;
      lazymatch type of Hstep with
      | step (RunShutdown _) _ = _ => idtac
      | step (CancelShutdown _) _ = _ => idtac
      | _ => by destruct (step_shutdowns _ s s' Hstep) as [_ ->]
      end; simpl in Hstep.
    + step_cases Hstep; simpl; autorewrite with fields; auto.
    + step_cases Hstep; simpl; auto.
  - destruct l; simpl in Hstep.
    + destruct (main_returned s); [done|by intros].
    + injection Hstep as <-. unfold on_connect. by destruct (rc =? 0)%Z.
    + by injection Hstep as <-.
    + destruct (main_returned s); [done|by intros].
    + by injection Hstep as <-.
    + step_cases Hstep; autorewrite with fields; simpl; by autorewrite with fields.
    + step_cases Hstep; autorewrite with fields; simpl; by autorewrite with fields.
    + step_cases Hstep; simpl; by autorewrite with fields.
    + step_cases Hstep; simpl; by autorewrite with fields.
    + by step_cases Hstep.
    + step_cases Hstep; by autorewrite with fields.
    + by step_cases Hstep.
    + by step_cases Hstep.
Qed.

(** X1. The metrics are never reset: along every run of the server each of
    the three counters can only grow, and the start time stays what it
    was. *)
Theorem metrics_never_reset (ls : list label) (s s' : server) :
  run ls s = Some s' -> metrics_grow s s'.
Proof.
  apply (run_relation metrics_grow).
  - intros a. unfold metrics_grow. repeat split; lia.
  - intros a b c (? & ? & ? & ?) (? & ? & ? & ?). unfold metrics_grow.
    repeat split; (lia || congruence).
  - apply step_metrics_grow.
Qed.

(** X2. A unit of work is never dropped or rewritten: along every run each
    task keeps its place, its payload and its target agent, and a task that
    has finished or was cancelled does not change any more. *)
Theorem tasks_are_kept (ls : list label) (s s' : server) :
  run ls s = Some s' -> tasks_persist s s'.
Proof.
  apply (run_relation tasks_persist).
  - intros a i t Hi. by exists t.
  - intros a b c Hab Hbc i t Hi.
    destruct (Hab i t Hi) as (t1 & Hi1 & Hp1 & Ha1 & He1).
    destruct (Hbc i t1 Hi1) as (t2 & Hi2 & Hp2 & Ha2 & He2).
    exists t2. repeat split; try congruence.
    intros Hend. specialize (He1 Hend). subst t1. by apply He2.
  - intros l a b Hstep. by apply tasks_change_persist, (step_tasks_change l).
Qed.

(** X3. The shutdown does not regress: along every run the shutdown event,
    once set, stays set (nothing clears it), and [start], once returned,
    stays returned. *)
Theorem shutdown_never_regresses (ls : list label) (s s' : server) :
  run ls s = Some s' -> shutdown_latched s s'.
Proof.
  apply (run_relation shutdown_latched).
  - intros a. by split.
  - intros a b c [? ?] [? ?]. split; auto.
  - intros l a b Hstep. destruct (step_shutdown_advances l a b Hstep) as (? & ? & _).
    by split.
Qed.
End RunProperties.

(** ** Quiescence *)

Lemma number_ended (f g : pc -> bool) (ts : list task) :
  (forall p, ended p = true -> f p = g p) ->
  Forall (fun t => ended (task_pc t) = true) ts ->
  number f ts = number g ts.
Proof.
  intros Hfg. induction 1 as [|t ts Ht _ IH]; [done|].
  unfold number, weight in *. simpl. by rewrite (Hfg _ Ht), IH.
Qed.

Lemma number_none (f : pc -> bool) (ts : list task) :
  Forall (fun t => f (task_pc t) = false) ts -> number f ts = 0.
Proof.
  induction 1 as [|t ts Ht _ IH]; [done|].
  unfold number, weight in *. simpl. by rewrite Ht, IH.
Qed.

Lemma number_split (f g h : pc -> bool) (ts : list task) :
  (forall p, (if f p then 1 else 0) = (if g p then 1 else 0) + (if h p then 1 else 0)) ->
  number f ts = number g ts + number h ts.
Proof.
  intros Hsplit. induction ts as [|t ts IH]; [done|].
  unfold number, weight in *. simpl. rewrite IH, (Hsplit (task_pc t)). lia.
Qed.

Lemma number_all (f : pc -> bool) (ts : list task) :
  Forall (fun t => f (task_pc t) = true) ts -> number f ts = List.length ts.
Proof.
  induction 1 as [|t ts Ht _ IH]; [done|].
  unfold number, weight in *. simpl. by rewrite Ht, IH.
Qed.

Lemma finished_run : run finishing_labels executing = Some finished.
Proof. by vm_compute. Qed.

Lemma finished_reachable : reachable finished.
Proof. exact (run_reachable finishing_labels executing finished executing_reachable finished_run). Qed.

(** X4. No permit is lost and no unit is lost: in a reachable state in
    which every unit that was created has ended, finished or cancelled,
    both semaphores are back at their capacities 5 and 2, and every unit
    is a processed one, a failed one or a cancelled one. *)
Theorem quiescent_state_is_balanced `{PyRuntime} (s : server) :
  reachable s ->
  quiescent s ->
  task_semaphore s = MAX_CONCURRENT_TASKS /\
  ai_semaphore s = MAX_CONCURRENT_AI /\
  tasks_processed (metrics s) + tasks_failed (metrics s)
    + number is_cancelled (tasks s) = List.length (tasks s).
Proof.
  intros Hs Hq. destruct (reachable_accounting s Hs) as [Ht Ha _ Ho].
  assert (number holds_task_permit (tasks s) = 0) as Nt.
  { apply number_none. eapply Forall_impl; [exact Hq|].
    intros t Hend. simpl in Hend. by destruct (task_pc t). }
  assert (number holds_ai_permit (tasks s) = 0) as Na.
  { apply number_none. eapply Forall_impl; [exact Hq|].
    intros t Hend. simpl in Hend. by destruct (task_pc t). }
  assert (number ended (tasks s) = List.length (tasks s)) as Ne by by apply number_all.
  assert (number ended (tasks s)
          = number counted (tasks s) + number is_cancelled (tasks s)) as Ns.
  { rewrite (number_ended ended (fun p => is_finished p || is_cancelled p) (tasks s));
      [|by intros []|exact Hq].
    rewrite (number_ended counted is_finished (tasks s)); [|by intros []|exact Hq].
    apply number_split. by intros []. }
  repeat split; lia.
Qed.

Lemma quiescent_state_is_balanced_witness :
  reachable finished /\ quiescent finished /\
  task_semaphore finished = MAX_CONCURRENT_TASKS /\
  ai_semaphore finished = MAX_CONCURRENT_AI /\
  tasks_processed (metrics finished) + tasks_failed (metrics finished)
    + number is_cancelled (tasks finished) = List.length (tasks finished).
Proof.
  assert (Hq : quiescent finished) by (repeat constructor).
  split; [exact finished_reachable|]. split; [exact Hq|].
  exact (quiescent_state_is_balanced finished finished_reachable Hq).
Defined.

Lemma metrics_never_reset_witness :
  run finishing_labels executing = Some finished /\ metrics_grow executing finished.
Proof.
  split; [exact finished_run|].
  exact (metrics_never_reset finishing_labels executing finished finished_run).
Defined.

Lemma tasks_are_kept_witness :
  run finishing_labels executing = Some finished /\ tasks_persist executing finished.
Proof.
  split; [exact finished_run|].
  exact (tasks_are_kept finishing_labels executing finished finished_run).
Defined.

Lemma shutdown_never_regresses_witness :
  shutdown_event reported = true /\
  exists s',
    run [Tick; RunReporter; Signal] reported = Some s' /\ shutdown_latched reported s'.
Proof.
  split; [reflexivity|].
  destruct (run [Tick; RunReporter; Signal] reported) as [s'|] eqn:Hrun;
    [|by vm_compute in Hrun].
  exists s'. split; [reflexivity|].
  exact (shutdown_never_regresses [Tick; RunReporter; Signal] reported s' Hrun).
Defined.

(** ** Progress *)

Lemma work_set_pc i p s s0 t :
  tasks s !! i = Some t ->
  tasks s0 = tasks s ->
  remaining p < remaining (task_pc t) ->
  work (set_pc i p s0) < work s.
Proof.
  intros Hi Hts Hlt. unfold work.
  rewrite (set_pc_tasks _ _ _ t) by by rewrite Hts.
  rewrite Hts.
  pose proof (sum_list_with_insert (fun t => remaining (task_pc t)) (tasks s) i t
                {| task_payload := task_payload t;
                   task_target_agent := task_target_agent t;
                   task_pc := p |} Hi) as Hsum.
  simpl in Hsum. lia.
Qed.

Lemma exists_task (f : pc -> bool) (ts : list task) :
  Exists (fun t => f (task_pc t) = true) ts ->
  exists i t, ts !! i = Some t /\ f (task_pc t) = true.
Proof.
  intros (t & Hin & Hf)%Exists_exists.
  apply list_elem_of_lookup in Hin as [i Hi]. by exists i, t.
Qed.

Section Progress.
Context `{PyRuntime}.

(** A task past its gates can run. *)
Lemma runnable_can_run s i t :
  tasks s !! i = Some t -> runnable (task_pc t) = true -> can_run s i.
Proof.
  intros Hi Hrun. unfold can_run. simpl. unfold process_task. rewrite Hi.
  destruct (task_pc t) as [| |q|q|r|r|e|e| |e| | |] eqn:Hpc; try done;
    try (left; repeat case_match; eexists; (split; [done|]);
         (eapply work_set_pc;
          [exact Hi | by autorewrite with fields | rewrite Hpc; simpl; lia])).
  right. intros gw db.
  destruct (execute (clock s) gw db q) as [[doc|] [e|r]];
    (eexists; (split; [done|]); eapply work_set_pc; eauto; rewrite Hpc; simpl; lia).
Qed.

(** While some task has not ended, some task can run: a task past its gates
    if there is one, else a task at the inner gate, which is then free, else
    a task at the outer gate, which is then free. *)
Lemma progress (s : server) :
  reachable s -> ~ quiescent s -> exists i, can_run s i.
Proof.
  intros Hs Hq. destruct (reachable_accounting s Hs) as [Ht Ha _ _].
  destruct (decide (Exists (fun t => runnable (task_pc t) = true) (tasks s)))
    as [Hrun | Hnone].
  { apply exists_task in Hrun as (i & t & Hi & Hrun). exists i.
    by eapply runnable_can_run. }
  apply not_Exists_Forall in Hnone; [|apply _].
  assert (Na : number holds_ai_permit (tasks s) = 0).
  { apply number_none. eapply Forall_impl; [exact Hnone|].
    intros t Hn. simpl in Hn. by destruct (task_pc t). }
  destruct (decide (Exists (fun t => at_ai_gate (task_pc t) = true) (tasks s)))
    as [Hgate | Hnogate].
  { apply exists_task in Hgate as (i & t & Hi & Hgate). exists i. left.
    simpl. unfold process_task. rewrite Hi.
    destruct (task_pc t) eqn:Hpc; try done.
    assert (Hfree : ai_semaphore s = MAX_CONCURRENT_AI) by lia.
    rewrite Hfree. simpl. eexists. split; [done|].
    eapply work_set_pc; eauto. rewrite Hpc. simpl. lia. }
  apply not_Exists_Forall in Hnogate; [|apply _].
  assert (Nt : number holds_task_permit (tasks s) = 0).
  { apply number_none. apply Forall_forall. intros t Hin.
    rewrite Forall_forall in Hnone, Hnogate.
    specialize (Hnone t Hin). specialize (Hnogate t Hin). simpl in *.
    by destruct (task_pc t). }
  apply not_Forall_Exists in Hq; [|apply _].
  apply Exists_exists in Hq as (t & Hin & Hend).
  apply list_elem_of_lookup in Hin as [i Hi]. exists i. left.
  rewrite Forall_forall in Hnone, Hnogate.
  pose proof (Hnone t (list_elem_of_lookup_2 _ _ _ Hi)) as Hn.
  pose proof (Hnogate t (list_elem_of_lookup_2 _ _ _ Hi)) as Hg.
  simpl in *. unfold process_task. rewrite Hi.
  destruct (task_pc t) eqn:Hpc; try done.
  assert (Hfree : task_semaphore s = MAX_CONCURRENT_TASKS) by lia.
  rewrite Hfree. simpl. eexists. split; [done|].
  eapply work_set_pc; eauto. rewrite Hpc. simpl. lia.
Qed.

(** X5. The two gates cannot deadlock: in every reachable state in which
    [start] has not returned and some task has not ended, some task can
    execute its next statement, whatever the gateway and the database
    answer. *)
Theorem some_task_can_run (s : server) :
  reachable s -> main_returned s = false -> ~ quiescent s -> exists i, can_run s i.
Proof. intros Hs _. exact (progress s Hs). Qed.
End Progress.

Section Completion.
Context `{PyRuntime}.

(** A statement of a task leaves the shutdown event as it is. *)
Lemma task_step_event l s s' :
  is_task_label l = true -> step l s = Some s' -> shutdown_event s' = shutdown_event s.
Proof.
  intros Hl Hstep. destruct l; try done;
    by destruct (step_shutdowns _ s s' Hstep) as [_ ->].
Qed.

(** X6. From every reachable state in which the shutdown event is not set,
    the tasks in flight can all be brought to their end by their own
    statements alone, each of them executed while the event is not set and
    [start] is still in its wait: no message, signal, tick or cancellation
    is needed, and the gateway may be absent. *)
Theorem every_task_can_end (s : server) :
  reachable s ->
  shutdown_event s = false ->
  exists ls s',
    Forall (fun l => is_task_label l = true) ls /\
    run_waiting ls s = Some s' /\ quiescent s' /\ shutdown_event s' = false.
Proof.
  remember (work s) as n eqn:Hn. revert s Hn.
  induction n as [n IH] using lt_wf_ind. intros s -> Hs Hev.
  destruct (decide (quiescent s)) as [Hq | Hq].
  { exists [], s. by repeat split. }
  destruct (progress s Hs Hq) as (i & [(s1 & Hstep & Hlt) | Hexec]).
  - destruct (IH (work s1) Hlt s1 eq_refl) as (ls & s' & Hls & Hrun & Hend).
    { by eapply reachable_step. }
    { by rewrite (task_step_event (Run i) s s1). }
    exists (Run i :: ls), s'. split; [by constructor|]. split; [|done].
    change (run_waiting (Run i :: ls) s) with
      (if shutdown_event s then None
       else match step (Run i) s with Some s1 => run_waiting ls s1 | None => None end).
    by rewrite Hev, Hstep.
  - destruct (Hexec Absent (Inserted (Oid 0))) as (s1 & Hstep & Hlt).
    destruct (IH (work s1) Hlt s1 eq_refl) as (ls & s' & Hls & Hrun & Hend).
    { by eapply reachable_step. }
    { by rewrite (task_step_event (RunExecute i Absent (Inserted (Oid 0))) s s1). }
    exists (RunExecute i Absent (Inserted (Oid 0)) :: ls), s'.
    split; [by constructor|]. split; [|done].
    change (run_waiting (RunExecute i Absent (Inserted (Oid 0)) :: ls) s) with
      (if shutdown_event s then None
       else match step (RunExecute i Absent (Inserted (Oid 0))) s with
            | Some s1 => run_waiting ls s1 | None => None end).
    by rewrite Hev, Hstep.
Qed.
End Completion.

Lemma busy_not_quiescent : ~ quiescent busy.
Proof.
  intros Hq. unfold quiescent in Hq. rewrite Forall_lookup in Hq.
  assert (Ht : exists t, tasks busy !! 0 = Some t) by (by vm_compute; eexists).
  destruct Ht as [t Ht]. specialize (Hq 0 t Ht).
  vm_compute in Ht. injection Ht as <-. done.
Qed.

Lemma some_task_can_run_witness :
  reachable busy /\ main_returned busy = false /\ ~ quiescent busy /\
  exists i, can_run busy i.
Proof.
  split; [exact busy_reachable|]. split; [reflexivity|].
  split; [exact busy_not_quiescent|].
  exact (some_task_can_run busy busy_reachable eq_refl busy_not_quiescent).
Defined.

Lemma every_task_can_end_witness :
  reachable busy /\ shutdown_event busy = false /\
  exists ls s',
    Forall (fun l => is_task_label l = true) ls /\
    run_waiting ls busy = Some s' /\ quiescent s' /\ shutdown_event s' = false.
Proof.
  split; [exact busy_reachable|]. split; [reflexivity|].
  exact (every_task_can_end busy busy_reachable eq_refl).
Defined.

(** ** What a statement hands to the collaborators *)

Section Emissions.
Context `{PyRuntime}.

Lemma step_emits l s s' :
  step l s = Some s' ->
  exists new, log s' = log s ++ new /\ Forall (emitted l s s') new.
Proof.
  intros Hstep. destruct l; simpl in Hstep.
  - destruct (main_returned s); [done|].
    destruct (handle_message s topic payload_bytes) as [e|s1] eqn:Hm;
      injection Hstep as <-; [exists []; by rewrite app_nil_r|].
    apply handle_message_returns in Hm as [-> | [-> | (payload & _ & ->)]].
    + exists []. by rewrite app_nil_r.
    + eexists. split; [apply publish_log|].
      repeat constructor; destruct (is_connected s); simpl; try done;
        by intros m [= <-].
    + exists []. rewrite app_nil_r. split; [|done]. unfold handle_task.
      by destruct (startswith topic "mcp/").
  - injection Hstep as <-. unfold on_connect. destruct (rc =? 0)%Z eqn:Hrc.
    + apply Z.eqb_eq in Hrc as ->.
      eexists. simpl. rewrite <- app_assoc. split; [done|]. by repeat constructor.
    + exists []. by rewrite app_nil_r.
  - injection Hstep as <-. exists []. by rewrite app_nil_r.
  - destruct (main_returned s); [done|]. injection Hstep as <-.
    exists []. by rewrite app_nil_r.
  - injection Hstep as <-. exists []. by rewrite app_nil_r.
  - step_cases Hstep; autorewrite with fields; simpl;
      first [ by (exists []; rewrite app_nil_r)
            | eexists; split; [done|]; repeat constructor;
              by destruct (is_connected s) ].
  - step_cases Hstep; autorewrite with fields; simpl;
      first [ by (exists []; rewrite app_nil_r)
            | eexists; split; [done|]; by repeat constructor ].
  - step_cases Hstep; simpl; autorewrite with fields; simpl;
      first [ by (exists []; rewrite app_nil_r)
            | eexists; split; [done|]; repeat constructor;
              destruct (is_connected s); simpl; try done; by intros m [= <-] ].
  - step_cases Hstep; simpl; autorewrite with fields; simpl;
      first [ by (exists []; rewrite app_nil_r)
            | eexists; split; [done|]; repeat constructor;
              destruct (is_connected s); simpl; try done; by intros m [= <-] ].
  - step_cases Hstep. exists []. by rewrite app_nil_r.
  - step_cases Hstep; autorewrite with fields; simpl; exists []; by rewrite app_nil_r.
  - step_cases Hstep; simpl; exists []; by rewrite app_nil_r.
  - step_cases Hstep; simpl; exists []; by rewrite app_nil_r.
Qed.
End Emissions.

(** ** The connection *)

Lemma is_connected_set_pc i p s : is_connected (set_pc i p s) = is_connected s.
Proof. unfold set_pc. by destruct (tasks s !! i). Qed.

Lemma is_connected_publish o topic body s :
  is_connected (publish o topic body s) = is_connected s.
Proof. apply publish_frame. Qed.

#[export] Hint Rewrite is_connected_set_pc is_connected_publish : fields.


Section Connection.
Context `{PyRuntime}.




End Connection.


(** ** The reporter *)

Lemma reporter_set_pc i p s : reporter (set_pc i p s) = reporter s.
Proof. apply set_pc_frame. Qed.

Lemma reporter_publish o topic body s : reporter (publish o topic body s) = reporter s.
Proof. apply publish_frame. Qed.

#[export] Hint Rewrite reporter_set_pc reporter_publish : fields.

Lemma actor_reporter l : actor l = ByReporter -> l = RunReporter.
Proof. by destruct l. Qed.

Lemma reporter_label l : l = RunReporter \/ l <> RunReporter.
Proof. destruct l; auto. Qed.

Lemma reports_spaced_snoc lg e :
  reports_spaced lg -> reports_before (e_time e) lg -> reports_spaced (lg ++ [e]).
Proof.
  intros Hsp Hbefore k e1 k' e2 Hk He1 Hk' He2 Hlt.
  apply lookup_app_Some in Hk as [Hk | [Hlen Hk]];
    apply lookup_app_Some in Hk' as [Hk' | [Hlen' Hk']].
  - eauto.
  - apply list_lookup_singleton_Some in Hk' as [_ <-]. eauto.
  - pose proof (lookup_lt_Some _ _ _ Hk'). lia.
  - apply list_lookup_singleton_Some in Hk as [Hk _].
    apply list_lookup_singleton_Some in Hk' as [Hk' _]. lia.
Qed.

Lemma reports_spaced_others lg new :
  reports_spaced lg -> Forall (fun e => by_reporter e = false) new ->
  reports_spaced (lg ++ new).
Proof.
  intros Hsp Hnew k e1 k' e2 Hk He1 Hk' He2 Hlt. rewrite Forall_forall in Hnew.
  apply lookup_app_Some in Hk as [Hk | [Hlen Hk]];
    [|by rewrite (Hnew e1 (list_elem_of_lookup_2 _ _ _ Hk)) in He1].
  apply lookup_app_Some in Hk' as [Hk' | [Hlen' Hk']];
    [|by rewrite (Hnew e2 (list_elem_of_lookup_2 _ _ _ Hk')) in He2].
  eauto.
Qed.

Lemma reports_before_others bound lg new :
  reports_before bound lg -> Forall (fun e => by_reporter e = false) new ->
  reports_before bound (lg ++ new).
Proof.
  intros Hb Hnew k e Hk He. rewrite Forall_forall in Hnew.
  apply lookup_app_Some in Hk as [Hk | [Hlen Hk]];
    [|by rewrite (Hnew e (list_elem_of_lookup_2 _ _ _ Hk)) in He].
  eauto.
Qed.

Lemma reports_before_mono bound bound' lg :
  reports_before bound lg -> bound <= bound' -> reports_before bound' lg.
Proof. intros Hb Hle k e Hk He. specialize (Hb k e Hk He). lia. Qed.

Section Reporter.
Context `{PyRuntime}.

(** Nothing but the reporter's own statements and its cancellation moves
    the reporter. *)
Lemma step_reporter l s s' :
  step l s = Some s' -> l <> RunReporter ->
  reporter s' = reporter s \/ reporter s' = ReportCancelled.
Proof.
  intros Hstep Hl. destruct l; simpl in Hstep; try done;
    try (step_cases Hstep; simpl; autorewrite with fields; simpl; by auto).
  - destruct (main_returned s); [done|].
    destruct (handle_message s topic payload_bytes) as [e|s1] eqn:Hm;
      injection Hstep as <-; [by left|].
    apply handle_message_returns in Hm as [-> | [-> | (payload & _ & ->)]];
      [by left | left; by autorewrite with fields |].
    left. unfold handle_task. by destruct (startswith topic "mcp/").
  - injection Hstep as <-. left. unfold on_connect. by destruct (rc =? 0)%Z.
Qed.

Lemma step_reporter_ok l s s' :
  reporter_ok s -> step l s = Some s' -> reporter_ok s'.
Proof.
  intros [Hsp Hst] Hstep.
  destruct (step_shutdown_advances l s s' Hstep) as (Hev & _ & Hclock).
  destruct (reporter_label l) as [-> | Hl].
  - simpl in Hstep. unfold report_metrics in Hstep.
    destruct (reporter s) as [|deadline| |] eqn:Hr; try done.
    + destruct (shutdown_event s) eqn:He; injection Hstep as <-; [by split|].
      destruct Hst as [|Hst]; [done|].
      unfold reporter_ok. simpl. rewrite publish_log. split.
      * by apply reports_spaced_snoc.
      * intros k e Hk Hrep. apply lookup_app_Some in Hk as [Hk | [_ Hk]].
        -- specialize (Hst k e Hk Hrep). lia.
        -- apply list_lookup_singleton_Some in Hk as [_ <-]. simpl. lia.
    + destruct (shutdown_event s || (deadline <=? clock s)%nat) eqn:Hwake; [|done].
      injection Hstep as <-. split; [done|]. simpl.
      apply orb_true_iff in Hwake as [Hwake | Hwake]; [by left|].
      right. apply Nat.leb_le in Hwake. by eapply reports_before_mono.
  - destruct (step_emits l s s' Hstep) as (new & Hlog & Hnew).
    assert (Hothers : Forall (fun e => by_reporter e = false) new).
    { eapply Forall_impl; [exact Hnew|]. intros e (Ho & _). unfold by_reporter.
      destruct (e_origin e) eqn:Hor; try done.
      symmetry in Ho. by apply actor_reporter in Ho. }
    split; [rewrite Hlog; by apply reports_spaced_others|].
    destruct (step_reporter l s s' Hstep Hl) as [-> | ->]; [|done].
    destruct (reporter s); try done.
    + destruct Hst as [Hst | Hst]; [left; auto|].
      right. rewrite Hlog. apply reports_before_others; [|done].
      by eapply reports_before_mono.
    + rewrite Hlog. by apply reports_before_others.
Qed.

Lemma reachable_reporter_ok s : reachable s -> reporter_ok s.
Proof.
  induction 1 as [|l s s' _ IH Hstep].
  - split; [by intros k e k' e' Hk|]. simpl. right. by intros k e Hk.
  - by eapply step_reporter_ok.
Qed.

Lemma step_event_recorded l s s' :
  event_recorded s -> step l s = Some s' -> event_recorded s'.
Proof.
  intros [Hset Hord] Hstep.
  destruct (step_shutdown_advances l s s' Hstep) as (Hev & _ & _).
  destruct (step_emits l s s' Hstep) as (new & Hlog & Hnew).
  rewrite Forall_forall in Hnew. split.
  - intros k e Hk He. rewrite Hlog in Hk.
    apply lookup_app_Some in Hk as [Hk | [_ Hk]]; [eauto|].
    destruct (Hnew e (list_elem_of_lookup_2 _ _ _ Hk)) as (_ & _ & _ & _ & Hs' & _).
    auto.
  - intros k e k' e' Hk He Hk' He'. rewrite Hlog in Hk, Hk'.
    apply lookup_app_Some in Hk as [Hk | [Hlen Hk]];
      apply lookup_app_Some in Hk' as [Hk' | [Hlen' Hk']].
    + eauto.
    + exfalso.
      destruct (Hnew e' (list_elem_of_lookup_2 _ _ _ Hk'))
        as (Ho & _ & _ & _ & _ & Hrep & _).
      unfold by_reporter in He'. destruct (e_origin e') eqn:Hor; try done.
      symmetry in Ho. apply actor_reporter in Ho.
      specialize (Hrep Ho). specialize (Hset k e Hk He). congruence.
    + pose proof (lookup_lt_Some _ _ _ Hk'). lia.
    + exfalso.
      destruct (Hnew e' (list_elem_of_lookup_2 _ _ _ Hk'))
        as (Ho' & _ & _ & _ & _ & _).
      destruct (Hnew e (list_elem_of_lookup_2 _ _ _ Hk))
        as (Ho & _ & _ & _ & _ & _).
      unfold by_reporter in He'. destruct (e_origin e') eqn:Hor; try done.
      symmetry in Ho'. apply actor_reporter in Ho'. subst l.
      destruct e as [time origin []]; simpl in *; try done.
      pose proof (step_appends RunReporter s s' Hstep) as (new' & Hlog' & Hnew').
      rewrite Hlog in Hlog'. apply app_inv_head in Hlog'. subst new'.
      rewrite Forall_forall in Hnew'.
      destruct (Hnew' _ (list_elem_of_lookup_2 _ _ _ Hk)) as (_ & _ & Hno).
      by specialize (Hno eq_refl).
Qed.

Lemma reachable_event_recorded s : reachable s -> event_recorded s.
Proof.
  induction 1 as [|l s s' _ IH Hstep].
  - split; [by intros k e Hk|]. by intros k e k' e' Hk.
  - by eapply step_event_recorded.
Qed.

(** X8. The metrics are reported at most once per reporting interval: two
    calls of [publish] by [report_metrics], whether they reached the client
    or not, are at least [METRICS_REPORTING_INTERVAL] seconds apart. *)
Theorem reports_are_spaced (s : server) (k k' : nat) (e e' : entry) :
  reachable s ->
  log s !! k = Some e -> e_origin e = ByReporter ->
  log s !! k' = Some e' -> e_origin e' = ByReporter ->
  (k < k')%nat ->
  e_time e + METRICS_REPORTING_INTERVAL <= e_time e'.
Proof.
  intros Hs Hk He Hk' He' Hlt.
  destruct (reachable_reporter_ok s Hs) as [Hsp _].
  apply (Hsp k e k' e'); try done; unfold by_reporter; by rewrite ?He, ?He'.
Qed.

(** X9. Once the shutdown event is set the metrics are not reported again:
    in the log no call of [publish] by [report_metrics] comes after the
    [set] of the event, so the reporter sends no final report. *)
Theorem no_report_after_shutdown_event (s : server) (k k' : nat) (e e' : entry) :
  reachable s ->
  log s !! k = Some e -> e_effect e = SetShutdownEvent ->
  log s !! k' = Some e' -> e_origin e' = ByReporter ->
  (k' < k)%nat.
Proof.
  intros Hs Hk He Hk' He'.
  destruct (reachable_event_recorded s Hs) as [_ Hord].
  apply (Hord k e k' e'); try done.
  - by rewrite He.
  - unfold by_reporter. by rewrite He'.
Qed.
End Reporter.

Lemma reporting_reachable : reachable reporting.
Proof. apply (run_reachable reporting_labels init); [constructor | by vm_compute]. Qed.

Lemma reported_reachable : reachable reported.
Proof. apply (run_reachable reported_labels init); [constructor | by vm_compute]. Qed.

Lemma reports_are_spaced_witness :
  reachable reporting /\
  exists e e',
    log reporting !! 2 = Some e /\ e_origin e = ByReporter /\
    log reporting !! 3 = Some e' /\ e_origin e' = ByReporter /\
    (2 < 3)%nat /\
    e_time e + METRICS_REPORTING_INTERVAL <= e_time e'.
Proof.
  split; [exact reporting_reachable|].
  destruct (log reporting !! 2) as [e|] eqn:He; [|by vm_compute in He].
  destruct (log reporting !! 3) as [e'|] eqn:He'; [|by vm_compute in He'].
  exists e, e'.
  assert (Ho : e_origin e = ByReporter).
  { vm_compute in He. by injection He as <-. }
  assert (Ho' : e_origin e' = ByReporter).
  { vm_compute in He'. by injection He' as <-. }
  assert (Hlt : (2 < 3)%nat) by lia.
  repeat (split; [done|]).
  exact (reports_are_spaced reporting 2 3 e e' reporting_reachable He Ho He' Ho' Hlt).
Defined.

Lemma no_report_after_shutdown_event_witness :
  reachable reported /\
  exists e e',
    log reported !! 3 = Some e /\ e_effect e = SetShutdownEvent /\
    log reported !! 0 = Some e' /\ e_origin e' = ByReporter /\
    (0 < 3)%nat.
Proof.
  split; [exact reported_reachable|].
  destruct (log reported !! 3) as [e|] eqn:He; [|by vm_compute in He].
  destruct (log reported !! 0) as [e'|] eqn:He'; [|by vm_compute in He'].
  exists e, e'.
  assert (Hset : e_effect e = SetShutdownEvent).
  { vm_compute in He. by injection He as <-. }
  assert (Ho' : e_origin e' = ByReporter).
  { vm_compute in He'. by injection He' as <-. }
  repeat (split; [done|]).
  exact (no_report_after_shutdown_event reported 3 0 e e' reported_reachable
           He Hset He' Ho').
Defined.

(** ** The target agent of a topic *)

Lemma not_contains_char (sep c : ascii) (w : string) :
  Ascii.eqb c sep = false ->
  contains (String sep "") w = false ->
  contains (String sep "") (String c w) = false.
Proof.
  intros Hne Hw. change (contains (String sep "") (String c w))
    with (String.prefix (String sep "") (String c w) || contains (String sep "") w).
  rewrite Hw. simpl. destruct (ascii_dec sep c) as [->|]; [|done].
  by rewrite Ascii.eqb_refl in Hne.
Qed.

(** The first piece of [s.split(sep)] is the text in front of the first
    separator. *)
Lemma split_head (sep : ascii) (s : string) :
  exists w ws rest,
    split sep s = w :: ws /\ s = w +:+ rest /\
    contains (String sep "") w = false /\
    (rest = "" \/ startswith rest (String sep "") = true).
Proof.
  induction s as [|c s (w & ws & rest & Hsplit & Hs & Hw & Hrest)].
  - exists "", [], "". repeat split; auto.
  - simpl. destruct (Ascii.eqb c sep) eqn:Hc.
    + apply Ascii.eqb_eq in Hc as ->.
      exists "", (split sep s), (String sep s). repeat split; auto.
      right. unfold startswith. simpl. destruct (ascii_dec sep sep); [|done].
      by destruct s.
    + rewrite Hsplit. exists (String c w), ws, rest. split; [done|].
      split; [by rewrite append_cons, <- Hs|].
      split; [by apply not_contains_char | done].
Qed.

Section TargetAgent.
Context `{PyRuntime}.

(** X10. On a topic that starts with mcp/ the target agent is the text
    between that prefix and the next slash, or the end of the topic; it may
    be empty, and the default [user] is never used. *)
Theorem target_agent_of_topic (s : server) (topic payload : string) :
  startswith topic "mcp/" = true ->
  exists agent rest,
    topic = "mcp/" +:+ agent +:+ rest /\
    contains "/" agent = false /\
    (rest = "" \/ startswith rest "/" = true) /\
    handle_task s topic payload =
      spawn_task payload agent (set_metrics (increment_received (metrics s)).1 s).
Proof.
  intros Hstart. unfold handle_task. rewrite Hstart.
  apply prefix_iff_append in Hstart as [tail ->].
  destruct (split_head "/" tail) as (agent & ws & rest & Hsplit & -> & Hagent & Hrest).
  exists agent, rest. repeat (split; [done|]).
  change ("mcp/" +:+ agent +:+ rest)
    with (String "m" (String "c" (String "p" (String "/" (agent +:+ rest))))).
  simpl. rewrite Hsplit. reflexivity.
Qed.
End TargetAgent.

Lemma target_agent_of_topic_witness :
  startswith "mcp/alice" "mcp/" = true /\
  exists agent rest,
    "mcp/alice" = "mcp/" +:+ agent +:+ rest /\
    contains "/" agent = false /\
    (rest = "" \/ startswith rest "/" = true) /\
    handle_task init "mcp/alice" urgent_payload =
      spawn_task urgent_payload agent
        (set_metrics (increment_received (metrics init)).1 init).
Proof.
  split; [reflexivity|].
  exact (target_agent_of_topic init "mcp/alice" urgent_payload eq_refl).
Defined.

(** ** What a task has handed to the collaborators *)

Lemma calls_of_app i l1 l2 : calls_of i (l1 ++ l2) = calls_of i l1 ++ calls_of i l2.
Proof. unfold calls_of. by rewrite filter_app, fmap_app. Qed.

Lemma calls_of_others i new :
  Forall (fun e => e_origin e <> ByTask i) new -> calls_of i new = [].
Proof.
  induction 1 as [|e new He _ IH]; [done|].
  unfold calls_of in *. rewrite filter_cons. by destruct (decide _).
Qed.

Lemma calls_of_own i new :
  Forall (fun e => e_origin e = ByTask i) new -> calls_of i new = e_effect <$> new.
Proof.
  induction 1 as [|e new He _ IH]; [done|].
  unfold calls_of in *. rewrite filter_cons. destruct (decide _); [|done].
  rewrite !fmap_cons. by f_equal.
Qed.

Lemma calls_of_elem i lg k e :
  lg !! k = Some e -> e_origin e = ByTask i -> e_effect e ∈ calls_of i lg.
Proof.
  intros Hk Ho. unfold calls_of. apply list_elem_of_fmap. exists e. split; [done|].
  apply list_elem_of_filter. split; [done|]. by eapply list_elem_of_lookup_2.
Qed.

Section TaskLog.
Context `{PyRuntime}.

Lemma parse_payload_params payload target_agent p :
  parse_payload payload target_agent = inr p ->
  params_command p = Some "add" /\
  params_context p = Some "wyrmwatch_server" /\
  params_target_agent p = Some target_agent /\
  params_project p = None /\
  exists d, params_description p = Some d.
Proof.
  unfold parse_payload. intros Hp.
  repeat case_match; simplify_eq; simpl; eauto 10.
Qed.

Lemma execute_add now gw db p :
  params_command p = Some "add" ->
  exists doc outcome, execute now gw db p = (Some doc, outcome).
Proof.
  intros Hc. unfold execute. rewrite Hc.
  destruct (add_todo _ _ _ _ _ _ _) as [doc outcome]. by exists doc, outcome.
Qed.

(** A step that is no statement of a task and cancels none. *)
Lemma task_log_frame s s' new :
  task_log_ok s ->
  log s' = log s ++ new ->
  Forall (fun e => forall i, e_origin e <> ByTask i) new ->
  (tasks s' = tasks s \/
   exists payload target_agent,
     tasks s' = tasks s ++ [{| task_payload := payload;
                               task_target_agent := target_agent;
                               task_pc := AcquireTask |}]) ->
  task_log_ok s'.
Proof.
  intros [Hcalls Hfresh] Hlog Hnew Hts.
  assert (Hsame : forall i, calls_of i (log s') = calls_of i (log s)).
  { intros i. rewrite Hlog, calls_of_app, (calls_of_others i new), app_nil_r; [done|].
    eapply Forall_impl; [exact Hnew|]. by intros e He. }
  split.
  - intros i t Hi. rewrite Hsame.
    destruct Hts as [Hts | (payload & target_agent & Hts)]; rewrite Hts in Hi; [eauto|].
    apply lookup_app_Some in Hi as [Hi | [Hlen Hi]]; [eauto|].
    apply list_lookup_singleton_Some in Hi as [_ <-].
    unfold task_calls. simpl. by apply Hfresh.
  - intros i Hlen. rewrite Hsame. apply Hfresh.
    destruct Hts as [Hts | (payload & target_agent & Hts)]; rewrite Hts in Hlen; [done|].
    rewrite length_app in Hlen. simpl in Hlen. lia.
Qed.

(** Task [i] moves from the statement of [t] to [p] and makes the calls
    [new]. *)
Lemma task_log_advance s s' i t p new :
  task_log_ok s ->
  tasks s !! i = Some t ->
  tasks s' = <[i := moved t p]> (tasks s) ->
  log s' = log s ++ new ->
  Forall (fun e => e_origin e = ByTask i) new ->
  (forall calls, task_calls t calls -> task_calls (moved t p) (calls ++ (e_effect <$> new))) ->
  task_log_ok s'.
Proof.
  intros [Hcalls Hfresh] Hi Hts Hlog Hnew Hmove. split.
  - intros j u Hj. rewrite Hts in Hj. rewrite Hlog, calls_of_app.
    destruct (decide (i = j)) as [<- | Hne].
    + rewrite list_lookup_insert_eq in Hj by (by eapply lookup_lt_Some).
      injection Hj as <-. rewrite (calls_of_own i new Hnew). eauto.
    + rewrite list_lookup_insert_ne in Hj by done.
      rewrite (calls_of_others j new), app_nil_r; [eauto|].
      eapply Forall_impl; [exact Hnew|]. intros e He. simpl in He. congruence.
  - intros j Hlen. rewrite Hts, length_insert in Hlen.
    rewrite Hlog, calls_of_app, (Hfresh j Hlen).
    apply calls_of_others. eapply Forall_impl; [exact Hnew|].
    intros e He. simpl in He. rewrite He. intros [= ->].
    apply lookup_lt_Some in Hi. lia.
Qed.
End TaskLog.

Section TaskLogSteps.
Context `{PyRuntime}.

Lemma step_tasks_others l s s' :
  step l s = Some s' ->
  is_task_label l = false -> (forall i, l <> CancelTask i) ->
  tasks s' = tasks s \/
  exists payload target_agent,
    tasks s' = tasks s ++ [{| task_payload := payload;
                              task_target_agent := target_agent;
                              task_pc := AcquireTask |}].
Proof.
  intros Hstep Hl Hc. destruct l; simpl in Hstep; try done.
  - destruct (main_returned s); [done|].
    destruct (handle_message s topic payload_bytes) as [e|s1] eqn:Hm;
      injection Hstep as <-; [by left|].
    apply handle_message_returns in Hm as [-> | [-> | (payload & _ & ->)]].
    + by left.
    + left. by autorewrite with fields.
    + unfold handle_task. destruct (startswith topic "mcp/"); [|by left].
      right. by eexists _, _.
  - injection Hstep as <-. left. unfold on_connect. by destruct (rc =? 0)%Z.
  - injection Hstep as <-. by left.
  - destruct (main_returned s); [done|]. injection Hstep as <-. by left.
  - injection Hstep as <-. by left.
  - step_cases Hstep; left; simpl; by autorewrite with fields.
  - step_cases Hstep; left; simpl; by autorewrite with fields.
  - step_cases Hstep. by left.
  - by specialize (Hc i).
  - step_cases Hstep; by left.
  - step_cases Hstep; by left.
Qed.

Lemma process_task_log_ok i reply s s' :
  task_log_ok s -> process_task i reply s = Some s' -> task_log_ok s'.
Proof.
  intros Hok Hstep. unfold process_task in Hstep.
  destruct (tasks s !! i) as [t|] eqn:Hi; [|done].
  destruct (task_pc t) as [| |q|q|r|r|e|e| |e| | |] eqn:Hpc; try done;
    destruct reply as [[gw db]|]; try done.
  - (* acquire the task permit *)
    destruct (0 <? task_semaphore s)%nat; [|done]. injection Hstep as <-.
    apply (task_log_advance s _ i t Parse [] Hok Hi);
      [by rewrite (set_pc_tasks _ _ _ t) | by rewrite log_set_pc, app_nil_r | done |].
    intros calls. unfold task_calls. rewrite Hpc. simpl. intros ->. done.
  - (* parse the payload *)
    destruct (parse_payload (task_payload t) (task_target_agent t)) as [e|p] eqn:Hparse;
      injection Hstep as <-.
    + apply (task_log_advance s _ i t (OuterIncrementFailed e) [] Hok Hi);
        [by rewrite (set_pc_tasks _ _ _ t) | by rewrite log_set_pc, app_nil_r | done |].
      intros calls. unfold task_calls. rewrite Hpc. simpl. by intros ->.
    + apply (task_log_advance s _ i t (AcquireAI p) [] Hok Hi);
        [by rewrite (set_pc_tasks _ _ _ t) | by rewrite log_set_pc, app_nil_r | done |].
      intros calls. unfold task_calls. rewrite Hpc. simpl. by intros ->.
  - (* acquire the enrichment permit *)
    destruct (0 <? ai_semaphore s)%nat; [|done]. injection Hstep as <-.
    apply (task_log_advance s _ i t (Execute q) [] Hok Hi);
      [by rewrite (set_pc_tasks _ _ _ t) | by rewrite log_set_pc, app_nil_r | done |].
    intros calls. unfold task_calls. rewrite Hpc. simpl. by intros [-> ?].
  - (* execute *)
    assert (Hparse : parse_payload (task_payload t) (task_target_agent t) = inr q).
    { destruct Hok as [Hcalls _]. specialize (Hcalls i t Hi).
      unfold task_calls in Hcalls. rewrite Hpc in Hcalls. by destruct Hcalls. }
    destruct (parse_payload_params _ _ _ Hparse) as (Hcommand & _).
    destruct (execute_add (clock s) gw db q Hcommand) as (doc & outcome & Hexec).
    rewrite Hexec in Hstep.
    destruct outcome as [e|r]; injection Hstep as <-.
    + apply (task_log_advance s _ i t (IncrementFailed e)
               [{| e_time := clock s; e_origin := ByTask i; e_effect := InsertOne doc db |}]
               Hok Hi);
        [by rewrite (set_pc_tasks _ _ _ t) | by rewrite log_set_pc
        | by repeat constructor |].
      intros calls. unfold task_calls. rewrite Hpc. simpl. intros [-> _].
      exists doc, db. split; [|done]. by exists q, (clock s), gw.
    + apply (task_log_advance s _ i t (IncrementProcessed r)
               [{| e_time := clock s; e_origin := ByTask i; e_effect := InsertOne doc db |}]
               Hok Hi);
        [by rewrite (set_pc_tasks _ _ _ t) | by rewrite log_set_pc
        | by repeat constructor |].
      intros calls. unfold task_calls. rewrite Hpc. simpl. intros [-> _].
      exists doc, db. split; [|done]. by exists q, (clock s), gw.
  - (* count the task as processed *)
    injection Hstep as <-.
    apply (task_log_advance s _ i t (PublishSuccess r) [] Hok Hi);
      [by rewrite (set_pc_tasks _ _ _ t) | by rewrite log_set_pc, app_nil_r | done |].
    intros calls. unfold task_calls. rewrite Hpc. simpl. by rewrite app_nil_r.
  - (* publish the success response *)
    injection Hstep as <-.
    apply (task_log_advance s _ i t ReleaseAI
             [{| e_time := clock s; e_origin := ByTask i;
                 e_effect := if is_connected s
                             then Publish ("response/" +:+ task_target_agent t +:+ "/todo")
                                    (SuccessPayload r (clock s))
                             else Refused ("response/" +:+ task_target_agent t +:+ "/todo")
                                    (SuccessPayload r (clock s)) |}] Hok Hi);
      [ rewrite (set_pc_tasks _ _ _ t) by (by autorewrite with fields);
        by autorewrite with fields
      | by rewrite log_set_pc, publish_log | by repeat constructor |].
    intros calls. unfold task_calls. rewrite Hpc. simpl.
    intros (doc & db & Hwrote & ->).
    eexists (inr r), doc, db, _. split; [done|]. split; [|done].
    exists (clock s). destruct (is_connected s); auto.
  - (* count the task as failed *)
    injection Hstep as <-.
    apply (task_log_advance s _ i t (PublishError e) [] Hok Hi);
      [by rewrite (set_pc_tasks _ _ _ t) | by rewrite log_set_pc, app_nil_r | done |].
    intros calls. unfold task_calls. rewrite Hpc. simpl. by rewrite app_nil_r.
  - (* publish the error response *)
    injection Hstep as <-.
    apply (task_log_advance s _ i t ReleaseAI
             [{| e_time := clock s; e_origin := ByTask i;
                 e_effect := if is_connected s
                             then Publish ("response/" +:+ task_target_agent t +:+ "/error")
                                    (ErrorPayload e (clock s))
                             else Refused ("response/" +:+ task_target_agent t +:+ "/error")
                                    (ErrorPayload e (clock s)) |}] Hok Hi);
      [ rewrite (set_pc_tasks _ _ _ t) by (by autorewrite with fields);
        by autorewrite with fields
      | by rewrite log_set_pc, publish_log | by repeat constructor |].
    intros calls. unfold task_calls. rewrite Hpc. simpl.
    intros (doc & db & Hwrote & ->).
    eexists (inl e), doc, db, _. split; [done|]. split; [|done].
    exists (clock s). destruct (is_connected s); auto.
  - (* release the enrichment permit *)
    injection Hstep as <-.
    apply (task_log_advance s _ i t ReleaseTask [] Hok Hi);
      [by rewrite (set_pc_tasks _ _ _ t) | by rewrite log_set_pc, app_nil_r | done |].
    intros calls. unfold task_calls. rewrite Hpc. simpl. rewrite app_nil_r. by right.
  - (* the outer handler counts the task as failed *)
    injection Hstep as <-.
    apply (task_log_advance s _ i t ReleaseTask [] Hok Hi);
      [by rewrite (set_pc_tasks _ _ _ t) | by rewrite log_set_pc, app_nil_r | done |].
    intros calls. unfold task_calls. rewrite Hpc. simpl. intros [-> Hparse].
    left. split; [done|]. by exists e.
  - (* release the task permit *)
    injection Hstep as <-.
    apply (task_log_advance s _ i t Finished [] Hok Hi);
      [by rewrite (set_pc_tasks _ _ _ t) | by rewrite log_set_pc, app_nil_r | done |].
    intros calls. unfold task_calls. rewrite Hpc. simpl. by rewrite app_nil_r.
Qed.

Lemma step_task_log_ok l s s' : task_log_ok s -> step l s = Some s' -> task_log_ok s'.
Proof.
  intros Hok Hstep.
  destruct (is_task_label l) eqn:Hl.
  { destruct l; try done; simpl in Hstep; by eapply process_task_log_ok. }
  destruct (step_emits l s s' Hstep) as (new & Hlog & Hnew).
  assert (Hothers : Forall (fun e => forall i, e_origin e <> ByTask i) new).
  { eapply Forall_impl; [exact Hnew|]. intros e (Ho & _) i. rewrite Ho.
    by destruct l. }
  destruct l; try (eapply task_log_frame; eauto; by eapply step_tasks_others).
  simpl in Hstep. unfold cancel_task in Hstep.
  destruct (main_returned s); [|done].
  destruct (tasks s !! i) as [t|] eqn:Hi; [|done]. simpl in Hstep.
  destruct (task_pc t) eqn:Hpc; try done; injection Hstep as <-;
    (apply (task_log_advance s _ i t Cancelled [] Hok Hi);
     [ by rewrite (set_pc_tasks _ _ _ t) | by rewrite log_set_pc, app_nil_r | done
     | intros calls; unfold task_calls; rewrite Hpc; simpl; rewrite app_nil_r; tauto ]).
Qed.

Lemma reachable_task_log_ok s : reachable s -> task_log_ok s.
Proof.
  induction 1 as [|l s s' _ IH Hstep].
  - split; [by intros i t Hi | done].
  - by eapply step_task_log_ok.
Qed.
End TaskLogSteps.

Section TaskRecords.
Context `{PyRuntime}.

(** Neither the gateway nor the heuristics give an empty project. *)
Lemma enhance_project gw description enhanced priority project :
  enhance_todo_description gw description = inr (enhanced, priority, project) ->
  project <> "".
Proof.
  unfold enhance_todo_description, simple_enhancement. intros He.
  repeat case_match; simplify_eq; try done.
  all: match goal with E : String.eqb _ "" = false |- _ =>
         by apply String.eqb_neq in E end.
Qed.

Lemma add_todo_record now gw db description context target_agent project doc outcome :
  add_todo now gw db description context target_agent (Some project) = (doc, outcome) ->
  todo_description doc = description /\
  todo_target_agent doc = target_agent /\
  todo_status doc = PENDING /\
  todo_context doc = context /\
  (project <> "" -> todo_project doc <> "").
Proof.
  unfold add_todo. intros Ha.
  destruct (enhance_todo_description gw description) as [e|[[enhanced priority] name]] eqn:He;
    injection Ha as <- _; simpl; repeat (split; [done|]).
  - by destruct project.
  - intros _. by eapply enhance_project.
Qed.

Lemma wrote_record t outcome doc db :
  wrote t outcome doc db ->
  parsed_description (parse_payload (task_payload t) (task_target_agent t))
    = Some (todo_description doc) /\
  todo_target_agent doc = task_target_agent t /\
  todo_status doc = PENDING /\
  todo_context doc = Some "wyrmwatch_server" /\
  todo_project doc <> "".
Proof.
  intros (p & now & gw & Hparse & Hexec). rewrite Hparse. simpl.
  destruct (parse_payload_params _ _ _ Hparse) as (Hc & Hctx & Hagent & Hproject & d & Hd).
  unfold execute in Hexec. rewrite Hc, Hctx, Hagent, Hproject, Hd in Hexec. simpl in Hexec.
  destruct (add_todo _ _ _ _ _ _ _) as [doc' outcome'] eqn:Ha.
  injection Hexec as <- <-.
  destruct (add_todo_record _ _ _ _ _ _ _ _ _ Ha) as (-> & -> & -> & -> & Hp).
  repeat (split; [done|]). by apply Hp.
Qed.

(** X11. Every record a task hands to [insert_one] carries the description
    parsed from the task's own payload and the agent of its topic, is
    pending, has the context wyrmwatch_server and a project name that is
    not empty. *)
Theorem task_records (s : server) (k i : nat) (e : entry) (doc : todo) (db : insert_reply) :
  reachable s ->
  log s !! k = Some e -> e_origin e = ByTask i -> e_effect e = InsertOne doc db ->
  exists t,
    tasks s !! i = Some t /\
    parsed_description (parse_payload (task_payload t) (task_target_agent t))
      = Some (todo_description doc) /\
    todo_target_agent doc = task_target_agent t /\
    todo_status doc = PENDING /\
    todo_context doc = Some "wyrmwatch_server" /\
    todo_project doc <> "".
Proof.
  intros Hs Hk Ho He. destruct (reachable_task_log_ok s Hs) as [Hcalls Hfresh].
  pose proof (calls_of_elem i (log s) k e Hk Ho) as Hin. rewrite He in Hin.
  destruct (tasks s !! i) as [t|] eqn:Hi.
  2:{ apply lookup_ge_None in Hi. rewrite (Hfresh i Hi) in Hin. by apply elem_of_nil in Hin. }
  exists t. split; [done|]. specialize (Hcalls i t Hi).
  assert (Hw : exists outcome, wrote t outcome doc db).
  { unfold task_calls in Hcalls.
    destruct (task_pc t);
      repeat match goal with
      | Hc : _ \/ _ |- _ => destruct Hc
      | Hc : unparsed _ _ |- _ => destruct Hc as [Hc _]
      | Hc : _ = [] /\ _ |- _ => destruct Hc as [Hc _]
      | Hc : calls_of _ _ = [] |- _ => rewrite Hc in Hin; by apply elem_of_nil in Hin
      | Hc : written _ _ _ |- _ =>
          destruct Hc as (doc' & db' & Hw & Hc); rewrite Hc in Hin;
          apply list_elem_of_singleton in Hin; injection Hin as -> ->; by eexists
      | Hc : answered _ _ |- _ =>
          destruct Hc as (outcome & doc' & db' & e' & Hw & Hr & Hc); rewrite Hc in Hin;
          apply elem_of_cons in Hin as [Hin | Hin];
          [ injection Hin as -> ->; by eexists
          | apply list_elem_of_singleton in Hin; subst e';
            destruct Hr as [now Hr]; destruct outcome; by destruct Hr ]
      end. }
  destruct Hw as [outcome Hw]. by eapply wrote_record.
Qed.

(** X12. A task calls [insert_one] at most once and [publish] at most once,
    in this order: its calls are none, or one insert, or one insert and
    then the response on the topic of its agent, which carries what the
    insert gave: the success payload with the result [execute] returned, or
    the error payload with the exception it raised. *)
Theorem task_calls_in_order (s : server) (i : nat) (t : task) :
  reachable s -> tasks s !! i = Some t ->
  calls_of i (log s) = [] \/
  (exists outcome, written t outcome (calls_of i (log s))) \/
  answered t (calls_of i (log s)).
Proof.
  intros Hs Hi. destruct (reachable_task_log_ok s Hs) as [Hcalls _].
  specialize (Hcalls i t Hi). unfold task_calls in Hcalls.
  destruct (task_pc t); try tauto; try (right; left; by eexists).
  - destruct Hcalls as [[? _] | ?]; tauto.
  - destruct Hcalls as [[? _] | ?]; tauto.
Qed.

(** X13. A task that has finished has made its insert and published its
    one response, with one exception: when the parse of its payload raised,
    it has called nothing, so that nobody is told of the failure. *)
Theorem finished_task_calls (s : server) (i : nat) (t : task) :
  reachable s -> tasks s !! i = Some t -> task_pc t = Finished ->
  unparsed t (calls_of i (log s)) \/ answered t (calls_of i (log s)).
Proof.
  intros Hs Hi Hpc. destruct (reachable_task_log_ok s Hs) as [Hcalls _].
  specialize (Hcalls i t Hi). unfold task_calls in Hcalls. by rewrite Hpc in Hcalls.
Qed.
End TaskRecords.

(** ** Responses against the counters *)

Lemma responses_set_pc i p s s0 t new :
  tasks s !! i = Some t ->
  tasks s0 = tasks s ->
  log s0 = log s ++ new ->
  responses_counted s ->
  tasks_processed (metrics s0) + weight at_publish_success t
    = tasks_processed (metrics s) + count_log is_success_response new
      + (if at_publish_success p then 1 else 0) ->
  tasks_failed (metrics s) + count_log is_error_response new
    + (if at_publish_error p then 1 else 0)
    <= tasks_failed (metrics s0) + weight at_publish_error t ->
  responses_counted (set_pc i p s0).
Proof.
  intros Hi Hts Hlog [Hsucc Herr] Hp Hf.
  assert (Hi0 : tasks s0 !! i = Some t) by by rewrite Hts.
  pose proof (number_set_pc at_publish_success i p s0 t Hi0) as Ns.
  pose proof (number_set_pc at_publish_error i p s0 t Hi0) as Ne.
  rewrite Hts in Ns, Ne. unfold weight in *. unfold responses_counted.
  rewrite log_set_pc, metrics_set_pc, Hlog, !count_log_app. lia.
Qed.

(** A statement of task [t] that calls nothing, or only [insert_one]. *)
Ltac silent_step Hi Hok Hpc t new :=
  eapply (responses_set_pc _ _ _ _ t new);
  [exact Hi | reflexivity | by rewrite ?app_nil_r | exact Hok | |];
  unfold weight; rewrite ?Hpc; simpl; lia.

Ltac response_step Hi Hok Hpc t s :=
  eapply (responses_set_pc _ _ _ _ t [_]);
  [exact Hi | apply tasks_publish | apply publish_log | exact Hok | |];
  unfold weight; rewrite ?Hpc, ?metrics_publish; simpl;
  destruct (is_connected s); simpl; lia.

Section Responses.
Context `{PyRuntime}.

Lemma process_task_responses i reply s s' :
  responses_counted s -> process_task i reply s = Some s' -> responses_counted s'.
Proof.
  intros Hok. unfold process_task.
  destruct (tasks s !! i) as [t|] eqn:Hi; [|done].
  destruct (task_pc t) eqn:Hpc, reply as [[gw db]|]; try done.
  - destruct (0 <? task_semaphore s)%nat; [|done]. intros [= <-].
    silent_step Hi Hok Hpc t (@nil entry).
  - destruct (parse_payload _ _); intros [= <-]; silent_step Hi Hok Hpc t (@nil entry).
  - destruct (0 <? ai_semaphore s)%nat; [|done]. intros [= <-].
    silent_step Hi Hok Hpc t (@nil entry).
  - destruct (execute _ _ _ _) as [[doc|] [e|r]]; intros [= <-];
      first [ silent_step Hi Hok Hpc t (@nil entry)
            | silent_step Hi Hok Hpc t
                [{| e_time := clock s; e_origin := ByTask i;
                    e_effect := InsertOne doc db |}] ].
  - intros [= <-]. silent_step Hi Hok Hpc t (@nil entry).
  - intros [= <-]. response_step Hi Hok Hpc t s.
  - intros [= <-]. silent_step Hi Hok Hpc t (@nil entry).
  - intros [= <-]. response_step Hi Hok Hpc t s.
  - intros [= <-]. silent_step Hi Hok Hpc t (@nil entry).
  - intros [= <-]. silent_step Hi Hok Hpc t (@nil entry).
  - intros [= <-]. silent_step Hi Hok Hpc t (@nil entry).
Qed.

(** Only a task's own statements move [processed] and [failed]. *)
Lemma step_others_outcomes l s s' :
  step l s = Some s' -> is_task_label l = false ->
  tasks_processed (metrics s') = tasks_processed (metrics s) /\
  tasks_failed (metrics s') = tasks_failed (metrics s).
Proof.
  intros Hstep Hl. destruct l; simpl in Hstep; try done;
    try (step_cases Hstep; simpl; autorewrite with fields; by simpl).
  - destruct (main_returned s); [done|].
    destruct (handle_message s topic payload_bytes) as [e|s1] eqn:Hm;
      injection Hstep as <-; [done|].
    apply handle_message_returns in Hm as [-> | [-> | (payload & _ & ->)]];
      [done | by autorewrite with fields |].
    unfold handle_task. by destruct (startswith topic "mcp/").
  - injection Hstep as <-. unfold on_connect. by destruct (rc =? 0)%Z.
Qed.

Lemma step_responses_counted l s s' :
  responses_counted s -> step l s = Some s' -> responses_counted s'.
Proof.
  intros Hok Hstep.
  destruct (is_task_label l) eqn:Hl.
  { destruct l; try done; simpl in Hstep; by eapply process_task_responses. }
  assert (Hcancel : (exists i, l = CancelTask i) \/ forall i, l <> CancelTask i)
    by (destruct l; eauto).
  destruct Hcancel as [[i ->] | Hc].
  - simpl in Hstep. unfold cancel_task in Hstep. destruct (main_returned s); [|done].
    destruct (tasks s !! i) as [t|] eqn:Hi; [|done]. simpl in Hstep.
    destruct (task_pc t) eqn:Hpc; try done; injection Hstep as <-;
      silent_step Hi Hok Hpc t (@nil entry).
  - destruct (step_emits l s s' Hstep) as (new & Hlog & Hnew).
    destruct (step_others_outcomes l s s' Hstep Hl) as [Hp Hf].
    assert (Hs : count_log is_success_response new = 0).
    { apply count_log_none. eapply Forall_impl; [exact Hnew|].
      intros e He. by apply He. }
    assert (He : count_log is_error_response new = 0).
    { apply count_log_none. eapply Forall_impl; [exact Hnew|].
      intros e He. by apply He. }
    destruct Hok as [Hsucc Herr]. unfold responses_counted.
    rewrite Hlog, !count_log_app, Hs, He, Hp, Hf.
    destruct (step_tasks_others l s s' Hstep Hl Hc) as [Hts | (payload & agent & Hts)];
      rewrite Hts, ?number_app; unfold weight; simpl; lia.
Qed.

Lemma reachable_responses_counted s : reachable s -> responses_counted s.
Proof.
  induction 1 as [|l s s' _ IH Hstep]; [by split|].
  by eapply step_responses_counted.
Qed.

(** X14. The counters agree with the responses: [processed] is the number
    of calls of [publish] with a success payload plus the tasks that have
    counted and not yet published, and [failed] is at least the number of
    calls with an error payload. When every task has ended, [processed] is
    exactly the number of success responses. *)
Theorem responses_match_counters (s : server) :
  reachable s ->
  count_log is_success_response (log s) + number at_publish_success (tasks s)
    = tasks_processed (metrics s) /\
  count_log is_error_response (log s) + number at_publish_error (tasks s)
    <= tasks_failed (metrics s) /\
  (quiescent s ->
   count_log is_success_response (log s) = tasks_processed (metrics s)).
Proof.
  intros Hs. destruct (reachable_responses_counted s Hs) as [Hsucc Herr].
  repeat (split; [done|]). intros Hq.
  rewrite <- Hsucc. rewrite (number_none at_publish_success); [lia|].
  eapply Forall_impl; [exact Hq|]. intros t Hend. simpl in Hend.
  by destruct (task_pc t).
Qed.
End Responses.

Lemma persisted_reachable : reachable persisted.
Proof. apply (run_reachable persisted_labels init); [constructor | by vm_compute]. Qed.

Lemma task_records_witness :
  reachable persisted /\
  exists e doc db,
    log persisted !! 2 = Some e /\ e_origin e = ByTask 0 /\
    e_effect e = InsertOne doc db /\
    exists t,
      tasks persisted !! 0 = Some t /\
      parsed_description (parse_payload (task_payload t) (task_target_agent t))
        = Some (todo_description doc) /\
      todo_target_agent doc = task_target_agent t /\
      todo_status doc = PENDING /\
      todo_context doc = Some "wyrmwatch_server" /\
      todo_project doc <> "".
Proof.
  split; [exact persisted_reachable|].
  destruct (log persisted !! 2) as [e|] eqn:He; [|by vm_compute in He].
  assert (Ho : e_origin e = ByTask 0).
  { vm_compute in He. by injection He as <-. }
  assert (Hd : exists doc db, e_effect e = InsertOne doc db).
  { vm_compute in He. injection He as <-. by eexists _, _. }
  destruct Hd as (doc & db & Hd).
  exists e, doc, db. repeat (split; [done|]).
  exact (task_records persisted 2 0 e doc db persisted_reachable He Ho Hd).
Defined.

Lemma task_calls_in_order_witness :
  reachable finished /\
  exists t,
    tasks finished !! 0 = Some t /\
    (calls_of 0 (log finished) = [] \/
     (exists outcome, written t outcome (calls_of 0 (log finished))) \/
     answered t (calls_of 0 (log finished))).
Proof.
  split; [exact finished_reachable|].
  destruct (tasks finished !! 0) as [t|] eqn:Ht; [|by vm_compute in Ht].
  exists t. split; [done|].
  exact (task_calls_in_order finished 0 t finished_reachable Ht).
Defined.

Lemma finished_task_calls_witness :
  reachable finished /\
  exists t,
    tasks finished !! 0 = Some t /\ task_pc t = Finished /\
    (unparsed t (calls_of 0 (log finished)) \/ answered t (calls_of 0 (log finished))).
Proof.
  split; [exact finished_reachable|].
  destruct (tasks finished !! 0) as [t|] eqn:Ht; [|by vm_compute in Ht].
  assert (Hpc : task_pc t = Finished).
  { vm_compute in Ht. by injection Ht as <-. }
  exists t. repeat (split; [done|]).
  exact (finished_task_calls finished 0 t finished_reachable Ht Hpc).
Defined.

Lemma responses_match_counters_witness :
  reachable finished /\
  count_log is_success_response (log finished) + number at_publish_success (tasks finished)
    = tasks_processed (metrics finished) /\
  count_log is_error_response (log finished) + number at_publish_error (tasks finished)
    <= tasks_failed (metrics finished) /\
  (quiescent finished ->
   count_log is_success_response (log finished) = tasks_processed (metrics finished)).
Proof.
  split; [exact finished_reachable|].
  exact (responses_match_counters finished finished_reachable).
Defined.

(** ** The snapshots in the order they were published *)

Lemma counters_le_refl m : counters_le m m.
Proof. by repeat split. Qed.

Lemma counters_le_trans m1 m2 m3 :
  counters_le m1 m2 -> counters_le m2 m3 -> counters_le m1 m3.
Proof. unfold counters_le. lia. Qed.

Section Snapshots.
Context `{PyRuntime}.

Lemma step_as_json l s s' :
  step l s = Some s' ->
  counters_le (as_json (clock s) (metrics s)) (as_json (clock s') (metrics s')).
Proof.
  intros Hstep.
  destruct (step_metrics_grow l s s' Hstep) as (Hr & Hp & Hf & _).
  unfold counters_le. simpl. lia.
Qed.

Lemma step_snapshots_ok l s s' : snapshots_ok s -> step l s = Some s' -> snapshots_ok s'.
Proof.
  intros [Hgrow Hnow] Hstep.
  pose proof (step_as_json l s s' Hstep) as Hle.
  destruct (step_emits l s s' Hstep) as (new & Hlog & Hnew).
  rewrite Forall_forall in Hnew.
  assert (Hfresh : forall k e m, new !! k = Some e -> observed e = Some m ->
                                 m = as_json (clock s) (metrics s)).
  { intros k e m Hk Hm.
    destruct (Hnew e (list_elem_of_lookup_2 _ _ _ Hk)) as (_ & _ & _ & _ & _ & _ & Hobs & _).
    by apply Hobs. }
  split.
  - intros k e m k' e' m' Hk Ho Hm Hk' Ho' Hm' Hkk. rewrite Hlog in Hk, Hk'.
    apply lookup_app_Some in Hk as [Hk | [Hlen Hk]];
      apply lookup_app_Some in Hk' as [Hk' | [Hlen' Hk']].
    + eauto.
    + rewrite (Hfresh _ _ _ Hk' Hm'). eauto.
    + pose proof (lookup_lt_Some _ _ _ Hk'). lia.
    + rewrite (Hfresh _ _ _ Hk Hm), (Hfresh _ _ _ Hk' Hm'). apply counters_le_refl.
  - intros k e m Hk Ho Hm. rewrite Hlog in Hk.
    apply lookup_app_Some in Hk as [Hk | [Hlen Hk]].
    + eapply counters_le_trans; eauto.
    + by rewrite (Hfresh _ _ _ Hk Hm).
Qed.

Lemma reachable_snapshots_ok s : reachable s -> snapshots_ok s.
Proof.
  induction 1 as [|l s s' _ IH Hstep].
  - split; [by intros k e m k' e' m' Hk | by intros k e m Hk].
  - by eapply step_snapshots_ok.
Qed.

(** X15. A reader of the reports never sees a counter go down: of two
    snapshots handed to [publish] by coroutines, in metrics reports and
    shutdown notices, the later one is at least the earlier one in
    [received], [processed] and [failed]. *)
Theorem reported_counters_never_decrease
    (s : server) (k k' : nat) (e e' : entry) (m m' : snapshot) :
  reachable s ->
  log s !! k = Some e -> by_coroutine e = true -> observed e = Some m ->
  log s !! k' = Some e' -> by_coroutine e' = true -> observed e' = Some m' ->
  (k <= k')%nat ->
  counters_le m m'.
Proof.
  intros Hs Hk Ho Hm Hk' Ho' Hm' Hkk.
  destruct (reachable_snapshots_ok s Hs) as [Hgrow _].
  exact (Hgrow k e m k' e' m' Hk Ho Hm Hk' Ho' Hm' Hkk).
Qed.
End Snapshots.

Lemma reported_counters_never_decrease_witness :
  reachable reporting /\
  exists e e' m m',
    log reporting !! 2 = Some e /\ by_coroutine e = true /\ observed e = Some m /\
    log reporting !! 3 = Some e' /\ by_coroutine e' = true /\ observed e' = Some m' /\
    (2 <= 3)%nat /\ counters_le m m'.
Proof.
  split; [exact reporting_reachable|].
  destruct (log reporting !! 2) as [e|] eqn:He; [|by vm_compute in He].
  destruct (log reporting !! 3) as [e'|] eqn:He'; [|by vm_compute in He'].
  assert (Ho : by_coroutine e = true).
  { vm_compute in He. by injection He as <-. }
  assert (Ho' : by_coroutine e' = true).
  { vm_compute in He'. by injection He' as <-. }
  assert (Hm : exists m, observed e = Some m).
  { vm_compute in He. injection He as <-. by eexists. }
  assert (Hm' : exists m', observed e' = Some m').
  { vm_compute in He'. injection He' as <-. by eexists. }
  destruct Hm as [m Hm]. destruct Hm' as [m' Hm'].
  assert (Hle : (2 <= 3)%nat) by lia.
  exists e, e', m, m'.
  split; [reflexivity|]. split; [exact Ho|]. split; [exact Hm|].
  split; [reflexivity|]. split; [exact Ho'|]. split; [exact Hm'|].
  split; [exact Hle|].
  exact (reported_counters_never_decrease reporting 2 3 e e' m m'
           reporting_reachable He Ho Hm He' Ho' Hm' Hle).
Defined.

(** ** The shutdown runs to its end *)

Section ShutdownCompletes.
Context `{PyRuntime}.

Lemma run_waiting_app ls1 ls2 s s1 s2 :
  run_waiting ls1 s = Some s1 -> run_waiting ls2 s1 = Some s2 ->
  run_waiting (ls1 ++ ls2) s = Some s2.
Proof.
  revert s. induction ls1 as [|l ls1 IH]; simpl; intros s Hrun1 Hrun2.
  - by simplify_eq.
  - destruct (shutdown_event s); [done|].
    destruct (step l s) as [s0|]; [|done]. eauto.
Qed.

Lemma run_waiting_ticks n s :
  shutdown_event s = false ->
  exists s', run_waiting (replicate n Tick) s = Some s' /\
             clock s' = clock s + n /\ shutdowns s' = shutdowns s /\
             shutdown_event s' = false.
Proof.
  revert s. induction n as [|n IH]; intros s Hev.
  - exists s. simpl. repeat split; (lia || done).
  - destruct (IH (set_clock (clock s + 1) s) Hev) as (s' & Hrun & Hclock & Hsh & Hev').
    exists s'. simpl in *. rewrite Hev. repeat split; [done | lia | done | done].
Qed.

Lemma shutdown_pc_after j p s :
  j < List.length (shutdowns s) ->
  shutdowns (set_shutdown_pc j p s) !! j = Some p.
Proof. intros Hj. unfold set_shutdown_pc. simpl. by apply list_lookup_insert_eq. Qed.

Lemma shutdown_from_set_event j s :
  shutdown_event s = false ->
  shutdowns s !! j = Some ShutdownSetEvent ->
  exists ls s',
    Forall (fun l => is_shutdown_label j l = true) ls /\
    run_waiting ls s = Some s' /\ shutdown_event s' = true /\
    shutdowns s' !! j = Some ShutdownDone.
Proof.
  intros Hev Hj. eexists [RunShutdown j], _. split.
  { repeat constructor. simpl. by apply Nat.eqb_eq. }
  simpl. rewrite Hev. unfold shutdown. rewrite Hj. split; [done|]. split; [done|].
  apply shutdown_pc_after. simpl. by eapply lookup_lt_Some.
Qed.

Lemma shutdown_from_sleeping j until s :
  shutdown_event s = false ->
  shutdowns s !! j = Some (ShutdownSleeping until) ->
  exists ls s',
    Forall (fun l => is_shutdown_label j l = true) ls /\
    run_waiting ls s = Some s' /\ shutdown_event s' = true /\
    shutdowns s' !! j = Some ShutdownDone.
Proof.
  intros Hev Hj.
  destruct (run_waiting_ticks (until - clock s) s Hev) as (s1 & Hrun1 & Hclock & Hsh & Hev1).
  assert (Hj1 : shutdowns s1 !! j = Some (ShutdownSleeping until)) by by rewrite Hsh.
  assert (Hwake : (until <=? clock s1)%nat = true) by (apply Nat.leb_le; lia).
  destruct (shutdown_from_set_event j (set_shutdown_pc j ShutdownSetEvent s1))
    as (ls & s' & Hls & Hrun & Hev' & Hdone).
  { done. }
  { apply shutdown_pc_after. by eapply lookup_lt_Some. }
  exists (replicate (until - clock s) Tick ++ RunShutdown j :: ls), s'.
  split.
  { apply Forall_app. split; [by apply Forall_replicate|].
    constructor; [|done]. simpl. by apply Nat.eqb_eq. }
  split; [|done]. eapply run_waiting_app; [exact Hrun1|].
  simpl. rewrite Hev1. unfold shutdown. by rewrite Hj1, Hwake.
Qed.

Lemma shutdown_from_sleep j s :
  shutdown_event s = false ->
  shutdowns s !! j = Some ShutdownSleep ->
  exists ls s',
    Forall (fun l => is_shutdown_label j l = true) ls /\
    run_waiting ls s = Some s' /\ shutdown_event s' = true /\
    shutdowns s' !! j = Some ShutdownDone.
Proof.
  intros Hev Hj.
  destruct (shutdown_from_sleeping j (clock s + 1)
              (set_shutdown_pc j (ShutdownSleeping (clock s + 1)) s))
    as (ls & s' & Hls & Hrun & Hev' & Hdone).
  { done. }
  { apply shutdown_pc_after. by eapply lookup_lt_Some. }
  exists (RunShutdown j :: ls), s'. split.
  { constructor; [|done]. simpl. by apply Nat.eqb_eq. }
  split; [|done]. simpl. rewrite Hev. unfold shutdown. by rewrite Hj.
Qed.

Lemma shutdown_from_disconnect j s :
  shutdown_event s = false ->
  shutdowns s !! j = Some ShutdownDisconnect ->
  exists ls s',
    Forall (fun l => is_shutdown_label j l = true) ls /\
    run_waiting ls s = Some s' /\ shutdown_event s' = true /\
    shutdowns s' !! j = Some ShutdownDone.
Proof.
  intros Hev Hj.
  destruct (shutdown_from_sleep j
              (set_shutdown_pc j ShutdownSleep (disconnect (ByShutdown j) s)))
    as (ls & s' & Hls & Hrun & Hev' & Hdone).
  { done. }
  { apply shutdown_pc_after. simpl. by eapply lookup_lt_Some. }
  exists (RunShutdown j :: ls), s'. split.
  { constructor; [|done]. simpl. by apply Nat.eqb_eq. }
  split; [|done]. simpl. rewrite Hev. unfold shutdown. by rewrite Hj.
Qed.

(** X16. While the shutdown event is not set, a shutdown that has started
    can always run to its end, whatever the tasks and the connection are
    doing: its own statements and the passing of time, each taken while the
    event is not set and [start] is still in its wait, take it to the [set]
    of the shutdown event. *)
Theorem shutdown_can_complete (s : server) (j : nat) (p : shutdown_pc) :
  reachable s ->
  shutdown_event s = false ->
  shutdowns s !! j = Some p -> pending p = true ->
  exists ls s',
    Forall (fun l => is_shutdown_label j l = true) ls /\
    run_waiting ls s = Some s' /\ shutdown_event s' = true /\
    shutdowns s' !! j = Some ShutdownDone.
Proof.
  intros _ Hev Hj Hp. destruct p; try done.
  - destruct (shutdown_from_disconnect j
                (set_shutdown_pc j ShutdownDisconnect
                   (publish (ByShutdown j) "response/mcp_server/status"
                      (ShutdownPayload (clock s) (as_json (clock s) (metrics s))) s)))
      as (ls & s' & Hls & Hrun & Hev' & Hdone).
    { simpl. by rewrite shutdown_event_publish. }
    { apply shutdown_pc_after. rewrite shutdowns_publish. by eapply lookup_lt_Some. }
    exists (RunShutdown j :: ls), s'. split.
    { constructor; [|done]. simpl. by apply Nat.eqb_eq. }
    split; [|done]. simpl. rewrite Hev. unfold shutdown. by rewrite Hj.
  - by apply shutdown_from_disconnect.
  - by apply shutdown_from_sleep.
  - by eapply shutdown_from_sleeping.
  - by apply shutdown_from_set_event.
Qed.
End ShutdownCompletes.

Lemma signalled_reachable : reachable signalled.
Proof.
  apply (run_reachable [Signal] executing); [exact executing_reachable | by vm_compute].
Qed.

Lemma shutdown_can_complete_witness :
  reachable signalled /\
  shutdown_event signalled = false /\
  shutdowns signalled !! 0 = Some ShutdownPublish /\
  pending ShutdownPublish = true /\
  exists ls s',
    Forall (fun l => is_shutdown_label 0 l = true) ls /\
    run_waiting ls signalled = Some s' /\ shutdown_event s' = true /\
    shutdowns s' !! 0 = Some ShutdownDone.
Proof.
  assert (Hj : shutdowns signalled !! 0 = Some ShutdownPublish) by by vm_compute.
  split; [exact signalled_reachable|]. split; [reflexivity|].
  split; [exact Hj|]. split; [reflexivity|].
  exact (shutdown_can_complete signalled 0 ShutdownPublish signalled_reachable
           eq_refl Hj eq_refl).
Defined.

(** ** The two kinds of topic *)

Section Topics.
Context `{PyRuntime}.

(** X17. The two kinds of topic do not mix, whatever bytes a message
    carries, valid UTF-8 or not, JSON or not. A message on the control
    topic creates no task and moves no counter. A message on a task topic
    starts no shutdown and calls none of the collaborators. A message on
    any other topic changes nothing. *)
Theorem topics_do_not_mix (s s' : server) (topic : string) (payload_bytes : list byte) :
  step (Message topic payload_bytes) s = Some s' ->
  (topic = "mcp_server/control" ->
   tasks s' = tasks s /\ metrics s' = metrics s) /\
  (startswith topic "mcp/" = true ->
   shutdowns s' = shutdowns s /\ log s' = log s) /\
  (topic <> "mcp_server/control" -> startswith topic "mcp/" = false -> s' = s).
Proof.
  intros Hstep. simpl in Hstep. destruct (main_returned s); [done|].
  destruct (handle_message s topic payload_bytes) as [e|s1] eqn:Hm;
    injection Hstep as <-.
  { repeat split; done. }
  split; [|split].
  - intros ->.
    apply handle_message_returns in Hm as [-> | [-> | (payload & _ & ->)]];
      [done | by autorewrite with fields | done].
  - intros Hstart. unfold handle_message in Hm.
    destruct (decode_utf8 payload_bytes) as [payload|]; [|done].
    rewrite (task_topic_not_control topic Hstart) in Hm. injection Hm as <-.
    unfold handle_task. by rewrite Hstart.
  - intros Hcontrol Hstart. unfold handle_message in Hm.
    destruct (decode_utf8 payload_bytes) as [payload|]; [|done].
    apply String.eqb_neq in Hcontrol. rewrite Hcontrol in Hm. injection Hm as <-.
    unfold handle_task. by rewrite Hstart.
Qed.
End Topics.

Lemma topics_do_not_mix_witness :
  (exists s',
     step (Message "mcp_server/control" (to_bytes status_command)) executing = Some s' /\
     tasks s' = tasks executing /\ metrics s' = metrics executing) /\
  (exists s',
     step (Message "mcp/alice" (to_bytes urgent_payload)) executing = Some s' /\
     shutdowns s' = shutdowns executing /\ log s' = log executing) /\
  (exists s',
     step (Message "news/today" (to_bytes urgent_payload)) executing = Some s' /\
     s' = executing).
Proof.
  split; [|split].
  - destruct (step (Message "mcp_server/control" (to_bytes status_command)) executing)
      as [s'|] eqn:Hstep; [|by vm_compute in Hstep].
    exists s'. split; [reflexivity|].
    exact (proj1 (topics_do_not_mix executing s' "mcp_server/control"
                    (to_bytes status_command) Hstep) eq_refl).
  - destruct (step (Message "mcp/alice" (to_bytes urgent_payload)) executing)
      as [s'|] eqn:Hstep; [|by vm_compute in Hstep].
    exists s'. split; [reflexivity|].
    exact (proj1 (proj2 (topics_do_not_mix executing s' "mcp/alice"
                           (to_bytes urgent_payload) Hstep)) eq_refl).
  - destruct (step (Message "news/today" (to_bytes urgent_payload)) executing)
      as [s'|] eqn:Hstep; [|by vm_compute in Hstep].
    exists s'. split; [reflexivity|].
    apply (proj2 (proj2 (topics_do_not_mix executing s' "news/today"
                           (to_bytes urgent_payload) Hstep))); [done | reflexivity].
Defined.

(** ** The outcome of persistence *)

Lemma set_pc_some i p s t :
  tasks s !! i = Some t ->
  set_pc i p s = set_tasks (<[i := moved t p]> (tasks s)) s.
Proof. intros Hi. unfold set_pc. by rewrite Hi. Qed.

Lemma publish_published o topic body s :
  publish o topic body s = record o (published (is_connected s) topic body) s.
Proof. unfold publish, published. by destruct (is_connected s). Qed.

(** Project a field out of a state built by the setters. *)
Ltac fields_of_setters :=
  cbn [log metrics task_semaphore ai_semaphore shutdowns shutdown_event main_returned
       is_connected clock tasks reporter
       set_tasks set_metrics set_task_semaphore set_ai_semaphore record
       increment_processed increment_failed
       tasks_processed tasks_failed tasks_received start_time
       task_target_agent task_payload task_pc moved].

(** The next statement of task [i], which is at [q]. *)
Ltac next_statement i t q :=
  unfold process_task at 1; fields_of_setters;
  rewrite (list_lookup_insert_eq _ i (moved t q)) by done;
  fields_of_setters; cbv iota;
  rewrite ?publish_published;
  rewrite (set_pc_some i _ _ (moved t q))
    by (fields_of_setters; by apply list_lookup_insert_eq);
  fields_of_setters; rewrite list_insert_insert_eq.

Section Persistence.
Context `{PyRuntime}.

Lemma execute_outcome now gw db p :
  params_command p = Some "add" ->
  exists doc,
    execute now gw db p =
    (Some doc,
     match db with
     | Inserted _ => inr (added (default (PyStr "") (params_description p)) now)
     | InsertRaises e => inl e
     end).
Proof.
  intros Hc. unfold execute. rewrite Hc. unfold add_todo.
  destruct (enhance_todo_description _ _) as [?|[[? ?] ?]]; destruct db; by eexists.
Qed.

(** C7. A unit that has reached its call of [execute] while the loop runs
    ([start] has not returned) ends in one of two ways, whatever the
    gateway does. When [insert_one] returns, [processed] is incremented and
    [publish] is called with the success payload on
    response/<target_agent>/todo. When [insert_one] raises, [failed] is
    incremented and [publish] is called with the error payload, carrying
    the exception's text, on response/<target_agent>/error. In both cases
    the unit then leaves its two blocks and finishes: both permits are
    returned, no other unit and no other part of the server is touched. *)
Theorem persistence_outcomes
    (s : server) (i : nat) (t : task) (p : params) (gw : gateway) (db : insert_reply) :
  reachable s ->
  main_returned s = false ->
  tasks s !! i = Some t -> task_pc t = Execute p ->
  exists doc s',
    run (persistence_run i gw db) s = Some s' /\
    log s' = log s ++
      [{| e_time := clock s; e_origin := ByTask i; e_effect := InsertOne doc db |};
       {| e_time := clock s; e_origin := ByTask i;
          e_effect := persistence_response db (is_connected s) (task_target_agent t)
                        (default (PyStr "") (params_description p)) (clock s) |}] /\
    tasks_processed (metrics s') = tasks_processed (metrics s) + insert_succeeded db /\
    tasks_failed (metrics s') = tasks_failed (metrics s) + insert_failed db /\
    tasks_received (metrics s') = tasks_received (metrics s) /\
    tasks s' = <[i := moved t Finished]> (tasks s) /\
    task_semaphore s' = task_semaphore s + 1 /\
    ai_semaphore s' = ai_semaphore s + 1 /\
    shutdowns s' = shutdowns s /\
    shutdown_event s' = shutdown_event s /\
    main_returned s' = main_returned s /\
    is_connected s' = is_connected s.
Proof.
  intros Hs _ Hi Hpc.
  assert (Hparse : parse_payload (task_payload t) (task_target_agent t) = inr p).
  { destruct (reachable_task_log_ok s Hs) as [Hcalls _]. specialize (Hcalls i t Hi).
    unfold task_calls in Hcalls. rewrite Hpc in Hcalls. by destruct Hcalls. }
  destruct (parse_payload_params _ _ _ Hparse) as (Hcommand & _).
  destruct (execute_outcome (clock s) gw db p Hcommand) as (doc & Hexec).
  pose proof (lookup_lt_Some _ _ _ Hi) as Hlt.
  exists doc.
  unfold persistence_run, run. simpl step.
  unfold process_task at 1. rewrite Hi, Hpc, Hexec.
  destruct db as [inserted_id | e].
  - set (r := added (default (PyStr "") (params_description p)) (clock s)).
    rewrite (set_pc_some i _ _ t) by done. fields_of_setters.
    next_statement i t (IncrementProcessed r).
    next_statement i t (PublishSuccess r).
    next_statement i t ReleaseAI.
    next_statement i t ReleaseTask.
    eexists. split; [reflexivity|]. fields_of_setters.
    rewrite <- app_assoc. repeat split; first [reflexivity | simpl; lia].
  - rewrite (set_pc_some i _ _ t) by done. fields_of_setters.
    next_statement i t (IncrementFailed e).
    next_statement i t (PublishError e).
    next_statement i t ReleaseAI.
    next_statement i t ReleaseTask.
    eexists. split; [reflexivity|]. fields_of_setters.
    rewrite <- app_assoc. repeat split; first [reflexivity | simpl; lia].
Qed.
End Persistence.

Lemma persistence_outcomes_witness :
  reachable executing /\ main_returned executing = false /\
  exists t p,
    tasks executing !! 0 = Some t /\ task_pc t = Execute p /\
    (exists s',
       run (persistence_run 0 Absent (Inserted (Oid 1))) executing = Some s' /\
       tasks_processed (metrics s') = tasks_processed (metrics executing) + 1 /\
       tasks_failed (metrics s') = tasks_failed (metrics executing) + 0) /\
    (exists s',
       run (persistence_run 0 Absent (InsertRaises "AutoReconnect")) executing = Some s' /\
       tasks_processed (metrics s') = tasks_processed (metrics executing) + 0 /\
       tasks_failed (metrics s') = tasks_failed (metrics executing) + 1).
Proof.
  split; [exact executing_reachable|]. split; [reflexivity|].
  destruct (tasks executing !! 0) as [t|] eqn:Ht; [|by vm_compute in Ht].
  assert (Hp : exists p, task_pc t = Execute p).
  { vm_compute in Ht. injection Ht as <-. by eexists. }
  destruct Hp as [p Hp]. exists t, p.
  split; [reflexivity|]. split; [exact Hp|]. split.
  - destruct (persistence_outcomes executing 0 t p Absent (Inserted (Oid 1))
                executing_reachable eq_refl Ht Hp)
      as (doc & s' & Hrun & _ & Hprocessed & Hfailed & _).
    exists s'. split; [exact Hrun|]. split; [exact Hprocessed | exact Hfailed].
  - destruct (persistence_outcomes executing 0 t p Absent (InsertRaises "AutoReconnect")
                executing_reachable eq_refl Ht Hp)
      as (doc & s' & Hrun & _ & Hprocessed & Hfailed & _).
    exists s'. split; [exact Hrun|]. split; [exact Hprocessed | exact Hfailed].
Defined.
